(** * CashOne: ledger, category tree and provider synchronisation

    A shallow embedding of the Go backend of the CashOne expense tracker:
    - [backend/app/domain/entity/models.go]                      (entities)
    - [backend/app/infrastructure/repository/transaction_repository.go]
    - [backend/infrastructure/repository/transaction_repository.go]
    - the card and category repositories
    - [backend/app/infrastructure/service/transaction_service.go] (ledger)
    - the category service (Create, MoveCategory, the cycle checks)
    - the two Monobank services (SyncUserData, HandleWebhook, conversion).

    The database is an explicit value threaded through a small state and
    error monad; storage failures, the provider's HTTP answers and the
    clock are inputs of the model ([Env]). *)

From stdpp Require Import base gmap list strings.
From Stdlib Require Import ZArith Lia.

Local Open Scope string_scope.
Local Open Scope Z_scope.

(** ** Go's [int64] *)

Module Int64.
Definition min : Z := - 2 ^ 63.
Definition max : Z := 2 ^ 63 - 1.

(** Two's complement wrap-around of an exact integer result. *)
Definition wrap (z : Z) : Z := (z + 2 ^ 63) mod 2 ^ 64 - 2 ^ 63.

Definition add (a b : Z) : Z := wrap (a + b).
Definition sub (a b : Z) : Z := wrap (a - b).
Definition neg (a : Z) : Z := wrap (- a).

Definition in_range (z : Z) : Prop := min <= z <= max.
End Int64.

(** ** Entities *)

(** [uuid.UUID]; [uuid.Nil] is the all-zero identifier. *)
Definition UUID := N.
Definition uuid_Nil : UUID := 0%N.

(** [time.Time] as Unix seconds; the zero [time.Time] is January 1, year 1. *)
Definition Time := Z.
Definition time_zero : Time := -62135596800.
Definition IsZero (t : Time) : bool := bool_decide (t = time_zero).

Module Card.
Record t := mk {
  ID : UUID;
  UserID : UUID;
  CardName : string;
  MaskedPan : string;
  Balance : Z;
  CreditLimit : Z;
  CurrencyCode : Z;
  IsManual : bool;
  Type_ : string;
  MonobankAccountID : string
}.

Definition with_Balance (b : Z) (c : t) : t :=
  mk (ID c) (UserID c) (CardName c) (MaskedPan c) b (CreditLimit c)
     (CurrencyCode c) (IsManual c) (Type_ c) (MonobankAccountID c).
End Card.

Module Transaction.
Record t := mk {
  ID : UUID;
  CardID : UUID;
  UserID : UUID;
  CategoryID : option UUID;
  Amount : Z;
  OperationAmount : Z;
  CurrencyCode : Z;
  OperationCurrencyCode : Z;
  Type_ : string;
  Description : string;
  MCC : Z;
  CommissionRate : Z;
  CashbackAmount : Z;
  BalanceAfter : Z;
  Hold : bool;
  TransactionDate : Time;
  MonobankID : string;
  Comment : string
}.

Definition with_ID (i : UUID) (x : t) : t :=
  mk i (CardID x) (UserID x) (CategoryID x) (Amount x) (OperationAmount x)
     (CurrencyCode x) (OperationCurrencyCode x) (Type_ x) (Description x)
     (MCC x) (CommissionRate x) (CashbackAmount x) (BalanceAfter x) (Hold x)
     (TransactionDate x) (MonobankID x) (Comment x).

Definition with_UserID (u : UUID) (x : t) : t :=
  mk (ID x) (CardID x) u (CategoryID x) (Amount x) (OperationAmount x)
     (CurrencyCode x) (OperationCurrencyCode x) (Type_ x) (Description x)
     (MCC x) (CommissionRate x) (CashbackAmount x) (BalanceAfter x) (Hold x)
     (TransactionDate x) (MonobankID x) (Comment x).

Definition with_CardID (c : UUID) (x : t) : t :=
  mk (ID x) c (UserID x) (CategoryID x) (Amount x) (OperationAmount x)
     (CurrencyCode x) (OperationCurrencyCode x) (Type_ x) (Description x)
     (MCC x) (CommissionRate x) (CashbackAmount x) (BalanceAfter x) (Hold x)
     (TransactionDate x) (MonobankID x) (Comment x).

Definition with_MonobankID (m : string) (x : t) : t :=
  mk (ID x) (CardID x) (UserID x) (CategoryID x) (Amount x) (OperationAmount x)
     (CurrencyCode x) (OperationCurrencyCode x) (Type_ x) (Description x)
     (MCC x) (CommissionRate x) (CashbackAmount x) (BalanceAfter x) (Hold x)
     (TransactionDate x) m (Comment x).

Definition with_TransactionDate (d : Time) (x : t) : t :=
  mk (ID x) (CardID x) (UserID x) (CategoryID x) (Amount x) (OperationAmount x)
     (CurrencyCode x) (OperationCurrencyCode x) (Type_ x) (Description x)
     (MCC x) (CommissionRate x) (CashbackAmount x) (BalanceAfter x) (Hold x)
     d (MonobankID x) (Comment x).

Definition with_BalanceAfter (b : Z) (x : t) : t :=
  mk (ID x) (CardID x) (UserID x) (CategoryID x) (Amount x) (OperationAmount x)
     (CurrencyCode x) (OperationCurrencyCode x) (Type_ x) (Description x)
     (MCC x) (CommissionRate x) (CashbackAmount x) b (Hold x)
     (TransactionDate x) (MonobankID x) (Comment x).
End Transaction.

Module Category.
Record t := mk {
  ID : UUID;
  Name : string;
  ParentID : option UUID;
  UserID : UUID;
  Type_ : string
}.

Definition with_ID (i : UUID) (c : t) : t :=
  mk i (Name c) (ParentID c) (UserID c) (Type_ c).

Definition with_ParentID (p : option UUID) (c : t) : t :=
  mk (ID c) (Name c) p (UserID c) (Type_ c).
End Category.

Module MonobankIntegration.
Record t := mk {
  ID : UUID;
  UserID : UUID;
  ClientID : string;
  Token : string;
  WebhookURL : string;
  Permissions : string
}.
End MonobankIntegration.

(** ** Errors *)

(** The sentinel errors of the services and repositories, and the two ways
    the code builds new ones: [fmt.Errorf("<context>: %w", err)] ([Wrap]),
    [fmt.Errorf("%w: <detail>", sentinel)] ([Detail]) and the same with the
    text of another error as the detail ([Caused]). *)
Inductive Error :=
  (* gorm *)
  | ErrStorage                    (* a failed query or statement *)
  | ErrRecordNotFound             (* gorm.ErrRecordNotFound *)
  (* ledger *)
  | ErrCardNotFound
  | ErrUnauthorized
  | ErrTransactionNotFound
  | ErrInvalidTransaction
  | ErrInsufficientFunds
  | ErrCategoryNotFoundText       (* fmt.Errorf("category not found") *)
  | ErrCategoryTypeMismatch       (* "category type does not match transaction type" *)
  | ErrCannotModifyMonobank       (* "cannot modify monobank transaction" *)
  | ErrCannotDeleteMonobank       (* "cannot delete monobank transaction" *)
  (* categories *)
  | ErrUserNotFound
  | ErrCategoryNotFound
  | ErrCategoryAlreadyExists
  | ErrInvalidCategoryData
  | ErrValidation
  | ErrParentOtherUser            (* "parent category must belong to the same user" *)
  | ErrCircularDetected           (* "circular reference detected in category hierarchy" *)
  | ErrCircularExisting           (* "... in existing category hierarchy" *)
  (* provider *)
  | ErrMonobankIntegrationNotFound
  | ErrMonobankTokenInvalid
  | ErrMonobankAPIError
  | ErrMonobankRateLimit
  | ErrDatabaseOperation
  | ErrInternal
  | ErrInvalidRequest
  | ErrJSON                       (* a json.Unmarshal error *)
  | ErrUnknownWebhookType (type : string)
  | ErrCardNotFoundForAccount (account : string)
  (* wrapping *)
  | Wrap (context : string) (cause : Error)
  | Detail (sentinel : Error) (detail : string)
  | Caused (sentinel : Error) (cause : Error).   (* fmt.Errorf("%w: %v", sentinel, err) *)

Inductive Res (A : Type) :=
  | Ok (a : A)
  | Err (e : Error).
Arguments Ok {A} a.
Arguments Err {A} e.

Definition is_err {A} (r : Res A) : bool :=
  match r with Ok _ => false | Err _ => true end.

(** ** The world: database and log *)

Record DB := mkDB {
  users : gset UUID;
  cards : gmap UUID Card.t;
  transactions : list Transaction.t;
  categories : gmap UUID Category.t;
  integrations : gmap UUID MonobankIntegration.t   (* keyed by user: UNIQUE(user_id) *)
}.

Inductive Level := LError | LWarn | LInfo.

Inductive LogKey :=
  | KNone
  | KId (u : UUID)
  | KStr (s : string).

Record LogEntry := mkLog { level : Level; message : string; key : LogKey }.

Record World := mkWorld { db : DB; log : list LogEntry }.

(** ** What the code cannot control *)

(** Every statement sent to the database can fail. *)
Inductive StorageOp :=
  | OpCardGetByID (id : UUID)
  | OpCardGetByUserID (u : UUID)
  | OpCardGetByMonobankAccountID (account : string)
  | OpCardFirst (id : UUID)
  | OpCardSave (id : UUID)
  | OpTxInsert
  | OpTxGetByID (id : UUID)
  | OpTxGetByCardID (card : UUID)
  | OpTxGetByMonobankID (mid : string)
  | OpTxUpdate (id : UUID)
  | OpTxDelete (id : UUID)
  | OpCommit
  | OpCategoryGetByID (id : UUID)
  | OpCategoryGetByUserID (u : UUID)
  | OpCategoryCreate
  | OpCategoryUpdate (id : UUID)
  | OpCategoryFirst (id : UUID)
  | OpUserGetByID (id : UUID)
  | OpIntegrationGetByUserID (u : UUID).

(** The provider's statement item ([monobankTransaction]). *)
Module monobankTransaction.
Record t := mk {
  ID : string;
  Time : Z;
  Description : string;
  MCC : Z;
  Hold : bool;
  Amount : Z;
  OperationAmount : Z;
  CurrencyCode : Z;
  CommissionRate : Z;
  CashbackAmount : Z;
  Balance : Z;
  Comment : string
}.
End monobankTransaction.

(** The answer to [GET /personal/statement/{account}/{from}]. *)
Inductive StatementBody :=
  | Undecodable
  | Statement (items : list monobankTransaction.t).

Inductive HttpResult :=
  | RequestInvalid                        (* http.NewRequest fails *)
  | TransportError                        (* httpClient.Do fails *)
  | Response (status : Z) (body : StatementBody).

Record Env := mkEnv {
  fault : StorageOp → bool;
  provider : string → string → Z → HttpResult;   (* token, account, from *)
  now : Time;
  one_month_ago : Time                    (* time.Now().AddDate(0, -1, 0) *)
}.

(** ** The monad *)

Definition M (A : Type) : Type := World → Res A * World.

Definition ret {A} (a : A) : M A := fun w => (Ok a, w).
Definition fail {A} (e : Error) : M A := fun w => (Err e, w).

Definition bind {A B} (m : M A) (k : A → M B) : M B :=
  fun w => match m w with
           | (Ok a, w') => k a w'
           | (Err e, w') => (Err e, w')
           end.

Notation "x <- m ;; k" := (bind m (fun x => k))
  (at level 100, m at next level, right associativity).
Notation "m ;;; k" := (bind m (fun _ => k))
  (at level 100, right associativity).

Definition get_db : M DB := fun w => (Ok (db w), w).
Definition put_db (d : DB) : M unit := fun w => (Ok tt, mkWorld d (log w)).

Definition logw (l : Level) (msg : string) (k : LogKey) : M unit :=
  fun w => (Ok tt, mkWorld (db w) (log w ++ [mkLog l msg k])).

(** [if err != nil { log.Errorw(msg, ...); return wrap(err) }] *)
Definition on_error {A} (m : M A) (msg : option (string * LogKey))
    (wrap : Error → Error) : M A :=
  fun w => match m w with
           | (Ok a, w') => (Ok a, w')
           | (Err e, w') =>
               match msg with
               | Some (s, k) => (Err (wrap e), mkWorld (db w') (log w' ++ [mkLog LError s k]))
               | None => (Err (wrap e), w')
               end
           end.

(** [db.Transaction(func(tx) error { ... })]: the writes of the body are
    kept only if the body returns nil and the commit succeeds. *)
Definition Transaction_ (env : Env) {A} (body : M A) : M A :=
  fun w => match body w with
           | (Ok a, w') =>
               if fault env OpCommit
               then (Err ErrStorage, mkWorld (db w) (log w'))
               else (Ok a, w')
           | (Err e, w') => (Err e, mkWorld (db w) (log w'))
           end.

Definition same (e : Error) : Error := e.

(** [if err != nil { log.Errorw(msg, ...); continue }] *)
Definition swallow {A} (m : M A) (msg : string) (k : LogKey) : M (option A) :=
  fun w => match m w with
           | (Ok a, w') => (Ok (Some a), w')
           | (Err e, w') => (Ok None, mkWorld (db w') (log w' ++ [mkLog LError msg k]))
           end.

(** A failing statement. *)
Definition guard_op (env : Env) (op : StorageOp) : M unit :=
  if fault env op then fail ErrStorage else ret tt.

(** Computations that contain an unbounded loop take fuel; [None] means the
    loop was still running when the fuel ran out. *)
Definition MF (A : Type) : Type := World → option (Res A * World).

Definition liftF {A} (m : M A) : MF A := fun w => Some (m w).

Definition bindF {A B} (m : MF A) (k : A → MF B) : MF B :=
  fun w => match m w with
           | Some (Ok a, w') => k a w'
           | Some (Err e, w') => Some (Err e, w')
           | None => None
           end.

(** ** Tables *)

Definition set_cards (c : gmap UUID Card.t) (d : DB) : DB :=
  mkDB (users d) c (transactions d) (categories d) (integrations d).
Definition set_transactions (l : list Transaction.t) (d : DB) : DB :=
  mkDB (users d) (cards d) l (categories d) (integrations d).
Definition set_categories (c : gmap UUID Category.t) (d : DB) : DB :=
  mkDB (users d) (cards d) (transactions d) c (integrations d).

(** [default:gen_random_uuid()]: a row inserted with the zero id gets an
    unused one. *)
Definition fresh_tx_id (l : list Transaction.t) : UUID :=
  N.succ (foldr (fun x m => N.max (Transaction.ID x) m) 0%N l).

(** [check:type IN ('expense', 'income', 'transfer')] *)
Definition type_check (ty : string) : bool :=
  bool_decide (ty = "expense") || bool_decide (ty = "income")
  || bool_decide (ty = "transfer").

(** The signed effect of a transaction on its card, as both
    [CreateTransaction] and [transactionRepository.Create] compute it:
    a [switch] on the type, no case for anything else. *)
Definition apply_delta (ty : string) (amount balance : Z) : Z :=
  if bool_decide (ty = "expense") then Int64.sub balance amount
  else if bool_decide (ty = "income") then Int64.add balance amount
  else if bool_decide (ty = "transfer") then Int64.sub balance amount
  else balance.

(** ** Repositories *)

(** *** gorm statements shared by the repositories *)

Section Statements.
Context (env : Env).

(** [tx.Create(transaction)] *)
Definition tx_Create (x : Transaction.t) : M Transaction.t :=
  guard_op env OpTxInsert ;;;
  d <- get_db ;;
  let x' := if bool_decide (Transaction.ID x = uuid_Nil)
            then Transaction.with_ID (fresh_tx_id (transactions d)) x
            else x in
  if bool_decide (Transaction.ID x' ∈ Transaction.ID <$> transactions d)
  then fail ErrStorage
  else if negb (type_check (Transaction.Type_ x')) then fail ErrStorage
  else put_db (set_transactions (transactions d ++ [x']) d) ;;; ret x'.

(** [tx.First(&card, id)] *)
Definition card_First (id : UUID) : M Card.t :=
  guard_op env (OpCardFirst id) ;;;
  d <- get_db ;;
  match cards d !! id with
  | Some c => ret c
  | None => fail ErrRecordNotFound
  end.

(** [tx.Save(&card)] *)
Definition card_Save (c : Card.t) : M unit :=
  guard_op env (OpCardSave (Card.ID c)) ;;;
  d <- get_db ;;
  put_db (set_cards (<[Card.ID c := c]> (cards d)) d).
End Statements.

(** [ORDER BY transaction_date DESC], then [OFFSET] and [LIMIT] when
    positive. *)
Fixpoint insert_by_date (x : Transaction.t) (l : list Transaction.t)
    : list Transaction.t :=
  match l with
  | [] => [x]
  | y :: l' =>
      if Transaction.TransactionDate y <? Transaction.TransactionDate x
      then x :: y :: l'
      else y :: insert_by_date x l'
  end.

Definition order_by_date_desc (l : list Transaction.t) : list Transaction.t :=
  foldr insert_by_date [] l.

Definition page {A} (limit offset : Z) (l : list A) : list A :=
  let l := if 0 <? offset then drop (Z.to_nat offset) l else l in
  if 0 <? limit then take (Z.to_nat limit) l else l.

(** *** [cardRepository] *)

Module cardRepository.
Section WithEnv.
Context (env : Env).

Definition GetByID (id : UUID) : M (option Card.t) :=
  on_error (guard_op env (OpCardGetByID id))
           (Some ("Failed to get card by ID", KId id)) same ;;;
  d <- get_db ;;
  ret (cards d !! id).

Definition GetByUserID (userID : UUID) : M (list Card.t) :=
  on_error (guard_op env (OpCardGetByUserID userID))
           (Some ("Failed to get cards by user ID", KId userID)) same ;;;
  d <- get_db ;;
  ret (filter (fun c => Card.UserID c = userID) (map_to_list (cards d)).*2).

(** [Where("monobank_account_id = ? AND is_manual = false", accountID).First];
    which of several matching rows comes first is the store's choice. *)
Definition GetByMonobankAccountID (accountID : string) : M (option Card.t) :=
  on_error (guard_op env (OpCardGetByMonobankAccountID accountID))
           (Some ("Failed to get card by Monobank account ID", KStr accountID)) same ;;;
  d <- get_db ;;
  ret (head (filter (fun c => Card.MonobankAccountID c = accountID
                              ∧ Card.IsManual c = false)
                    (map_to_list (cards d)).*2)).
End WithEnv.
End cardRepository.

(** *** [transactionRepository] of [backend/app] *)

Module App_transactionRepository.
Section WithEnv.
Context (env : Env).

Definition Create (transaction : Transaction.t) : M unit :=
  Transaction_ env (
    (* Create the transaction *)
    x <- on_error (tx_Create env transaction)
           (Some ("Failed to create transaction", KId (Transaction.CardID transaction))) same ;;
    (* Update card balance *)
    card <- on_error (card_First env (Transaction.CardID x))
           (Some ("Failed to get card for balance update", KId (Transaction.CardID x))) same ;;
    let card := Card.with_Balance
                  (apply_delta (Transaction.Type_ x) (Transaction.Amount x)
                               (Card.Balance card)) card in
    on_error (card_Save env card)
           (Some ("Failed to update card balance", KId (Card.ID card))) same).

Definition GetByID (id : UUID) : M (option Transaction.t) :=
  on_error (guard_op env (OpTxGetByID id))
           (Some ("Failed to get transaction by ID", KId id)) same ;;;
  d <- get_db ;;
  ret (head (filter (fun x => Transaction.ID x = id) (transactions d))).

Definition GetByCardID (cardID : UUID) (limit offset : Z)
    : M (list Transaction.t) :=
  on_error (guard_op env (OpTxGetByCardID cardID))
           (Some ("Failed to get transactions by card ID", KId cardID)) same ;;;
  d <- get_db ;;
  ret (page limit offset
         (order_by_date_desc
            (filter (fun x => Transaction.CardID x = cardID) (transactions d)))).

Definition GetByMonobankID (monobankID : string) : M (option Transaction.t) :=
  on_error (guard_op env (OpTxGetByMonobankID monobankID))
           (Some ("Failed to get transaction by Monobank ID", KStr monobankID)) same ;;;
  d <- get_db ;;
  ret (head (filter (fun x => Transaction.MonobankID x = monobankID)
                    (transactions d))).

(** The columns [Updates] writes; id, card, owner and Monobank id stay. *)
Definition updated_row (new old : Transaction.t) : Transaction.t :=
  Transaction.mk (Transaction.ID old) (Transaction.CardID old)
    (Transaction.UserID old) (Transaction.CategoryID new)
    (Transaction.Amount new) (Transaction.OperationAmount new)
    (Transaction.CurrencyCode new) (Transaction.OperationCurrencyCode new)
    (Transaction.Type_ new) (Transaction.Description new)
    (Transaction.MCC new) (Transaction.CommissionRate new)
    (Transaction.CashbackAmount new) (Transaction.BalanceAfter new)
    (Transaction.Hold new) (Transaction.TransactionDate new)
    (Transaction.MonobankID old) (Transaction.Comment new).

Definition Update (transaction : Transaction.t) : M unit :=
  let tid := Transaction.ID transaction in
  on_error (
    guard_op env (OpTxUpdate tid) ;;;
    if negb (type_check (Transaction.Type_ transaction)) then fail ErrStorage
    else ret tt)
    (Some ("Failed to update transaction", KId tid)) same ;;;
  d <- get_db ;;
  if bool_decide (tid ∈ Transaction.ID <$> transactions d) then
    put_db (set_transactions
              ((fun old => if bool_decide (Transaction.ID old = tid)
                           then updated_row transaction old else old)
                 <$> transactions d) d)
  else fail ErrRecordNotFound.

(** With [gorm.DeletedAt] in the model this is a soft delete: the row is
    stamped and no query sees it again. *)
Definition Delete (tid : UUID) : M unit :=
  on_error (guard_op env (OpTxDelete tid))
           (Some ("Failed to delete transaction", KId tid)) same ;;;
  d <- get_db ;;
  if bool_decide (tid ∈ Transaction.ID <$> transactions d) then
    put_db (set_transactions
              (filter (fun x => Transaction.ID x ≠ tid) (transactions d)) d)
  else fail ErrRecordNotFound.
End WithEnv.
End App_transactionRepository.

(** *** [transactionRepository] of [backend/infrastructure] *)

Module transactionRepository.
Section WithEnv.
Context (env : Env).

(** [r.db.WithContext(ctx).Create(transaction).Error]. The [Base] of
    [backend/domain/entity] declares the id as
    [gorm:"type:uuid;primary_key"], with no default: the row is inserted
    under the id it comes with, [uuid.Nil] when the caller has set none,
    and the insert fails when a row is stored under that id. The check on
    the type is the one of the schema. No card is read or written. *)
Definition Create (transaction : Transaction.t) : M unit :=
  guard_op env OpTxInsert ;;;
  d <- get_db ;;
  if bool_decide (Transaction.ID transaction
                  ∈ Transaction.ID <$> transactions d)
  then fail ErrStorage
  else if negb (type_check (Transaction.Type_ transaction))
  then fail ErrStorage
  else put_db (set_transactions (transactions d ++ [transaction]) d).
End WithEnv.
End transactionRepository.

(** *** [categoryRepository] *)

Module categoryRepository.
Section WithEnv.
Context (env : Env).

Definition GetByID (id : UUID) : M (option Category.t) :=
  on_error (guard_op env (OpCategoryGetByID id))
           (Some ("Failed to get category by ID", KId id)) same ;;;
  d <- get_db ;;
  ret (categories d !! id).

(** The [ORDER BY] of the query only permutes the rows. *)
Definition GetByUserID (userID : UUID) : M (list Category.t) :=
  on_error (guard_op env (OpCategoryGetByUserID userID))
           (Some ("Failed to get categories by user ID", KId userID)) same ;;;
  d <- get_db ;;
  ret (filter (fun c => Category.UserID c = userID)
              (map_to_list (categories d)).*2).

Definition Create (category : Category.t) : M unit :=
  on_error (
    guard_op env OpCategoryCreate ;;;
    d <- get_db ;;
    match categories d !! Category.ID category with
    | Some _ => fail ErrStorage          (* primary key *)
    | None => put_db (set_categories
                        (<[Category.ID category := category]> (categories d)) d)
    end)
    (Some ("Failed to create category", KId (Category.UserID category))) same.

(** The [for] loop of [checkCategoryCircularReference]. *)
Fixpoint checkLoop (fuel : nat) (categoryID parentID : UUID)
    (visited : gset UUID) (current : UUID) : MF unit :=
  match fuel with
  | O => fun _ => None
  | S fuel =>
      if bool_decide (current = categoryID) then
        liftF (logw LError "Circular reference detected in category hierarchy"
                    (KId categoryID) ;;;
               fail ErrCircularDetected)
      else
        let visited := {[current]} ∪ visited in
        fun w =>
          if fault env (OpCategoryFirst current) then Some (Err ErrStorage, w)
          else match categories (db w) !! current with
               | None => Some (Ok tt, w)              (* ErrRecordNotFound: break *)
               | Some parent =>
                   match Category.ParentID parent with
                   | None => Some (Ok tt, w)
                   | Some p =>
                       if bool_decide (p ∈ visited) then
                         liftF (logw LError
                                  "Circular reference detected in existing category hierarchy"
                                  (KId categoryID) ;;;
                                fail ErrCircularExisting) w
                       else checkLoop fuel categoryID parentID visited p w
                   end
               end
  end.

Definition checkCategoryCircularReference (fuel : nat)
    (categoryID parentID : UUID) : MF unit :=
  checkLoop fuel categoryID parentID ∅ parentID.

(** [Model(category).Updates(map{name, parent_id, type})] *)
Definition updated_row (new old : Category.t) : Category.t :=
  Category.mk (Category.ID old) (Category.Name new) (Category.ParentID new)
              (Category.UserID old) (Category.Type_ new).

Definition Update (fuel : nat) (category : Category.t) : MF unit :=
  bindF
    (match Category.ParentID category with
     | None => liftF (ret tt)
     | Some parentID =>
         bindF
           (liftF (
              parent <- on_error (
                  guard_op env (OpCategoryFirst parentID) ;;;
                  d <- get_db ;;
                  match categories d !! parentID with
                  | Some p => ret p
                  | None => fail ErrRecordNotFound
                  end)
                  (Some ("Failed to get parent category", KId parentID)) same ;;
              if bool_decide (Category.UserID parent = Category.UserID category)
              then ret tt
              else logw LError "Attempted to set parent category from different user"
                        (KId (Category.UserID category)) ;;;
                   fail ErrParentOtherUser))
           (fun _ => checkCategoryCircularReference fuel
                       (Category.ID category) parentID)
     end)
    (fun _ => liftF (
       on_error (guard_op env (OpCategoryUpdate (Category.ID category)))
                (Some ("Failed to update category", KId (Category.ID category))) same ;;;
       d <- get_db ;;
       match categories d !! Category.ID category with
       | Some old =>
           put_db (set_categories
                     (<[Category.ID category := updated_row category old]>
                        (categories d)) d)
       | None => fail ErrRecordNotFound
       end)).
End WithEnv.
End categoryRepository.

(** ** The ledger: [transactionService] of [backend/app] *)

Module App_transactionService.
Section WithEnv.
Context (env : Env).

Definition validateTransaction (transaction : Transaction.t) (card : Card.t)
    : M unit :=
  if Transaction.Amount transaction <=? 0 then
    fail (Detail ErrInvalidTransaction "amount must be positive")
  else if negb (type_check (Transaction.Type_ transaction)) then
    fail (Detail ErrInvalidTransaction "invalid transaction type")
  else if negb (bool_decide (Transaction.CurrencyCode transaction
                             = Card.CurrencyCode card)) then
    fail (Detail ErrInvalidTransaction
                 "transaction currency must match card currency")
  else if bool_decide (Transaction.Description transaction = "") then
    fail (Detail ErrInvalidTransaction "description is required")
  else ret tt.

(** The block "Verify category if provided", the same in
    [CreateTransaction] and [UpdateTransaction]. *)
Definition verifyCategory (userID : UUID) (transaction : Transaction.t)
    : M unit :=
  match Transaction.CategoryID transaction with
  | None => ret tt
  | Some cid =>
      category <- on_error (categoryRepository.GetByID env cid)
                    (Some ("Failed to get category", KId cid))
                    (Wrap "failed to verify category") ;;
      match category with
      | None => fail ErrCategoryNotFoundText
      | Some category =>
          if negb (bool_decide (Category.UserID category = userID)) then
            fail ErrUnauthorized
          else if negb (bool_decide (Category.Type_ category
                                     = Transaction.Type_ transaction)) then
            fail ErrCategoryTypeMismatch
          else ret tt
      end
  end.

Definition CreateTransaction (userID : UUID) (transaction : Transaction.t)
    : M unit :=
  (* Verify card exists and belongs to user *)
  card <- on_error (cardRepository.GetByID env (Transaction.CardID transaction))
            (Some ("Failed to get card for transaction",
                   KId (Transaction.CardID transaction)))
            (Wrap "failed to verify card") ;;
  match card with
  | None => fail ErrCardNotFound
  | Some card =>
      if negb (bool_decide (Card.UserID card = userID)) then fail ErrUnauthorized
      else
        (* Verify category if provided *)
        verifyCategory userID transaction ;;;
        (* Validate transaction data *)
        validateTransaction transaction card ;;;
        (* Set transaction properties *)
        let transaction := Transaction.with_UserID userID transaction in
        let transaction :=
          if IsZero (Transaction.TransactionDate transaction)
          then Transaction.with_TransactionDate (now env) transaction
          else transaction in
        (* Calculate balance after transaction *)
        let newBalance :=
          apply_delta (Transaction.Type_ transaction)
                      (Transaction.Amount transaction) (Card.Balance card) in
        (* Check if new balance would exceed credit limit *)
        if newBalance <? Int64.neg (Card.CreditLimit card) then
          fail ErrInsufficientFunds
        else
          let transaction := Transaction.with_BalanceAfter newBalance transaction in
          on_error (App_transactionRepository.Create env transaction)
            (Some ("Failed to create transaction", KId userID))
            (Wrap "failed to create transaction")
  end.

Definition UpdateTransaction (userID : UUID) (transaction : Transaction.t)
    : M unit :=
  (* Get existing transaction *)
  existingTx <- on_error
                  (App_transactionRepository.GetByID env (Transaction.ID transaction))
                  (Some ("Failed to get transaction for update",
                         KId (Transaction.ID transaction)))
                  (Wrap "failed to get transaction") ;;
  match existingTx with
  | None => fail ErrTransactionNotFound
  | Some existingTx =>
      (* Verify ownership *)
      if negb (bool_decide (Transaction.UserID existingTx = userID)) then
        fail ErrUnauthorized
      (* Prevent modification of Monobank transactions *)
      else if negb (bool_decide (Transaction.MonobankID existingTx = "")) then
        fail ErrCannotModifyMonobank
      else
        (* Get card *)
        card <- on_error (cardRepository.GetByID env (Transaction.CardID existingTx))
                  (Some ("Failed to get card", KId (Transaction.CardID existingTx)))
                  (Wrap "failed to get card") ;;
        match card with
        | None => fail ErrCardNotFound
        | Some card =>
            verifyCategory userID transaction ;;;
            validateTransaction transaction card ;;;
            (* Preserve unchangeable fields *)
            let transaction :=
              Transaction.with_MonobankID ""
                (Transaction.with_CardID (Transaction.CardID existingTx)
                   (Transaction.with_UserID (Transaction.UserID existingTx)
                      transaction)) in
            on_error (App_transactionRepository.Update env transaction)
              (Some ("Failed to update transaction", KId (Transaction.ID transaction)))
              (Wrap "failed to update transaction")
        end
  end.

Definition DeleteTransaction (userID transactionID : UUID) : M unit :=
  transaction <- on_error (App_transactionRepository.GetByID env transactionID)
                   (Some ("Failed to get transaction for deletion", KId transactionID))
                   (Wrap "failed to get transaction") ;;
  match transaction with
  | None => fail ErrTransactionNotFound
  | Some transaction =>
      if negb (bool_decide (Transaction.UserID transaction = userID)) then
        fail ErrUnauthorized
      else if negb (bool_decide (Transaction.MonobankID transaction = "")) then
        fail ErrCannotDeleteMonobank
      else
        on_error (App_transactionRepository.Delete env transactionID)
          (Some ("Failed to delete transaction", KId transactionID))
          (Wrap "failed to delete transaction")
  end.
End WithEnv.
End App_transactionService.

(** ** Provider synchronisation *)

(** The body of a webhook call after [json.Unmarshal]: the envelope, and
    what decoding its [data] as a statement gives. *)
Inductive WebhookData :=
  | DataMalformed
  | DataStatement (account : string) (statementItem : monobankTransaction.t).

Inductive WebhookPayload :=
  | PayloadMalformed
  | Envelope (type : string) (data : WebhookData).

Definition abs (n : Z) : Z :=
  if n <? 0 then Int64.neg n else n.

Definition convertMonobankTransaction (monoTx : monobankTransaction.t)
    (card : Card.t) : Transaction.t :=
  let txType := if monobankTransaction.Amount monoTx >? 0
                then "income" else "expense" in
  Transaction.mk uuid_Nil (Card.ID card) (Card.UserID card) None
    (abs (monobankTransaction.Amount monoTx))
    (abs (monobankTransaction.OperationAmount monoTx))
    (monobankTransaction.CurrencyCode monoTx) 0 txType
    (monobankTransaction.Description monoTx) (monobankTransaction.MCC monoTx)
    (monobankTransaction.CommissionRate monoTx)
    (monobankTransaction.CashbackAmount monoTx)
    (monobankTransaction.Balance monoTx) (monobankTransaction.Hold monoTx)
    (monobankTransaction.Time monoTx) (monobankTransaction.ID monoTx)
    (monobankTransaction.Comment monoTx).

Module monobankIntegrationRepository.
Section WithEnv.
Context (env : Env).

Definition GetByUserID (userID : UUID) : M (option MonobankIntegration.t) :=
  on_error (guard_op env (OpIntegrationGetByUserID userID))
           (Some ("Failed to get monobank integration", KId userID)) same ;;;
  d <- get_db ;;
  ret (integrations d !! userID).
End WithEnv.
End monobankIntegrationRepository.

(** *** [MonobankService] (the service over [cashone/domain/errors]) *)

Module MonobankService.
Section WithEnv.
Context (env : Env).
(** [s.txRepo.Create]: the service holds the repository as an interface. *)
Context (txRepo_Create : Transaction.t → M unit).

(** The loop "Process transactions" of [syncCardTransactions]. *)
Fixpoint processTransactions (card : Card.t)
    (transactions : list monobankTransaction.t) : M unit :=
  match transactions with
  | [] => ret tt
  | monoTx :: rest =>
      (existing <- swallow
                     (App_transactionRepository.GetByMonobankID env
                        (monobankTransaction.ID monoTx))
                     "Failed to check existing transaction"
                     (KStr (monobankTransaction.ID monoTx)) ;;
       match existing with
       | None => ret tt                      (* lookup failed: continue *)
       | Some (Some _) => ret tt             (* already exists: continue *)
       | Some None =>
           swallow (txRepo_Create (convertMonobankTransaction monoTx card))
                   "Failed to create transaction"
                   (KStr (monobankTransaction.ID monoTx)) ;;;
           ret tt
       end) ;;;
      processTransactions card rest
  end.

Definition syncCardTransactions (card : Card.t) (token : string) : M unit :=
  (* Get last transaction time *)
  lastTx <- on_error
              (App_transactionRepository.GetByCardID env (Card.ID card) 1 0)
              None
              (fun _ => Detail ErrDatabaseOperation "failed to get last transaction") ;;
  let from := match lastTx with
              | x :: _ => Transaction.TransactionDate x
              | [] => one_month_ago env
              end in
  (* Get transactions from Monobank API *)
  match provider env token (Card.MonobankAccountID card) from with
  | RequestInvalid => fail (Detail ErrInternal "failed to create request")
  | TransportError => fail (Detail ErrMonobankAPIError "failed to make request")
  | Response status body =>
      if bool_decide (status = 429) then fail ErrMonobankRateLimit
      else if bool_decide (status = 401) then fail ErrMonobankTokenInvalid
      else if negb (bool_decide (status = 200)) then
        fail (Detail ErrMonobankAPIError "status")
      else match body with
           | Undecodable =>
               fail (Detail ErrMonobankAPIError "failed to decode response")
           | Statement transactions => processTransactions card transactions
           end
  end.

(** The loop "Sync transactions for each card" of [SyncUserData]. *)
Fixpoint syncCards (cards : list Card.t) (token : string) : M unit :=
  match cards with
  | [] => ret tt
  | card :: rest =>
      (if negb (Card.IsManual card)
          && negb (bool_decide (Card.MonobankAccountID card = ""))
       then swallow (syncCardTransactions card token)
                    "Failed to sync card transactions" (KId (Card.ID card)) ;;;
            ret tt                           (* continue either way *)
       else ret tt) ;;;
      syncCards rest token
  end.

Definition SyncUserData (userID : UUID) : M unit :=
  (* Get integration *)
  integration <- on_error (monobankIntegrationRepository.GetByUserID env userID)
                   None (Caused ErrDatabaseOperation) ;;
  match integration with
  | None => fail ErrMonobankIntegrationNotFound
  | Some integration =>
      (* Get cards *)
      cards <- on_error (cardRepository.GetByUserID env userID)
                 None (Caused ErrDatabaseOperation) ;;
      syncCards cards (MonobankIntegration.Token integration)
  end.

Definition HandleWebhook (data : WebhookPayload) : M unit :=
  match data with
  | PayloadMalformed =>
      fail (Detail ErrInvalidRequest "failed to parse webhook data")
  | Envelope type raw =>
      if bool_decide (type = "StatementItem") then
        match raw with
        | DataMalformed =>
            fail (Detail ErrInvalidRequest "failed to parse statement data")
        | DataStatement account statement =>
            (* Get card by account ID *)
            card <- on_error (cardRepository.GetByMonobankAccountID env account)
                      None (Caused ErrDatabaseOperation) ;;
            match card with
            | None => fail (Detail ErrCardNotFound account)
            | Some card =>
                (* Create transaction *)
                on_error (txRepo_Create (convertMonobankTransaction statement card))
                         None (Caused ErrDatabaseOperation)
            end
        end
      else
        logw LWarn "Unknown webhook type" (KStr type)
  end.
End WithEnv.
End MonobankService.

(** *** [monobankService] of [backend/app] *)

Module App_monobankService.
Section WithEnv.
Context (env : Env).

Definition HandleWebhook (data : WebhookPayload) : M unit :=
  match data with
  | PayloadMalformed =>
      logw LError "Failed to unmarshal webhook data" KNone ;;;
      fail (Wrap "failed to parse webhook data" ErrJSON)
  | Envelope type raw =>
      if bool_decide (type = "StatementItem") then
        match raw with
        | DataMalformed =>
            logw LError "Failed to unmarshal statement data" KNone ;;;
            fail (Wrap "failed to parse statement data" ErrJSON)
        | DataStatement account statement =>
            card <- on_error (cardRepository.GetByMonobankAccountID env account)
                      (Some ("Failed to get card by account ID", KStr account))
                      (Wrap "failed to get card") ;;
            match card with
            | None => fail (ErrCardNotFoundForAccount account)
            | Some card =>
                on_error (App_transactionRepository.Create env
                            (convertMonobankTransaction statement card))
                         (Some ("Failed to create transaction from webhook",
                                KStr account))
                         (Wrap "failed to create transaction")
            end
        end
      else
        logw LWarn "Unknown webhook type" (KStr type) ;;;
        fail (ErrUnknownWebhookType type)
  end.
End WithEnv.
End App_monobankService.

(** ** The category tree: [categoryService] *)

Module userRepository.
Section WithEnv.
Context (env : Env).

(** Only the presence of the user is ever looked at. *)
Definition GetByID (id : UUID) : M (option UUID) :=
  on_error (guard_op env (OpUserGetByID id))
           (Some ("Failed to get user by ID", KId id)) same ;;;
  d <- get_db ;;
  ret (if bool_decide (id ∈ users d) then Some id else None).
End WithEnv.
End userRepository.

Module categoryService.
Section WithEnv.
Context (env : Env).

Definition validateCategory (category : Category.t) : M unit :=
  if bool_decide (Category.UserID category = uuid_Nil)
     || bool_decide (Category.Name category = "")
     || bool_decide (Category.Type_ category = "")
  then fail (Detail ErrValidation "validation errors")
  else ret tt.

(** [uuid.New()]: an identifier no category has. *)
Definition fresh_category_id (m : gmap UUID Category.t) : UUID :=
  N.succ (foldr N.max 0%N (map_to_list m).*1).

(** The loop over [existingCategories] of [Create]. *)
Fixpoint nameTaken (name : string) (existingCategories : list Category.t)
    : bool :=
  match existingCategories with
  | [] => false
  | existingCategory :: rest =>
      if bool_decide (Category.Name existingCategory = name) then true
      else nameTaken name rest
  end.

Definition Create (category : Category.t) : M unit :=
  (* Validate category data *)
  on_error (validateCategory category) None (Caused ErrInvalidCategoryData) ;;;
  (* Check if user exists *)
  user <- on_error (userRepository.GetByID env (Category.UserID category))
            None (Caused ErrDatabaseOperation) ;;
  match user with
  | None => fail ErrUserNotFound
  | Some _ =>
      (* Check if category with this name already exists for the user *)
      existingCategories <-
        on_error (categoryRepository.GetByUserID env (Category.UserID category))
          None (Caused ErrDatabaseOperation) ;;
      if nameTaken (Category.Name category) existingCategories then
        fail ErrCategoryAlreadyExists
      else
        (* Generate UUID if not provided *)
        d <- get_db ;;
        let category :=
          if bool_decide (Category.ID category = uuid_Nil)
          then Category.with_ID (fresh_category_id (categories d)) category
          else category in
        (* Create category *)
        on_error (categoryRepository.Create env category)
          None (Caused ErrDatabaseOperation) ;;;
        logw LInfo "Category created successfully" (KId (Category.ID category))
  end.

(** The loop [for current.ParentID != nil] of
    [wouldCreateCircularReference]. *)
Fixpoint ancestorLoop (fuel : nat) (categoryID : UUID) (current : Category.t)
    : MF bool :=
  match fuel with
  | O => fun _ => None
  | S fuel =>
      match Category.ParentID current with
      | None => liftF (ret false)
      | Some p =>
          if bool_decide (p = categoryID) then liftF (ret true)
          else fun w =>
                 match categoryRepository.GetByID env p w with
                 | (Ok (Some next), w') => ancestorLoop fuel categoryID next w'
                 | (_, w') => Some (Ok false, w')       (* break *)
                 end
      end
  end.

Definition wouldCreateCircularReference (fuel : nat)
    (categoryID newParentID : UUID) : MF bool :=
  (* If the new parent is the same as the category, it's circular *)
  if bool_decide (categoryID = newParentID) then liftF (ret true)
  else fun w =>
         (* Get the potential parent *)
         match categoryRepository.GetByID env newParentID w with
         | (Ok (Some parent), w') => ancestorLoop fuel categoryID parent w'
         | (_, w') => Some (Ok false, w')
         end.

Definition MoveCategory (fuel : nat) (categoryID : UUID)
    (newParentID : option UUID) : MF unit :=
  (* Get category *)
  bindF (liftF (on_error (categoryRepository.GetByID env categoryID)
                         None (Caused ErrDatabaseOperation)))
    (fun category =>
       match category with
       | None => liftF (fail ErrCategoryNotFound)
       | Some category =>
           bindF
             (* If moving to a parent, verify parent exists and belongs to same user *)
             (match newParentID with
              | None => liftF (ret tt)
              | Some newParentID =>
                  bindF (liftF (on_error (categoryRepository.GetByID env newParentID)
                                         None (Caused ErrDatabaseOperation)))
                    (fun parent =>
                       match parent with
                       | None => liftF (fail ErrCategoryNotFound)
                       | Some parent =>
                           if negb (bool_decide (Category.UserID parent
                                                 = Category.UserID category))
                           then liftF (fail ErrUnauthorized)
                           else
                             (* Prevent circular references *)
                             bindF (wouldCreateCircularReference fuel
                                      categoryID newParentID)
                               (fun circular =>
                                  if circular : bool
                                  then liftF (fail ErrInvalidCategoryData)
                                  else liftF (ret tt))
                       end)
              end)
             (fun _ =>
                (* Update category's parent *)
                let category := Category.with_ParentID newParentID category in
                fun w =>
                  match categoryRepository.Update env fuel category w with
                  | Some (Err e, w') => Some (Err (Caused ErrDatabaseOperation e), w')
                  | r => r
                  end)
       end).
End WithEnv.
End categoryService.

(** * Further services *)

From Stdlib Require Import Sorted.

(** ** Further statements sent to the database *)

Inductive StorageOp' :=
  | OpCategoryClearParent (parent : UUID)
  | OpCategoryDelete (id : UUID)
  | OpCardFindProvided (u : UUID)
  | OpTxDeleteByCardID (card : UUID)
  | OpCardDeleteProvided (u : UUID)
  | OpIntegrationDelete (u : UUID)
  | OpCardDelete (id : UUID)
  | OpTxGetByUserID (u : UUID)
  | OpCardCreate
  | OpCardUpdate (id : UUID).

(** [fault'] says which of them fail, as [fault] does for the others. *)
Definition guard_op' (fault' : StorageOp' → bool) (op : StorageOp') : M unit :=
  if fault' op then fail ErrStorage else ret tt.

(** ** The ledger: listing transactions *)

Module App_transactionQueries.
Section WithEnv.
Context (env : Env) (fault' : StorageOp' → bool).

(** [transactionRepository.GetByUserID] *)
Definition GetByUserID (userID : UUID) (limit offset : Z)
    : M (list Transaction.t) :=
  on_error (guard_op' fault' (OpTxGetByUserID userID))
           (Some ("Failed to get transactions by user ID", KId userID)) same ;;;
  d <- get_db ;;
  ret (page limit offset
         (order_by_date_desc
            (filter (fun x => Transaction.UserID x = userID) (transactions d)))).

Definition GetCardTransactions (userID cardID : UUID) (limit offset : Z)
    : M (list Transaction.t) :=
  (* Verify card ownership *)
  card <- on_error (cardRepository.GetByID env cardID)
            (Some ("Failed to get card", KId cardID))
            (Wrap "failed to verify card") ;;
  match card with
  | None => fail ErrCardNotFound
  | Some card =>
      if negb (bool_decide (Card.UserID card = userID)) then fail ErrUnauthorized
      else
        (* Get transactions *)
        on_error (App_transactionRepository.GetByCardID env cardID limit offset)
          (Some ("Failed to get card transactions", KId cardID))
          (Wrap "failed to get transactions")
  end.

Definition GetUserTransactions (userID : UUID) (limit offset : Z)
    : M (list Transaction.t) :=
  on_error (GetByUserID userID limit offset)
           (Some ("Failed to get user transactions", KId userID))
           (Wrap "failed to get transactions").
End WithEnv.
End App_transactionQueries.


(** ** Editing and deleting categories *)

Module categoryRepositoryDelete.
Section WithEnv.
Context (env : Env) (fault' : StorageOp' → bool).

(** [Where("parent_id = ?", id).Update("parent_id", nil)] *)
Definition clear_parent (id : UUID) (c : Category.t) : Category.t :=
  if bool_decide (Category.ParentID c = Some id)
  then Category.with_ParentID None c else c.

Definition Delete (id : UUID) : M unit :=
  Transaction_ env (
    (* Update child categories to remove parent reference *)
    on_error (guard_op' fault' (OpCategoryClearParent id) ;;;
              d <- get_db ;;
              put_db (set_categories (clear_parent id <$> categories d) d))
             (Some ("Failed to update child categories", KId id)) same ;;;
    (* Delete the category *)
    on_error (guard_op' fault' (OpCategoryDelete id))
             (Some ("Failed to delete category", KId id)) same ;;;
    d <- get_db ;;
    match categories d !! id with
    | Some _ => put_db (set_categories (delete id (categories d)) d)
    | None => fail ErrRecordNotFound          (* RowsAffected == 0 *)
    end).
End WithEnv.
End categoryRepositoryDelete.

Module categoryServiceEdit.
Section WithEnv.
Context (env : Env) (fault' : StorageOp' → bool).

Definition Update (fuel : nat) (category : Category.t) : MF unit :=
  (* Validate category data *)
  bindF (liftF (on_error (categoryService.validateCategory category)
                         None (Caused ErrInvalidCategoryData)))
    (fun _ =>
       (* Check if category exists *)
       bindF (liftF (on_error
                       (categoryRepository.GetByID env (Category.ID category))
                       None (Caused ErrDatabaseOperation)))
         (fun existingCategory =>
            match existingCategory with
            | None => liftF (fail ErrCategoryNotFound)
            | Some existingCategory =>
                (* Check if user owns the category *)
                if negb (bool_decide (Category.UserID existingCategory
                                      = Category.UserID category))
                then liftF (fail ErrUnauthorized)
                else
                  (* Update category *)
                  fun w =>
                    match categoryRepository.Update env fuel category w with
                    | Some (Err e, w') =>
                        Some (Err (Caused ErrDatabaseOperation e), w')
                    | Some (Ok _, w') =>
                        liftF (logw LInfo "Category updated successfully"
                                    (KId (Category.ID category))) w'
                    | None => None
                    end
            end)).

Definition Delete (id : UUID) : M unit :=
  (* Check if category exists *)
  existingCategory <- on_error (categoryRepository.GetByID env id)
                        None (Caused ErrDatabaseOperation) ;;
  match existingCategory with
  | None => fail ErrCategoryNotFound
  | Some _ =>
      (* Delete category *)
      on_error (categoryRepositoryDelete.Delete env fault' id)
               None (Caused ErrDatabaseOperation) ;;;
      logw LInfo "Category deleted successfully" (KId id)
  end.
End WithEnv.
End categoryServiceEdit.

(** ** Removing cards and the provider's data *)

Definition set_integrations (i : gmap UUID MonobankIntegration.t) (d : DB) : DB :=
  mkDB (users d) (cards d) (transactions d) (categories d) i.

(** [tx.Where("card_id = ?", id).Delete(&entity.Transaction{})] *)
Definition tx_DeleteByCardID (fault' : StorageOp' → bool) (cardID : UUID)
    : M unit :=
  guard_op' fault' (OpTxDeleteByCardID cardID) ;;;
  d <- get_db ;;
  put_db (set_transactions
            (filter (fun x => Transaction.CardID x ≠ cardID) (transactions d)) d).

Module cardRepositoryDelete.
Section WithEnv.
Context (env : Env) (fault' : StorageOp' → bool).

Definition Delete (id : UUID) : M unit :=
  (* Start a transaction to handle cascading deletes *)
  Transaction_ env (
    (* First delete associated transactions *)
    on_error (tx_DeleteByCardID fault' id)
             (Some ("Failed to delete card's transactions", KId id)) same ;;;
    (* Then delete the card *)
    on_error (guard_op' fault' (OpCardDelete id))
             (Some ("Failed to delete card", KId id)) same ;;;
    d <- get_db ;;
    match cards d !! id with
    | Some _ => put_db (set_cards (delete id (cards d)) d)
    | None => fail ErrRecordNotFound          (* RowsAffected == 0 *)
    end).
End WithEnv.
End cardRepositoryDelete.

Module cardService.
Section WithEnv.
Context (env : Env) (fault' : StorageOp' → bool).

Definition Delete (id : UUID) : M unit :=
  (* Check if card exists *)
  existingCard <- on_error (cardRepository.GetByID env id)
                    None (Caused ErrDatabaseOperation) ;;
  match existingCard with
  | None => fail ErrCardNotFound
  | Some _ =>
      (* Delete card *)
      on_error (cardRepositoryDelete.Delete env fault' id)
               None (Caused ErrDatabaseOperation) ;;;
      logw LInfo "Card deleted successfully" (KId id)
  end.
End WithEnv.
End cardService.

Module monobankIntegrationRepositoryDelete.
Section WithEnv.
Context (env : Env) (fault' : StorageOp' → bool).

(** [user_id = ? AND is_manual = false] *)
Definition provided (userID : UUID) (c : Card.t) : Prop :=
  Card.UserID c = userID ∧ Card.IsManual c = false.

(** The loop "Delete all transactions for these cards". *)
Fixpoint deleteTransactions (cards : list Card.t) : M unit :=
  match cards with
  | [] => ret tt
  | card :: rest =>
      on_error (tx_DeleteByCardID fault' (Card.ID card))
               (Some ("Failed to delete card transactions", KId (Card.ID card)))
               same ;;;
      deleteTransactions rest
  end.

Definition Delete (userID : UUID) : M unit :=
  Transaction_ env (
    (* First, get all cards associated with this integration *)
    cards' <- on_error (guard_op' fault' (OpCardFindProvided userID) ;;;
                       d <- get_db ;;
                       ret (filter (provided userID) (map_to_list (cards d)).*2))
               (Some ("Failed to get monobank cards", KId userID)) same ;;
    (* Delete all transactions for these cards *)
    deleteTransactions cards' ;;;
    (* Delete the cards *)
    on_error (guard_op' fault' (OpCardDeleteProvided userID) ;;;
              d <- get_db ;;
              put_db (set_cards
                        (filter (fun kc => ¬ provided userID kc.2) (cards d)) d))
             (Some ("Failed to delete monobank cards", KId userID)) same ;;;
    (* Finally, delete the integration *)
    on_error (guard_op' fault' (OpIntegrationDelete userID))
             (Some ("Failed to delete monobank integration", KId userID)) same ;;;
    d <- get_db ;;
    match integrations d !! userID with
    | Some _ => put_db (set_integrations (delete userID (integrations d)) d)
    | None => fail ErrRecordNotFound          (* RowsAffected == 0 *)
    end).
End WithEnv.
End monobankIntegrationRepositoryDelete.

Module MonobankServiceDisconnect.
Section WithEnv.
Context (env : Env) (fault' : StorageOp' → bool).

Definition Disconnect (userID : UUID) : M unit :=
  (* Check if integration exists *)
  integration <- on_error (monobankIntegrationRepository.GetByUserID env userID)
                   None (Caused ErrDatabaseOperation) ;;
  match integration with
  | None => fail ErrMonobankIntegrationNotFound
  | Some _ => monobankIntegrationRepositoryDelete.Delete env fault' userID
  end.
End WithEnv.
End MonobankServiceDisconnect.

(** ** Paginated answers *)

Module response.
Record Response (A : Type) := mkResponse {
  Success : bool;
  Data : A
}.
Arguments mkResponse {A}.
Arguments Success {A}.
Arguments Data {A}.

Record PaginatedResponse (A : Type) := mkPaginatedResponse {
  Items : A;
  TotalItems : Z;
  Page : Z;
  PageSize : Z;
  TotalPages : Z
}.
Arguments mkPaginatedResponse {A}.
Arguments Items {A}.
Arguments TotalItems {A}.
Arguments Page {A}.
Arguments PageSize {A}.
Arguments TotalPages {A}.

Definition NewResponse {A} (data : A) : Response A :=
  mkResponse true data.

(** [int] has 64 bits where the service is built; [/] truncates towards
    zero and panics on a zero divisor ([None]). *)
Definition NewPaginatedResponse {A} (items : A)
    (totalItems page pageSize : Z) : option (Response (PaginatedResponse A)) :=
  if bool_decide (pageSize = 0) then None
  else
    let totalPages :=
      Int64.wrap (Z.quot (Int64.sub (Int64.add totalItems pageSize) 1)
                         pageSize) in
    Some (NewResponse
            (mkPaginatedResponse items totalItems page pageSize totalPages)).
End response.

(** ** [categoryService] of [backend/app] *)

Module App_categoryService.
Section WithEnv.
Context (env : Env) (fault' : StorageOp' → bool).

Definition with_UserID (u : UUID) (c : Category.t) : Category.t :=
  Category.mk (Category.ID c) (Category.Name c) (Category.ParentID c) u
              (Category.Type_ c).

Definition validateCategoryData (category : Category.t) : M unit :=
  if bool_decide (Category.Name category = "") then
    fail (Detail ErrInvalidCategoryData "name is required")
  else if negb (bool_decide (Category.Type_ category = "expense"))
          && negb (bool_decide (Category.Type_ category = "income"))
          && negb (bool_decide (Category.Type_ category = "transfer")) then
    fail (Detail ErrInvalidCategoryData "invalid category type")
  else ret tt.

(** [categoryRepo.Create] over the entity of [backend/app], whose id has
    [default:gen_random_uuid()]: a row that comes without an id gets an
    unused one. *)
Definition categoryRepo_Create (category : Category.t) : M unit :=
  d <- get_db ;;
  categoryRepository.Create env
    (if bool_decide (Category.ID category = uuid_Nil)
     then Category.with_ID
            (categoryService.fresh_category_id (categories d)) category
     else category).

(** "verify it exists and belongs to the user", with the type of the
    child. *)
Definition verifyParent (userID : UUID) (category : Category.t)
    (parentID : UUID) : M unit :=
  parent <- on_error (categoryRepository.GetByID env parentID)
              (Some ("Failed to get parent category", KId parentID))
              (Wrap "failed to verify parent category") ;;
  match parent with
  | None => fail ErrCategoryNotFound
  | Some parent =>
      if negb (bool_decide (Category.UserID parent = userID)) then
        fail ErrUnauthorized
      else if negb (bool_decide (Category.Type_ parent
                                 = Category.Type_ category)) then
        fail (Detail ErrInvalidCategoryData
                     "parent and child category types must match")
      else ret tt
  end.

Definition CreateCategory (userID : UUID) (category : Category.t) : M unit :=
  (* Verify user exists *)
  user <- on_error (userRepository.GetByID env userID)
            (Some ("Failed to get user for category creation", KId userID))
            (Wrap "failed to verify user") ;;
  match user with
  | None => fail ErrUserNotFound
  | Some _ =>
      (* Validate category data *)
      validateCategoryData category ;;;
      (* Set category properties *)
      let category := with_UserID userID category in
      (* If parent category is specified, verify it exists and belongs to
         the user *)
      match Category.ParentID category with
      | None => ret tt
      | Some parentID => verifyParent userID category parentID
      end ;;;
      (* Create the category *)
      on_error (categoryRepo_Create category)
               (Some ("Failed to create category", KId userID))
               (Wrap "failed to create category")
  end.

Definition UpdateCategory (fuel : nat) (userID : UUID)
    (category : Category.t) : MF unit :=
  (* Get existing category *)
  bindF (liftF (on_error
                  (categoryRepository.GetByID env (Category.ID category))
                  (Some ("Failed to get category for update",
                         KId (Category.ID category)))
                  (Wrap "failed to get category")))
    (fun existingCategory =>
       match existingCategory with
       | None => liftF (fail ErrCategoryNotFound)
       | Some existingCategory =>
           (* Verify category ownership *)
           if negb (bool_decide (Category.UserID existingCategory = userID))
           then liftF (fail ErrUnauthorized)
           else
             bindF (liftF (
                 (* Validate category data *)
                 validateCategoryData category ;;;
                 (* If parent category is changing, verify the new parent *)
                 match Category.ParentID category with
                 | Some parentID =>
                     if bool_decide (Category.ParentID existingCategory
                                     = Some parentID)
                     then ret tt
                     else verifyParent userID category parentID
                 | None => ret tt
                 end))
               (fun _ =>
                  (* Preserve unchangeable fields *)
                  let category :=
                    with_UserID (Category.UserID existingCategory) category in
                  (* Update the category *)
                  fun w =>
                    match categoryRepository.Update env fuel category w with
                    | Some (Err e, w') =>
                        Some (Err (Wrap "failed to update category" e),
                              mkWorld (db w')
                                (log w' ++ [mkLog LError
                                              "Failed to update category"
                                              (KId (Category.ID category))]))
                    | r => r
                    end)
       end).

Definition DeleteCategory (userID categoryID : UUID) : M unit :=
  (* Get existing category *)
  category <- on_error (categoryRepository.GetByID env categoryID)
                (Some ("Failed to get category for deletion", KId categoryID))
                (Wrap "failed to get category") ;;
  match category with
  | None => fail ErrCategoryNotFound
  | Some category =>
      (* Verify category ownership *)
      if negb (bool_decide (Category.UserID category = userID)) then
        fail ErrUnauthorized
      else
        (* Delete the category *)
        on_error (categoryRepositoryDelete.Delete env fault' categoryID)
                 (Some ("Failed to delete category", KId categoryID))
                 (Wrap "failed to delete category")
  end.
End WithEnv.
End App_categoryService.

(** ** [cardService] of [backend/app] *)

Module App_cardService.

(** The sentinels of this service that the layers below do not have, beside
    the errors of those layers. *)
Inductive CardError :=
  | ErrMonobankCard                         (* cannot modify monobank card manually *)
  | ErrInvalidCardData (detail : string)
  | Below (e : Error).

Inductive CardRes :=
  | Done
  | Failed (e : CardError).

(** [if err != nil { return err }] around a call of the layers below. *)
Definition run {A} (m : M A) (k : A → World → CardRes * World)
    : World → CardRes * World :=
  fun w => match m w with
           | (Ok a, w') => k a w'
           | (Err e, w') => (Failed (Below e), w')
           end.

Section WithEnv.
Context (env : Env) (fault' : StorageOp' → bool).

Definition fresh_card_id (m : gmap UUID Card.t) : UUID :=
  N.succ (foldr N.max 0%N (map_to_list m).*1).

Definition with_ID (i : UUID) (c : Card.t) : Card.t :=
  Card.mk i (Card.UserID c) (Card.CardName c) (Card.MaskedPan c)
    (Card.Balance c) (Card.CreditLimit c) (Card.CurrencyCode c)
    (Card.IsManual c) (Card.Type_ c) (Card.MonobankAccountID c).

(** [cardRepository.Create]; the id of the entity of [backend/app] has
    [default:gen_random_uuid()]. *)
Definition cardRepo_Create (card : Card.t) : M unit :=
  on_error (
    guard_op' fault' OpCardCreate ;;;
    d <- get_db ;;
    let card := if bool_decide (Card.ID card = uuid_Nil)
                then with_ID (fresh_card_id (cards d)) card else card in
    match cards d !! Card.ID card with
    | Some _ => fail ErrStorage          (* primary key *)
    | None => put_db (set_cards (<[Card.ID card := card]> (cards d)) d)
    end)
    (Some ("Failed to create card", KId (Card.UserID card))) same.

(** The columns [Updates] writes; id, owner and the manual flag stay. *)
Definition updated_row (new old : Card.t) : Card.t :=
  Card.mk (Card.ID old) (Card.UserID old) (Card.CardName new)
    (Card.MaskedPan new) (Card.Balance new) (Card.CreditLimit new)
    (Card.CurrencyCode new) (Card.IsManual old) (Card.Type_ new)
    (Card.MonobankAccountID new).

(** [cardRepository.Update] *)
Definition cardRepo_Update (card : Card.t) : M unit :=
  on_error (guard_op' fault' (OpCardUpdate (Card.ID card)))
           (Some ("Failed to update card", KId (Card.ID card))) same ;;;
  d <- get_db ;;
  match cards d !! Card.ID card with
  | Some old =>
      put_db (set_cards (<[Card.ID card := updated_row card old]> (cards d)) d)
  | None => fail ErrRecordNotFound          (* RowsAffected == 0 *)
  end.

Definition validateCardData (card : Card.t) : option CardError :=
  if bool_decide (Card.CardName card = "") then
    Some (ErrInvalidCardData "card name is required")
  else if bool_decide (Card.CurrencyCode card <= 0) then
    Some (ErrInvalidCardData "invalid currency code")
  else if bool_decide (Card.Balance card < 0)
          && bool_decide (Card.CreditLimit card = 0) then
    Some (ErrInvalidCardData
            "negative balance not allowed without credit limit")
  else if bool_decide (Card.CreditLimit card < 0) then
    Some (ErrInvalidCardData "credit limit cannot be negative")
  else None.

(** [card.UserID = ...; card.IsManual = true; card.MonobankAccountID = ""] *)
Definition as_manual (userID : UUID) (card : Card.t) : Card.t :=
  Card.mk (Card.ID card) userID (Card.CardName card) (Card.MaskedPan card)
    (Card.Balance card) (Card.CreditLimit card) (Card.CurrencyCode card)
    true (Card.Type_ card) "".

Definition CreateManualCard (userID : UUID) (card : Card.t)
    : World → CardRes * World :=
  (* Verify user exists *)
  run (on_error (userRepository.GetByID env userID)
                (Some ("Failed to get user for card creation", KId userID))
                (Wrap "failed to verify user"))
    (fun user w =>
       match user with
       | None => (Failed (Below ErrUserNotFound), w)
       | Some _ =>
           (* Validate card data *)
           match validateCardData card with
           | Some e => (Failed e, w)
           | None =>
               (* Set card properties; create the card *)
               run (on_error (cardRepo_Create (as_manual userID card))
                             (Some ("Failed to create card", KId userID))
                             (Wrap "failed to create card"))
                   (fun _ w => (Done, w)) w
           end
       end).

Definition UpdateCard (userID : UUID) (card : Card.t)
    : World → CardRes * World :=
  (* Get existing card *)
  run (on_error (cardRepository.GetByID env (Card.ID card))
                (Some ("Failed to get card for update", KId (Card.ID card)))
                (Wrap "failed to get card"))
    (fun existingCard w =>
       match existingCard with
       | None => (Failed (Below ErrCardNotFound), w)
       | Some existingCard =>
           (* Verify card ownership *)
           if negb (bool_decide (Card.UserID existingCard = userID)) then
             (Failed (Below ErrUnauthorized),
              mkWorld (db w)
                (log w ++ [mkLog LWarn "Unauthorized card update attempt"
                                 (KId (Card.ID card))]))
           (* Prevent modification of Monobank cards *)
           else if negb (Card.IsManual existingCard) then
             (Failed ErrMonobankCard, w)
           else
             (* Validate updated card data *)
             match validateCardData card with
             | Some e => (Failed e, w)
             | None =>
                 (* Preserve unchangeable fields; update the card *)
                 run (on_error
                        (cardRepo_Update
                           (as_manual (Card.UserID existingCard) card))
                        (Some ("Failed to update card", KId (Card.ID card)))
                        (Wrap "failed to update card"))
                     (fun _ w => (Done, w)) w
             end
       end).

Definition DeleteCard (userID cardID : UUID) : World → CardRes * World :=
  (* Get existing card *)
  run (on_error (cardRepository.GetByID env cardID)
                (Some ("Failed to get card for deletion", KId cardID))
                (Wrap "failed to get card"))
    (fun card w =>
       match card with
       | None => (Failed (Below ErrCardNotFound), w)
       | Some card =>
           (* Verify card ownership *)
           if negb (bool_decide (Card.UserID card = userID)) then
             (Failed (Below ErrUnauthorized),
              mkWorld (db w)
                (log w ++ [mkLog LWarn "Unauthorized card deletion attempt"
                                 (KId cardID)]))
           (* Prevent deletion of Monobank cards *)
           else if negb (Card.IsManual card) then
             (Failed ErrMonobankCard, w)
           else
             (* Delete the card *)
             run (on_error (cardRepositoryDelete.Delete env fault' cardID)
                           (Some ("Failed to delete card", KId cardID))
                           (Wrap "failed to delete card"))
                 (fun _ w => (Done, w)) w
       end).
End WithEnv.
End App_cardService.

(** * Vocabulary of the statements *)

(** ** Computations *)

(** [keeps_db m]: whatever [m] returns, the database is as before.
    [quiet m]: when [m] succeeds, nothing at all changed, log included.
    [atomic m]: when [m] fails, the database is as before. *)
Definition keeps_db {A} (m : M A) : Prop :=
  ∀ w r w', m w = (r, w') → db w' = db w.
Definition quiet {A} (m : M A) : Prop :=
  ∀ w a w', m w = (Ok a, w') → w' = w.
Definition atomic {A} (m : M A) : Prop :=
  ∀ w e w', m w = (Err e, w') → db w' = db w.

(** [never_fails m]: [m] returns no error, in any world. *)
Definition never_fails {A} (m : M A) : Prop :=
  ∀ w, ∃ a w', m w = (Ok a, w').

(** [keeps_cards m]: whatever [m] returns, the cards are as before. *)
Definition keeps_cards {A} (m : M A) : Prop :=
  ∀ w r w', m w = (r, w') → cards (db w') = cards (db w).

(** ** The ledger *)

(** The row [tx.Create] writes for [x] into a table [l]. *)
Definition inserted_row (l : list Transaction.t) (x : Transaction.t)
    : Transaction.t :=
  if bool_decide (Transaction.ID x = uuid_Nil)
  then Transaction.with_ID (fresh_tx_id l) x else x.

(** The signed delta in the words of the specification. *)
Definition signedDelta (ty : string) (amount : Z) : Z :=
  if bool_decide (ty = "income") then amount
  else if bool_decide (ty = "expense") then - amount
  else if bool_decide (ty = "transfer") then - amount
  else 0.

(** The checks that precede the credit-limit test of [CreateTransaction]:
    the card is read and belongs to the caller, the category (if any) is
    accepted, the transaction is valid. *)
Definition passes_checks (env : Env) (userID : UUID)
    (transaction : Transaction.t) (card : Card.t) (w : World) : Prop :=
  fault env (OpCardGetByID (Transaction.CardID transaction)) = false
  ∧ Card.UserID card = userID
  ∧ App_transactionService.verifyCategory env userID transaction w = (Ok tt, w)
  ∧ App_transactionService.validateTransaction transaction card w = (Ok tt, w).

(** ** The category hierarchy *)

Section Hierarchy.
Context (m : gmap UUID Category.t).

(** The parent a stored category points to. *)
Definition parent_of (x : UUID) : option UUID :=
  m !! x ≫= Category.ParentID.

(** [ancestor a x]: following parents from [x], one step or more, reaches
    [a]; then [x] is a descendant of [a]. *)
Inductive ancestor (a : UUID) : UUID → Prop :=
  | ancestor_parent x : parent_of x = Some a → ancestor a x
  | ancestor_step x p : parent_of x = Some p → ancestor a p → ancestor a x.

(** The parent chain of [x] terminates. *)
Inductive terminates : UUID → Prop :=
  | terminates_root x : parent_of x = None → terminates x
  | terminates_step x p : parent_of x = Some p → terminates p → terminates x.

(** Rows are stored under their own identifier. *)
Definition keyed : Prop :=
  ∀ k c, m !! k = Some c → Category.ID c = k.
End Hierarchy.

(** * Concrete worlds used to run the model *)

Module Examples.
(** Nothing fails; the provider answers with an empty statement. *)
Definition env0 : Env :=
  mkEnv (fun _ => false) (fun _ _ _ => Response 200 (Statement []))
        1700000000 1697321600.

Definition alice : UUID := 1%N.
Definition bob : UUID := 2%N.

(** A manual card of Alice: balance 1000, no credit. *)
Definition cash : Card.t :=
  Card.mk 10%N alice "Cash" "" 1000 0 980 true "" "".
(** A provider card of Alice. *)
Definition black : Card.t :=
  Card.mk 11%N alice "black (*1234)" "*1234" 50000 0 980 false "black" "acc-1".
Definition white : Card.t :=
  Card.mk 12%N alice "white (*5678)" "*5678" 7000 0 980 false "white" "acc-2".

Definition integration : MonobankIntegration.t :=
  MonobankIntegration.mk 20%N alice "client" "token" "" "psf".

Definition db0 : DB :=
  mkDB {[alice; bob]}
       (<[10%N := cash]> (<[11%N := black]> (<[12%N := white]> ∅)))
       [] ∅ (<[alice := integration]> ∅).
Definition w0 : World := mkWorld db0 [].

Definition manual (ty : string) (amount : Z) : Transaction.t :=
  Transaction.mk uuid_Nil 10%N uuid_Nil None amount 0 980 0 ty "lunch"
                 0 0 0 0 false time_zero "" "".
End Examples.

Module ImportedExample.
Import Examples.

(** A transaction imported from the provider on Alice's card. *)
Definition imported : Transaction.t :=
  Transaction.mk 5%N 11%N alice None 2500 2500 980 0 "expense" "Coffee"
                 5814 0 0 47500 false 1699990000 "mono-tx-1" "".

Definition w1 : World :=
  mkWorld (set_transactions [imported] db0) [].
End ImportedExample.

Module ManualExample.
Import Examples.

(** Alice has entered an expense of 300 on her cash card (balance 1000):
    the card stands at 700. *)
Definition entered : Transaction.t :=
  Transaction.mk 1%N 10%N alice None 300 0 980 0 "expense" "lunch"
                 0 0 0 700 false 1700000000 "" "".

Definition w1 : World :=
  mkWorld (set_cards (<[10%N := Card.with_Balance 700 cash]> (cards db0))
             (set_transactions [entered] db0)) [].

Definition balance_of (w : World) : option Z :=
  Card.Balance <$> cards (db w) !! 10%N.
End ManualExample.

Module StatementExample.
Import Examples.

Definition item (id : string) (amount balance : Z) : monobankTransaction.t :=
  monobankTransaction.mk id 1699990000 "Coffee" 5814 false amount amount
                         980 0 0 balance "".
End StatementExample.

Module PartialFailureExample.
Import Examples.

Definition coffee : monobankTransaction.t :=
  StatementExample.item "mono-tx-1" (-2500) 47500.

(** The provider answers 500 for the white card and a one-item statement
    for the black card. *)
Definition env1 : Env :=
  mkEnv (fun _ => false)
        (fun _ account _ =>
           if bool_decide (account = "acc-2") then Response 500 Undecodable
           else Response 200 (Statement [coffee]))
        1700000000 1697321600.

Definition result : Res unit * World :=
  MonobankService.SyncUserData env1 (App_transactionRepository.Create env1)
                               alice w0.
End PartialFailureExample.

Module ReplayExample.
Import Examples.

Definition coffee : monobankTransaction.t :=
  StatementExample.item "mono-tx-1" (-2500) 47500.

(** The provider reports the item on the black card. *)
Definition env1 : Env :=
  mkEnv (fun _ => false)
        (fun _ account _ =>
           if bool_decide (account = "acc-1") then Response 200 (Statement [coffee])
           else Response 200 (Statement []))
        1700000000 1697321600.

(** The webhook delivers the same item. *)
Definition payload : WebhookPayload :=
  Envelope "StatementItem" (DataStatement "acc-1" coffee).

Definition copies (w : World) : nat :=
  length (filter (fun x => Transaction.MonobankID x = "mono-tx-1")
                 (transactions (db w))).

End ReplayExample.

Module OverflowExample.
Import Examples.

(** A manual card of Alice drawn to its credit limit: balance -5, credit
    limit 5. *)
Definition overdrawn : Card.t :=
  Card.mk 10%N alice "Cash" "" (-5) 5 980 true "" "".

(** The black card with balance 0 and, as the credit limit the provider
    sent for the account, the least [int64]. *)
Definition bottomless : Card.t :=
  Card.mk 11%N alice "black (*1234)" "*1234" 0 Int64.min 980 false "black"
          "acc-1".

(** The world of [Examples] with [card] in the place of the card of its
    id. *)
Definition world (card : Card.t) : World :=
  mkWorld (set_cards (<[Card.ID card := card]> (cards db0)) db0) [].

(** An expense of the greatest [int64] on the cash card. *)
Definition huge : Transaction.t := manual "expense" Int64.max.

(** An expense of 1 on the black card. *)
Definition coin : Transaction.t :=
  Transaction.mk uuid_Nil 11%N uuid_Nil None 1 0 980 0 "expense" "coin"
                 0 0 0 0 false time_zero "" "".
End OverflowExample.

Module CategoryExample.
Import Examples.

Definition cat (i : UUID) (name : string) (p : option UUID) (ty : string)
    : Category.t :=
  Category.mk i name p alice ty.

(** Food (expense) with the child Groceries; Salary (income). *)
Definition dbc : DB :=
  set_categories
    (<[30%N := cat 30%N "Food" None "expense"]>
       (<[31%N := cat 31%N "Groceries" (Some 30%N) "expense"]>
          (<[32%N := cat 32%N "Salary" None "income"]> ∅)))
    db0.
Definition wc : World := mkWorld dbc [].
End CategoryExample.

Module ChainExample.
Import Examples.

Definition A : UUID := 40%N.
Definition B : UUID := 41%N.
Definition C : UUID := 42%N.
Definition D : UUID := 43%N.
Definition X : UUID := 44%N.

Definition cat (i : UUID) (name : string) (p : option UUID) : Category.t :=
  Category.mk i name p alice "expense".

(** The chain A, B, C (C's parent is B, B's parent is A) and the
    unrelated D. *)
Definition chain : gmap UUID Category.t :=
  <[A := cat A "A" None]>
    (<[B := cat B "B" (Some A)]>
       (<[C := cat C "C" (Some B)]>
          (<[D := cat D "D" None]> ∅))).

Definition wt : World := mkWorld (set_categories chain db0) [].

(** The same with a category created as its own parent. *)
Definition selfParent : Category.t := cat X "X" (Some X).
Definition looped : World := (categoryService.Create env0 selfParent wt).2.
End ChainExample.

(** * Further vocabulary *)

(** Newest first. *)
Definition newest_first (l : list Transaction.t) : Prop :=
  StronglySorted
    (fun a b => Transaction.TransactionDate b <= Transaction.TransactionDate a) l.

(** What the block "Verify category if provided" lets through. *)
Definition category_accepted (d : DB) (userID : UUID) (x : Transaction.t) : Prop :=
  match Transaction.CategoryID x with
  | None => True
  | Some cid =>
      ∃ c, categories d !! cid = Some c
           ∧ Category.UserID c = userID
           ∧ Category.Type_ c = Transaction.Type_ x
  end.

(** ** Polling *)

(** How often a Monobank id is stored. *)
Definition copies (m : string) (l : list Transaction.t) : nat :=
  length (filter (fun x => Transaction.MonobankID x = m) l).

(** A row that was converted from a statement item of [card]. *)
Definition imported_from (card : Card.t) (x : Transaction.t) : Prop :=
  Transaction.CardID x = Card.ID card
  ∧ Transaction.UserID x = Card.UserID card
  ∧ Transaction.CategoryID x = None.

(** [imports P d d']: from [d] to [d'] rows satisfying [P] were appended to
    the transactions, no Monobank id that was stored got another copy and
    no new one more than one, and categories, users and integrations are
    as before. *)
Definition imports (P : Transaction.t → Prop) (d d' : DB) : Prop :=
  (∃ new, transactions d' = (transactions d ++ new)%list ∧ Forall P new)
  ∧ (∀ m, (copies m (transactions d')
           <= Nat.max 1 (copies m (transactions d)))%nat)
  ∧ categories d' = categories d
  ∧ users d' = users d
  ∧ integrations d' = integrations d.

(** What the service relies on in a [txRepo.Create]: it stores nothing, or
    one row at the end of the table, with the card, owner, category and
    Monobank id of its argument (the id may be given by the database). *)
Definition stores_the_row (create : Transaction.t → M unit) : Prop :=
  ∀ x w r w', create x w = (r, w') →
    db w' = db w
    ∨ ((∃ x', transactions (db w') = (transactions (db w) ++ [x'])%list
              ∧ Transaction.CardID x' = Transaction.CardID x
              ∧ Transaction.UserID x' = Transaction.UserID x
              ∧ Transaction.CategoryID x' = Transaction.CategoryID x
              ∧ Transaction.MonobankID x' = Transaction.MonobankID x)
       ∧ categories (db w') = categories (db w)
       ∧ users (db w') = users (db w)
       ∧ integrations (db w') = integrations (db w)).

(** ** Ingestion with the repository of [backend/infrastructure] *)

(** [under_nil d d']: [d'] is [d], or [d] with one more transaction, stored
    under [uuid.Nil], which no row of [d] has as its id. *)
Definition under_nil (d d' : DB) : Prop :=
  d' = d
  ∨ ∃ x, Transaction.ID x = uuid_Nil
         ∧ (uuid_Nil ∉ Transaction.ID <$> transactions d)
         ∧ d' = set_transactions (transactions d ++ [x]) d.




(** ** The cycle check of the repository *)

(** What the loop has marked is closed under "parent of", up to the
    category it stands on, and does not contain the category asked about. *)
Definition marked (m : gmap UUID Category.t) (categoryID : UUID)
    (visited : gset UUID) (current : UUID) : Prop :=
  ∀ v, v ∈ visited →
    v ≠ categoryID
    ∧ ∃ q, parent_of m v = Some q ∧ (q ∈ visited ∨ q = current).

(** ** Cards *)

(** Cards are stored under their own identifier. *)
Definition keyed_cards (d : DB) : Prop :=
  ∀ k c, cards d !! k = Some c → Card.ID c = k.

(** ** Families of categories *)

(** Every parent that is named is stored and has the owner of the child. *)
Definition same_owner_families (m : gmap UUID Category.t) : Prop :=
  ∀ k c p, m !! k = Some c → Category.ParentID c = Some p →
    ∃ pc, m !! p = Some pc ∧ Category.UserID pc = Category.UserID c.

(** A stored parent has the type of the child. *)
Definition same_type_families (m : gmap UUID Category.t) : Prop :=
  ∀ k c p pc, m !! k = Some c → Category.ParentID c = Some p →
    m !! p = Some pc → Category.Type_ pc = Category.Type_ c.

(** No user has two categories of one name. *)
Definition unique_names (m : gmap UUID Category.t) : Prop :=
  ∀ k1 k2 c1 c2, m !! k1 = Some c1 → m !! k2 = Some c2 →
    Category.UserID c1 = Category.UserID c2 →
    Category.Name c1 = Category.Name c2 → k1 = k2.

(** [spared userID w w']: from [w] to [w'] every card that is not a
    manual card of [userID] is stored as it was, and so is every
    transaction booked on such a card; categories, users and integrations
    are as they were. *)
Definition spared (userID : UUID) (w w' : World) : Prop :=
  (∀ k c, cards (db w) !! k = Some c →
          Card.IsManual c = false ∨ Card.UserID c ≠ userID →
          cards (db w') !! k = Some c)
  ∧ (∀ x c, x ∈ transactions (db w) →
            cards (db w) !! Transaction.CardID x = Some c →
            Card.IsManual c = false ∨ Card.UserID c ≠ userID →
            x ∈ transactions (db w'))
  ∧ categories (db w') = categories (db w)
  ∧ users (db w') = users (db w)
  ∧ integrations (db w') = integrations (db w).

(** * Further worlds *)

Module LedgerExample.
Import Examples.

(** An expense of 50 on the cash card, filed under Food. *)
Definition bread (ty : string) : Transaction.t :=
  Transaction.mk uuid_Nil 10%N uuid_Nil (Some 30%N) 50 0 980 0 ty "bread"
                 0 0 0 0 false time_zero "" "".

(** Three expenses on the cash card, entered out of order, and one on the
    black card. *)
Definition row (i card : UUID) (amount : Z) (date : Time) : Transaction.t :=
  Transaction.mk i card alice None amount 0 980 0 "expense" "row"
                 0 0 0 0 false date "" "".

Definition rows : list Transaction.t :=
  [row 1%N 10%N 10 200; row 2%N 11%N 20 500; row 3%N 10%N 30 100;
   row 4%N 10%N 40 300].

(** The entry of [ManualExample], amended to 250. *)
Definition edited : Transaction.t :=
  Transaction.mk 1%N 10%N alice None 250 0 980 0 "expense" "lunch"
                 0 0 0 750 false 1700000000 "" "".

Definition wl : World := mkWorld (set_transactions rows db0) [].
End LedgerExample.

Module PollExample.
Import Examples.

Definition coffee : monobankTransaction.t :=
  monobankTransaction.mk "mono-tx-1" 1699990000 "Coffee" 5814 false
                         (-2500) (-2500) 980 0 0 47500 "".

(** The provider reports the same item twice in one statement. *)
Definition env_twice : Env :=
  mkEnv (fun _ => false)
        (fun _ account _ =>
           if bool_decide (account = "acc-1")
           then Response 200 (Statement [coffee; coffee])
           else Response 200 (Statement []))
        1700000000 1697321600.
End PollExample.

Module FirstRowExample.
Import Examples.


End FirstRowExample.

Module DisconnectExample.
Import Examples.

(** A lunch on the cash card, a coffee imported on the black card. *)
Definition wd : World :=
  mkWorld (set_transactions [ManualExample.entered; ImportedExample.imported]
             db0) [].
End DisconnectExample.

Module FamilyExample.
Import Examples.

(** Fruit, to be filed under Groceries. *)
Definition fruit : Category.t :=
  Category.mk 33%N "Fruit" (Some 31%N) uuid_Nil "expense".

(** A new root of Alice. *)
Definition travel : Category.t :=
  Category.mk uuid_Nil "Travel" None alice "expense".

(** Groceries renamed by its owner. *)
Definition renamed : Category.t :=
  Category.mk 31%N "Supermarket" (Some 30%N) uuid_Nil "expense".
End FamilyExample.

Module CardExample.
Import Examples.

(** A payload that tries to pass for a provider card of Bob. *)
Definition savings : Card.t :=
  Card.mk uuid_Nil bob "Savings" "" 500 0 980 false "black" "acc-1".
End CardExample.


(** * Properties *)

(** ** Int64 arithmetic *)

Lemma wrap_in_range z : Int64.in_range z → Int64.wrap z = z.
Proof.
  unfold Int64.in_range, Int64.wrap, Int64.min, Int64.max. intros H.
  rewrite Z.mod_small; lia.
Qed.

Lemma wrap_range z : Int64.in_range (Int64.wrap z).
Proof.
  unfold Int64.in_range, Int64.wrap, Int64.min, Int64.max.
  pose proof (Z.mod_pos_bound (z + 2 ^ 63) (2 ^ 64)). lia.
Qed.

(** ** Computations that only read *)

Create HintDb ledger.

Lemma keeps_db_atomic {A} (m : M A) : keeps_db m → atomic m.
Proof. intros H w e w' E. eapply H, E. Qed.

Lemma keeps_db_ret {A} (a : A) : keeps_db (ret a).
Proof. intros w r w' [= <- <-]. done. Qed.
Lemma keeps_db_fail {A} e : keeps_db (@fail A e).
Proof. intros w r w' [= <- <-]. done. Qed.
Lemma keeps_db_get_db : keeps_db get_db.
Proof. intros w r w' [= <- <-]. done. Qed.
Lemma keeps_db_logw l s k : keeps_db (logw l s k).
Proof. intros w r w' [= <- <-]. done. Qed.
Lemma keeps_db_guard env op : keeps_db (guard_op env op).
Proof. unfold guard_op. destruct (fault env op); auto using keeps_db_fail, keeps_db_ret. Qed.

Lemma keeps_db_bind {A B} (m : M A) (k : A → M B) :
  keeps_db m → (∀ a, keeps_db (k a)) → keeps_db (bind m k).
Proof.
  intros Hm Hk w r w' E. unfold bind in E.
  destruct (m w) as [[a|e] w1] eqn:Em.
  - rewrite (Hk _ _ _ _ E). eapply Hm, Em.
  - injection E as <- <-. eapply Hm, Em.
Qed.

Lemma keeps_db_on_error {A} (m : M A) msg wr :
  keeps_db m → keeps_db (on_error m msg wr).
Proof.
  intros Hm w r w' E. unfold on_error in E.
  destruct (m w) as [[a|e] w1] eqn:Em.
  - injection E as <- <-. eapply Hm, Em.
  - destruct msg as [[s k]|]; injection E as <- <-; simpl; eapply Hm, Em.
Qed.

Lemma keeps_db_swallow {A} (m : M A) s k :
  keeps_db m → keeps_db (swallow m s k).
Proof.
  intros Hm w r w' E. unfold swallow in E.
  destruct (m w) as [[a|e] w1] eqn:Em; injection E as <- <-; simpl; eapply Hm, Em.
Qed.

Lemma quiet_ret {A} (a : A) : quiet (ret a).
Proof. intros w r w' [= <- <-]. done. Qed.
Lemma quiet_fail {A} e : quiet (@fail A e).
Proof. intros w r w' [=]. Qed.
Lemma quiet_get_db : quiet get_db.
Proof. intros w r w' [= <- <-]. done. Qed.
Lemma quiet_guard env op : quiet (guard_op env op).
Proof. unfold guard_op. destruct (fault env op); auto using quiet_fail, quiet_ret. Qed.

Lemma quiet_bind {A B} (m : M A) (k : A → M B) :
  quiet m → (∀ a, quiet (k a)) → quiet (bind m k).
Proof.
  intros Hm Hk w r w' E. unfold bind in E.
  destruct (m w) as [[a|e] w1] eqn:Em; [|done].
  apply Hm in Em as ->. eapply Hk, E.
Qed.

Lemma quiet_on_error {A} (m : M A) msg wr : quiet m → quiet (on_error m msg wr).
Proof.
  intros Hm w r w' E. unfold on_error in E.
  destruct (m w) as [[a|e] w1] eqn:Em.
  - injection E as <- <-. eapply Hm, Em.
  - destruct msg as [[s k]|]; done.
Qed.

Lemma atomic_bind {A B} (m : M A) (k : A → M B) :
  keeps_db m → (∀ a, atomic (k a)) → atomic (bind m k).
Proof.
  intros Hm Hk w e w' E. unfold bind in E.
  destruct (m w) as [[a|e1] w1] eqn:Em.
  - rewrite (Hk _ _ _ _ E). eapply Hm, Em.
  - injection E as <- <-. eapply Hm, Em.
Qed.

Lemma atomic_on_error {A} (m : M A) msg wr : atomic m → atomic (on_error m msg wr).
Proof.
  intros Hm w e w' E. unfold on_error in E.
  destruct (m w) as [[a|e1] w1] eqn:Em; [done|].
  destruct msg as [[s k]|]; injection E as <- <-; simpl; eapply Hm, Em.
Qed.

Lemma atomic_Transaction env {A} (body : M A) : atomic (Transaction_ env body).
Proof.
  intros w e w' E. unfold Transaction_ in E.
  destruct (body w) as [[a|e1] w1]; [destruct (fault env OpCommit)|];
    by simplify_eq.
Qed.

#[global] Hint Resolve keeps_db_ret keeps_db_fail keeps_db_get_db keeps_db_logw
  keeps_db_guard keeps_db_bind keeps_db_on_error keeps_db_swallow
  quiet_ret quiet_fail quiet_get_db quiet_guard quiet_bind quiet_on_error
  atomic_bind atomic_on_error atomic_Transaction keeps_db_atomic : ledger.

(** Inversion of a successful step. *)
Lemma bind_Ok {A B} (m : M A) (k : A → M B) w b w' :
  bind m k w = (Ok b, w') → ∃ a w1, m w = (Ok a, w1) ∧ k a w1 = (Ok b, w').
Proof.
  unfold bind. destruct (m w) as [[a|e] w1]; [|done]. eauto.
Qed.

Lemma on_error_Ok {A} (m : M A) msg wr w a w' :
  on_error m msg wr w = (Ok a, w') → m w = (Ok a, w').
Proof.
  unfold on_error. destruct (m w) as [[a1|e] w1]; [done|].
  destruct msg as [[s k]|]; done.
Qed.

Lemma bind_run {A B} (m : M A) (k : A → M B) w a w1 :
  m w = (Ok a, w1) → bind m k w = k a w1.
Proof. intros E. unfold bind. by rewrite E. Qed.

Lemma on_error_run {A} (m : M A) msg wr w a w1 :
  m w = (Ok a, w1) → on_error m msg wr w = (Ok a, w1).
Proof. intros E. unfold on_error. by rewrite E. Qed.

Lemma guard_op_Ok env op w u w' :
  guard_op env op w = (Ok u, w') → fault env op = false ∧ w' = w.
Proof.
  unfold guard_op. destruct (fault env op); [done|]. by intros [= <- <-].
Qed.

(** ** The reading operations of the repositories *)

Section Reads.
Context (env : Env).

Lemma card_GetByID_keeps id : keeps_db (cardRepository.GetByID env id).
Proof. unfold cardRepository.GetByID. auto 10 with ledger. Qed.
Lemma card_GetByID_quiet id : quiet (cardRepository.GetByID env id).
Proof. unfold cardRepository.GetByID. auto 10 with ledger. Qed.

Lemma card_GetByID_Ok id w r w' :
  cardRepository.GetByID env id w = (Ok r, w') →
  w' = w ∧ r = cards (db w) !! id.
Proof.
  intros E. pose proof (card_GetByID_quiet _ _ _ _ E) as ->. split; [done|].
  unfold cardRepository.GetByID in E.
  apply bind_Ok in E as (u & w1 & E1 & E2).
  apply on_error_Ok, guard_op_Ok in E1 as [_ ->].
  by injection E2 as <-.
Qed.

Lemma category_GetByID_keeps id : keeps_db (categoryRepository.GetByID env id).
Proof. unfold categoryRepository.GetByID. auto 10 with ledger. Qed.
Lemma category_GetByID_quiet id : quiet (categoryRepository.GetByID env id).
Proof. unfold categoryRepository.GetByID. auto 10 with ledger. Qed.

Lemma tx_GetByID_keeps id : keeps_db (App_transactionRepository.GetByID env id).
Proof. unfold App_transactionRepository.GetByID. auto 10 with ledger. Qed.
Lemma tx_GetByID_quiet id : quiet (App_transactionRepository.GetByID env id).
Proof. unfold App_transactionRepository.GetByID. auto 10 with ledger. Qed.

Lemma tx_GetByID_Ok id w r w' :
  App_transactionRepository.GetByID env id w = (Ok r, w') →
  w' = w ∧ r = head (filter (fun x => Transaction.ID x = id) (transactions (db w))).
Proof.
  intros E. pose proof (tx_GetByID_quiet _ _ _ _ E) as ->. split; [done|].
  unfold App_transactionRepository.GetByID in E.
  apply bind_Ok in E as (u & w1 & E1 & E2).
  apply on_error_Ok, guard_op_Ok in E1 as [_ ->].
  by injection E2 as <-.
Qed.
End Reads.

#[global] Hint Resolve card_GetByID_keeps card_GetByID_quiet
  category_GetByID_keeps category_GetByID_quiet
  tx_GetByID_keeps tx_GetByID_quiet : ledger.

(** ** [transactionRepository.Create]: insert and balance update together *)

Section RepositoryCreate.
Context (env : Env).

Lemma tx_Create_Ok x w x' w' :
  tx_Create env x w = (Ok x', w') →
  x' = inserted_row (transactions (db w)) x ∧
  w' = mkWorld (set_transactions (transactions (db w) ++ [x']) (db w)) (log w).
Proof.
  unfold tx_Create, inserted_row. intros E.
  apply bind_Ok in E as (u & w1 & E1 & E).
  apply guard_op_Ok in E1 as [_ ->].
  apply bind_Ok in E as (d & w1 & E1 & E). injection E1 as <- <-.
  repeat case_match; try done; apply bind_Ok in E as (? & ? & E1 & E2);
    injection E1 as <- <-; injection E2 as <- <-; done.
Qed.

Lemma Create_Ok x w u w' :
  App_transactionRepository.Create env x w = (Ok u, w') →
  ∃ c, cards (db w) !! Transaction.CardID x = Some c ∧
    let x' := inserted_row (transactions (db w)) x in
    w' = mkWorld
           (set_cards
              (<[Card.ID c :=
                   Card.with_Balance
                     (apply_delta (Transaction.Type_ x) (Transaction.Amount x)
                                  (Card.Balance c)) c]> (cards (db w)))
              (set_transactions (transactions (db w) ++ [x']) (db w)))
           (log w).
Proof.
  unfold App_transactionRepository.Create, Transaction_. intros E.
  match type of E with
  | (match ?b with _ => _ end) = _ => destruct b as [[v|e] w1] eqn:Eb
  end; [|done].
  destruct (fault env OpCommit); [done|]. injection E as <- <-.
  apply bind_Ok in Eb as (x' & w2 & E1 & Eb).
  apply on_error_Ok, tx_Create_Ok in E1 as [-> ->].
  apply bind_Ok in Eb as (c & w3 & E1 & Eb).
  apply on_error_Ok in E1. unfold card_First in E1.
  apply bind_Ok in E1 as (? & ? & G & E1). apply guard_op_Ok in G as [_ ->].
  apply bind_Ok in E1 as (? & ? & G & E1). injection G as <- <-.
  simpl in E1.
  assert (Transaction.CardID (inserted_row (transactions (db w)) x)
          = Transaction.CardID x) as HC
    by (unfold inserted_row; case_bool_decide; done).
  assert (Transaction.Type_ (inserted_row (transactions (db w)) x)
          = Transaction.Type_ x) as HT
    by (unfold inserted_row; case_bool_decide; done).
  assert (Transaction.Amount (inserted_row (transactions (db w)) x)
          = Transaction.Amount x) as HA
    by (unfold inserted_row; case_bool_decide; done).
  rewrite HC in E1.
  destruct (cards (db w) !! Transaction.CardID x) as [c0|] eqn:Ec; [|done].
  injection E1 as <- <-. exists c0. split; [done|].
  apply on_error_Ok in Eb. unfold card_Save in Eb.
  apply bind_Ok in Eb as (? & ? & G & Eb). apply guard_op_Ok in G as [_ ->].
  apply bind_Ok in Eb as (? & ? & G & Eb). injection G as <- <-.
  injection Eb as <- <-. simpl. by rewrite HT, HA.
Qed.

Lemma fresh_tx_id_bound (l : list Transaction.t) x :
  x ∈ l → (Transaction.ID x < fresh_tx_id l)%N.
Proof.
  unfold fresh_tx_id. induction 1 as [x l|x y l _ IH]; simpl; lia.
Qed.

Lemma fresh_tx_id_fresh (l : list Transaction.t) :
  fresh_tx_id l ∉ Transaction.ID <$> l.
Proof.
  intros (x & Hx & Hin)%list_elem_of_fmap.
  apply fresh_tx_id_bound in Hin. lia.
Qed.

(** Without storage failures a transaction that comes without an id, of a
    valid type, on a stored card is inserted and the card updated. *)
Lemma Create_run x w c :
  fault env OpTxInsert = false →
  fault env (OpCardFirst (Transaction.CardID x)) = false →
  fault env (OpCardSave (Card.ID c)) = false →
  fault env OpCommit = false →
  Transaction.ID x = uuid_Nil →
  type_check (Transaction.Type_ x) = true →
  cards (db w) !! Transaction.CardID x = Some c →
  ∃ w', App_transactionRepository.Create env x w = (Ok tt, w').
Proof.
  intros Hi Hf Hs Hcommit Hid Hty Hc.
  unfold App_transactionRepository.Create, Transaction_, tx_Create, card_First,
    card_Save, bind, on_error, guard_op, get_db, put_db, ret, fail.
  rewrite Hi, Hid. simpl.
  rewrite bool_decide_eq_false_2 by apply fresh_tx_id_fresh.
  rewrite Hty. simpl. rewrite Hf. simpl. rewrite Hc. simpl. rewrite Hs. simpl.
  rewrite Hcommit. eauto.
Qed.

Lemma Create_atomic x : atomic (App_transactionRepository.Create env x).
Proof. apply atomic_Transaction. Qed.
End RepositoryCreate.

#[global] Hint Resolve Create_atomic : ledger.

(** ** The ledger *)

Lemma apply_delta_signed ty amount balance :
  type_check ty = true →
  apply_delta ty amount balance = Int64.wrap (balance + signedDelta ty amount).
Proof.
  unfold type_check, apply_delta, signedDelta, Int64.sub, Int64.add.
  intros H. repeat case_bool_decide; simplify_eq; try done; f_equal; lia.
Qed.

Section Ledger.
Context (env : Env).

Lemma validateTransaction_keeps x c :
  keeps_db (App_transactionService.validateTransaction x c).
Proof.
  unfold App_transactionService.validateTransaction.
  repeat case_match; auto with ledger.
Qed.

Lemma validateTransaction_quiet x c :
  quiet (App_transactionService.validateTransaction x c).
Proof.
  unfold App_transactionService.validateTransaction.
  repeat case_match; auto with ledger.
Qed.

Lemma validateTransaction_Ok x c w u w' :
  App_transactionService.validateTransaction x c w = (Ok u, w') →
  0 < Transaction.Amount x ∧ type_check (Transaction.Type_ x) = true
  ∧ Transaction.CurrencyCode x = Card.CurrencyCode c
  ∧ Transaction.Description x ≠ "".
Proof.
  unfold App_transactionService.validateTransaction.
  destruct (Transaction.Amount x <=? 0) eqn:Ha; [done|].
  destruct (type_check (Transaction.Type_ x)) eqn:Ht; [|done]. simpl.
  repeat case_bool_decide; try done. intros _.
  apply Z.leb_gt in Ha. done.
Qed.

Lemma verifyCategory_keeps u x :
  keeps_db (App_transactionService.verifyCategory env u x).
Proof.
  unfold App_transactionService.verifyCategory.
  destruct (Transaction.CategoryID x); [|auto with ledger].
  apply keeps_db_bind; [auto with ledger|].
  intros [c|]; repeat case_match; auto with ledger.
Qed.

Lemma verifyCategory_quiet u x :
  quiet (App_transactionService.verifyCategory env u x).
Proof.
  unfold App_transactionService.verifyCategory.
  destruct (Transaction.CategoryID x); [|auto with ledger].
  apply quiet_bind; [auto with ledger|].
  intros [c|]; repeat case_match; auto with ledger.
Qed.

Lemma CreateTransaction_atomic userID transaction :
  atomic (App_transactionService.CreateTransaction env userID transaction).
Proof.
  unfold App_transactionService.CreateTransaction.
  apply atomic_bind; [auto with ledger|].
  intros [card|]; [|auto with ledger].
  case_match; [auto with ledger|].
  apply atomic_bind; [apply verifyCategory_keeps|]. intros _.
  apply atomic_bind; [apply validateTransaction_keeps|]. intros _.
  case_match; auto with ledger.
Qed.

(** What a successful [CreateTransaction] went through and wrote. *)
Lemma CreateTransaction_Ok userID transaction w u w' :
  App_transactionService.CreateTransaction env userID transaction w = (Ok u, w') →
  ∃ card stored,
    cards (db w) !! Transaction.CardID transaction = Some card
    ∧ Card.UserID card = userID
    ∧ 0 < Transaction.Amount transaction
    ∧ type_check (Transaction.Type_ transaction) = true
    ∧ Transaction.BalanceAfter stored
      = apply_delta (Transaction.Type_ transaction)
                    (Transaction.Amount transaction) (Card.Balance card)
    ∧ Int64.neg (Card.CreditLimit card) <= Transaction.BalanceAfter stored
    ∧ Transaction.CardID stored = Transaction.CardID transaction
    ∧ Transaction.UserID stored = userID
    ∧ Transaction.Amount stored = Transaction.Amount transaction
    ∧ Transaction.Type_ stored = Transaction.Type_ transaction
    ∧ Transaction.MonobankID stored = Transaction.MonobankID transaction
    ∧ transactions (db w') = (transactions (db w) ++ [stored])%list
    ∧ cards (db w')
      = <[Card.ID card :=
            Card.with_Balance (Transaction.BalanceAfter stored) card]>
          (cards (db w))
    ∧ categories (db w') = categories (db w)
    ∧ users (db w') = users (db w)
    ∧ integrations (db w') = integrations (db w).
Proof.
  unfold App_transactionService.CreateTransaction. intros E.
  apply bind_Ok in E as (card & w1 & E1 & E).
  apply on_error_Ok, card_GetByID_Ok in E1 as [-> ->].
  destruct (cards (db w) !! Transaction.CardID transaction) as [card|] eqn:Ec;
    [|done].
  case_bool_decide as Hu; [|done]. simpl in E.
  apply bind_Ok in E as (? & w1 & E1 & E).
  apply verifyCategory_quiet in E1 as ->.
  apply bind_Ok in E as (? & w1 & E1 & E).
  pose proof (validateTransaction_quiet _ _ _ _ _ E1) as ->.
  apply validateTransaction_Ok in E1 as (Ha & Ht & _ & _).
  cbv zeta in E.
  set (t2 := if IsZero _ then _ else _) in E.
  assert (Transaction.CardID t2 = Transaction.CardID transaction
          ∧ Transaction.Type_ t2 = Transaction.Type_ transaction
          ∧ Transaction.Amount t2 = Transaction.Amount transaction
          ∧ Transaction.MonobankID t2 = Transaction.MonobankID transaction
          ∧ Transaction.UserID t2 = userID) as (HC & HT & HA & HM & HU)
    by (unfold t2; destruct (IsZero _); repeat split; reflexivity).
  clearbody t2. rewrite HT, HA in E.
  destruct (_ <? _) eqn:Hb in E; [done|].
  apply Z.ltb_ge in Hb.
  apply on_error_Ok, Create_Ok in E as (c & Ec' & ->).
  simpl in Ec'. rewrite HC, Ec in Ec'. injection Ec' as <-.
  eexists card, (inserted_row _ _). simpl. rewrite HT, HA.
  unfold inserted_row.
  repeat split; try reflexivity; try done; case_bool_decide; simpl; done.
Qed.
End Ledger.

(** *** Creation *)

Lemma card_GetByID_run env id w :
  fault env (OpCardGetByID id) = false →
  cardRepository.GetByID env id w = (Ok (cards (db w) !! id), w).
Proof.
  intros Hf. unfold cardRepository.GetByID, bind, on_error, guard_op.
  by rewrite Hf.
Qed.

(** A call that passed the checks, within the credit limit, with no storage
    failure, for a transaction that comes without an id, succeeds. *)
Lemma CreateTransaction_run env userID transaction card w :
  cards (db w) !! Transaction.CardID transaction = Some card →
  passes_checks env userID transaction card w →
  Int64.neg (Card.CreditLimit card)
    <= Int64.wrap (Card.Balance card
                   + signedDelta (Transaction.Type_ transaction)
                                 (Transaction.Amount transaction)) →
  Transaction.ID transaction = uuid_Nil →
  fault env OpTxInsert = false →
  fault env (OpCardFirst (Transaction.CardID transaction)) = false →
  fault env (OpCardSave (Card.ID card)) = false →
  fault env OpCommit = false →
  ∃ w', App_transactionService.CreateTransaction env userID transaction w
        = (Ok tt, w').
Proof.
  intros Hc (Hf & Hu & Hcat & Hval) Hle Hid Hi Hfirst Hsave Hcommit.
  unfold App_transactionService.CreateTransaction.
  erewrite bind_run; last first.
  { apply on_error_run, card_GetByID_run, Hf. }
  rewrite Hc, bool_decide_eq_true_2 by done. simpl.
  erewrite bind_run by exact Hcat.
  erewrite bind_run by exact Hval.
  apply validateTransaction_Ok in Hval as (_ & Ht & _).
  cbv zeta.
  set (t2 := if IsZero _ then _ else _).
  assert (Transaction.Type_ t2 = Transaction.Type_ transaction
          ∧ Transaction.Amount t2 = Transaction.Amount transaction
          ∧ Transaction.CardID t2 = Transaction.CardID transaction
          ∧ Transaction.ID t2 = Transaction.ID transaction)
    as (HT & HA & HC & HI)
    by (unfold t2; destruct (IsZero _); repeat split; reflexivity).
  rewrite HT, HA, apply_delta_signed by done.
  apply Z.ltb_ge in Hle. rewrite Hle.
  edestruct (Create_run env
               (Transaction.with_BalanceAfter
                  (Int64.wrap (Card.Balance card
                               + signedDelta (Transaction.Type_ transaction)
                                             (Transaction.Amount transaction)))
                  t2) w card) as [w' E]; simpl; try done; try congruence.
  exists w'. by apply on_error_run.
Qed.

(** C1, where the claim fails. On a card with balance -5 and credit limit
    5, an expense of the greatest [int64] passes the checks: [newBalance]
    wraps around to 9223372036854775804, which is not below -5. The call
    succeeds, and the stored [BalanceAfter] (and the card's new balance) is
    that number, not the card's balance plus the delta, which is
    -9223372036854775812. *)
Lemma CreateTransaction_balance_wraps :
  let r := App_transactionService.CreateTransaction Examples.env0
             Examples.alice OverflowExample.huge
             (OverflowExample.world OverflowExample.overdrawn) in
  passes_checks Examples.env0 Examples.alice OverflowExample.huge
    OverflowExample.overdrawn (OverflowExample.world OverflowExample.overdrawn)
  ∧ r.1 = Ok tt
  ∧ ∃ stored,
      transactions (db r.2) = [stored]
      ∧ Transaction.BalanceAfter stored = 9223372036854775804
      ∧ Transaction.BalanceAfter stored
        ≠ Card.Balance OverflowExample.overdrawn
          + signedDelta (Transaction.Type_ OverflowExample.huge)
                        (Transaction.Amount OverflowExample.huge)
      ∧ Card.Balance <$> (cards (db r.2) !! 10%N) = Some 9223372036854775804.
Proof.
  split; [by repeat split|]. split; [reflexivity|].
  eexists. split; [reflexivity|]. split; [reflexivity|].
  split; [discriminate|reflexivity].
Qed.

(** C1, amended. Whenever [CreateTransaction] stores a transaction (so the
    card, category and validation checks passed), the signed delta is
    [+amount] for income and [-amount] for expense and transfer, the stored
    [BalanceAfter] is the card's balance plus that delta computed in
    [int64], with wrap-around, hence exactly that sum whenever the sum is
    representable; the same transaction commits exactly that row together
    with the card carrying the new balance; when the call fails, at any
    step, including between the insert and the balance update, neither is
    persisted; and a call that passed the checks and stays within the
    credit limit does store, unless the storage fails. *)
Theorem CreateTransaction_balance_and_atomicity
    env userID transaction w :
  (∀ e w',
     App_transactionService.CreateTransaction env userID transaction w = (Err e, w') →
     db w' = db w)
  ∧ (∀ u w',
     App_transactionService.CreateTransaction env userID transaction w = (Ok u, w') →
     ∃ card stored,
       cards (db w) !! Transaction.CardID transaction = Some card
       ∧ let delta := signedDelta (Transaction.Type_ transaction)
                                  (Transaction.Amount transaction) in
         (Transaction.Type_ transaction = "income"
            ∧ delta = Transaction.Amount transaction
          ∨ (Transaction.Type_ transaction = "expense"
             ∨ Transaction.Type_ transaction = "transfer")
            ∧ delta = - Transaction.Amount transaction)
         ∧ Transaction.BalanceAfter stored = Int64.wrap (Card.Balance card + delta)
         ∧ (Int64.in_range (Card.Balance card + delta) →
            Transaction.BalanceAfter stored = Card.Balance card + delta)
         ∧ transactions (db w') = (transactions (db w) ++ [stored])%list
         ∧ cards (db w')
           = <[Card.ID card :=
                 Card.with_Balance (Transaction.BalanceAfter stored) card]>
               (cards (db w)))
  ∧ (∀ card,
       cards (db w) !! Transaction.CardID transaction = Some card →
       passes_checks env userID transaction card w →
       Int64.neg (Card.CreditLimit card)
         <= Int64.wrap (Card.Balance card
                        + signedDelta (Transaction.Type_ transaction)
                                      (Transaction.Amount transaction)) →
       Transaction.ID transaction = uuid_Nil →
       fault env OpTxInsert = false →
       fault env (OpCardFirst (Transaction.CardID transaction)) = false →
       fault env (OpCardSave (Card.ID card)) = false →
       fault env OpCommit = false →
       ∃ w', App_transactionService.CreateTransaction env userID transaction w
             = (Ok tt, w')).
Proof.
  split; [|split]; [| |intros card; apply CreateTransaction_run].
  - intros e w' E. eapply CreateTransaction_atomic, E.
  - intros u w' E.
    apply CreateTransaction_Ok in E
      as (card & stored & Hc & _ & _ & Ht & Hb & _ & _ & _ & _ & _ & _ & Htx & Hcards & _).
    exists card, stored. split; [done|]. cbv zeta.
    rewrite apply_delta_signed in Hb by done.
    split; [|split; [done|split; [|done]]].
    + unfold type_check in Ht. unfold signedDelta.
      repeat case_bool_decide; simplify_eq; auto.
    + intros Hr. rewrite Hb. by apply wrap_in_range.
Qed.

Lemma CreateTransaction_balance_and_atomicity_witness :
  (∃ stored,
     transactions
       (db (App_transactionService.CreateTransaction Examples.env0 Examples.alice
              (Examples.manual "expense" 300) Examples.w0).2)
     = [stored]
     ∧ Transaction.BalanceAfter stored = 1000 + - 300)
  ∧ ∀ (save_fails : StorageOp → bool) e w',
      App_transactionService.CreateTransaction
        (mkEnv save_fails (provider Examples.env0) 0 0) Examples.alice
        (Examples.manual "income" 5) Examples.w0 = (Err e, w') →
      db w' = Examples.db0.
Proof.
  split.
  - destruct (App_transactionService.CreateTransaction Examples.env0 Examples.alice
                (Examples.manual "expense" 300) Examples.w0)
      as [[[]|e] w'] eqn:E; [|vm_compute in E; discriminate E].
    destruct (proj1 (proj2 (CreateTransaction_balance_and_atomicity _ _ _ _))
                tt w' E)
      as (card & stored & Hc & _ & _ & Hb & Htx & _).
    exists stored. split; [exact Htx|].
    vm_compute in Hc. injection Hc as <-.
    apply Hb. vm_compute. split; discriminate.
  - intros save_fails e w' E.
    exact (proj1 (CreateTransaction_balance_and_atomicity _ _ _ _) e w' E).
Defined.


(** The test of the code, on [int64]: when the wrapped sum is below the
    [int64] negation of the credit limit, [CreateTransaction] never
    succeeds and leaves the database as it was; a call that passed the
    earlier checks gets [ErrInsufficientFunds], with nothing changed. *)
Lemma CreateTransaction_rejects_below_limit
    env userID transaction card w :
  cards (db w) !! Transaction.CardID transaction = Some card →
  Int64.wrap (Card.Balance card
              + signedDelta (Transaction.Type_ transaction)
                            (Transaction.Amount transaction))
    < Int64.neg (Card.CreditLimit card) →
  ∃ e w',
    App_transactionService.CreateTransaction env userID transaction w = (Err e, w')
    ∧ db w' = db w
    ∧ (passes_checks env userID transaction card w →
       e = ErrInsufficientFunds ∧ w' = w).
Proof.
  intros Hc Hlt.
  destruct (App_transactionService.CreateTransaction env userID transaction w)
    as [[u|e] w'] eqn:E.
  - exfalso. apply CreateTransaction_Ok in E
      as (card' & stored & Hc' & _ & _ & Ht & Hb & Hle & _).
    rewrite Hc in Hc'. injection Hc' as <-.
    rewrite apply_delta_signed in Hb by done. lia.
  - exists e, w'. split; [done|]. split.
    + eapply CreateTransaction_atomic, E.
    + intros (Hf & Hu & Hcat & Hval).
      unfold App_transactionService.CreateTransaction in E.
      unfold bind at 1 in E. unfold on_error at 1 in E.
      rewrite card_GetByID_run, Hc in E by done.
      rewrite bool_decide_eq_true_2 in E by done. simpl in E.
      unfold bind at 1 in E. rewrite Hcat in E.
      unfold bind at 1 in E. rewrite Hval in E.
      apply validateTransaction_Ok in Hval as (_ & Ht & _).
      cbv zeta in E.
      set (t2 := if IsZero _ then _ else _) in E.
      assert (Transaction.Type_ t2 = Transaction.Type_ transaction
              ∧ Transaction.Amount t2 = Transaction.Amount transaction)
        as (HT & HA)
        by (unfold t2; destruct (IsZero _); repeat split; reflexivity).
      rewrite HT, HA, apply_delta_signed in E by done.
      apply Z.ltb_lt in Hlt. rewrite Hlt in E. by injection E as <- <-.
Qed.

(** C4, where the claim fails. On the card with balance -5 and credit limit
    5, for an expense of the greatest [int64], the balance plus the delta
    is below minus the credit limit; the sum does not fit [int64], the
    call succeeds, a transaction is stored and the balance changes. On a
    card with balance 0 whose credit limit is the least [int64], whose
    negation does not fit, an expense of 1 is accepted as well, although
    -1 is below minus the credit limit, which is [2^63]. *)
Lemma overflow_slips_past_the_credit_limit :
  (let card := OverflowExample.overdrawn in
   let r := App_transactionService.CreateTransaction Examples.env0
              Examples.alice OverflowExample.huge (OverflowExample.world card) in
   Card.Balance card
   + signedDelta (Transaction.Type_ OverflowExample.huge)
                 (Transaction.Amount OverflowExample.huge)
   < - Card.CreditLimit card
   ∧ r.1 = Ok tt
   ∧ length (transactions (db r.2)) = 1%nat
   ∧ Card.Balance <$> (cards (db r.2) !! 10%N) ≠ Some (Card.Balance card))
  ∧ (let card := OverflowExample.bottomless in
     let r := App_transactionService.CreateTransaction Examples.env0
                Examples.alice OverflowExample.coin
                (OverflowExample.world card) in
     Card.Balance card
     + signedDelta (Transaction.Type_ OverflowExample.coin)
                   (Transaction.Amount OverflowExample.coin)
     < - Card.CreditLimit card
     ∧ - Card.CreditLimit card = 2 ^ 63
     ∧ r.1 = Ok tt
     ∧ length (transactions (db r.2)) = 1%nat
     ∧ Card.Balance <$> (cards (db r.2) !! 11%N) = Some (-1)).
Proof.
  split.
  - split; [reflexivity|]. split; [reflexivity|]. split; [reflexivity|].
    discriminate.
  - split; [reflexivity|]. split; [reflexivity|]. split; [reflexivity|].
    split; reflexivity.
Qed.

(** C4, amended. With the card's balance plus the signed delta below minus
    the credit limit, both representable in [int64], [CreateTransaction]
    never succeeds and leaves the database as it was; a call that passed
    the earlier checks is rejected with [ErrInsufficientFunds] exactly,
    with nothing changed at all, so no transaction is stored and the
    balance is what it was. *)
Theorem CreateTransaction_insufficient_funds
    env userID transaction card w :
  cards (db w) !! Transaction.CardID transaction = Some card →
  Int64.in_range (Card.Balance card
                  + signedDelta (Transaction.Type_ transaction)
                                (Transaction.Amount transaction)) →
  Int64.in_range (- Card.CreditLimit card) →
  Card.Balance card
  + signedDelta (Transaction.Type_ transaction)
                (Transaction.Amount transaction)
    < - Card.CreditLimit card →
  ∃ e w',
    App_transactionService.CreateTransaction env userID transaction w = (Err e, w')
    ∧ db w' = db w
    ∧ (passes_checks env userID transaction card w →
       e = ErrInsufficientFunds ∧ w' = w).
Proof.
  intros Hc Hsum Hlimit Hlt.
  apply CreateTransaction_rejects_below_limit; [done|].
  unfold Int64.neg. by rewrite !wrap_in_range.
Qed.

(** The credit-limit boundary: balance 1000, credit limit 0, expense 1500. *)
Lemma CreateTransaction_insufficient_funds_witness :
  App_transactionService.CreateTransaction Examples.env0 Examples.alice
    (Examples.manual "expense" 1500) Examples.w0
  = (Err ErrInsufficientFunds, Examples.w0)
  ∧ Card.Balance Examples.cash = 1000.
Proof.
  split; [|reflexivity].
  destruct (CreateTransaction_insufficient_funds Examples.env0 Examples.alice
              (Examples.manual "expense" 1500) Examples.cash Examples.w0)
    as (e & w' & E & _ & H);
    [reflexivity | vm_compute; split; discriminate
    | vm_compute; split; discriminate | vm_compute; reflexivity |].
  destruct H as [-> ->]; [|exact E].
  repeat split; reflexivity.
Defined.

(** *** Update and delete *)

Lemma tx_GetByID_run env id w :
  fault env (OpTxGetByID id) = false →
  App_transactionRepository.GetByID env id w
  = (Ok (head (filter (fun x => Transaction.ID x = id) (transactions (db w)))), w).
Proof.
  intros Hf. unfold App_transactionRepository.GetByID, bind, on_error, guard_op.
  by rewrite Hf.
Qed.

Lemma tx_GetByID_fails env id w :
  fault env (OpTxGetByID id) = true →
  ∃ w', App_transactionRepository.GetByID env id w = (Err ErrStorage, w')
        ∧ db w' = db w.
Proof.
  intros Hf. unfold App_transactionRepository.GetByID, bind, on_error, guard_op.
  rewrite Hf. simpl. eauto.
Qed.

(** C5. A stored transaction whose [MonobankID] is not empty cannot be
    updated or deleted: both calls fail for every caller and every payload
    and leave the database as it was; for the owner of the transaction the
    error is the "cannot modify / cannot delete monobank transaction" one and
    nothing at all changes. *)
Theorem monobank_transactions_are_immutable
    env userID (existing : Transaction.t) w :
  head (filter (fun x => Transaction.ID x = Transaction.ID existing)
               (transactions (db w))) = Some existing →
  Transaction.MonobankID existing ≠ "" →
  (∀ transaction,
     Transaction.ID transaction = Transaction.ID existing →
     ∃ e w',
       App_transactionService.UpdateTransaction env userID transaction w = (Err e, w')
       ∧ db w' = db w
       ∧ (fault env (OpTxGetByID (Transaction.ID existing)) = false →
          Transaction.UserID existing = userID →
          e = ErrCannotModifyMonobank ∧ w' = w))
  ∧ (∃ e w',
       App_transactionService.DeleteTransaction env userID (Transaction.ID existing) w
       = (Err e, w')
       ∧ db w' = db w
       ∧ (fault env (OpTxGetByID (Transaction.ID existing)) = false →
          Transaction.UserID existing = userID →
          e = ErrCannotDeleteMonobank ∧ w' = w)).
Proof.
  intros Hget Hext. split.
  - intros transaction Hid.
    unfold App_transactionService.UpdateTransaction, bind at 1, on_error at 1.
    rewrite Hid.
    destruct (fault env (OpTxGetByID (Transaction.ID existing))) eqn:Hf.
    + destruct (tx_GetByID_fails env _ w Hf) as (w1 & -> & Hdb).
      eexists _, _. split; [reflexivity|]. split; [exact Hdb|]. done.
    + rewrite tx_GetByID_run, Hget by done.
      destruct (bool_decide (Transaction.UserID existing = userID)) eqn:Hu; simpl.
      * rewrite bool_decide_eq_false_2 by done. simpl.
        eexists _, _. split; [reflexivity|]. done.
      * apply bool_decide_eq_false in Hu.
        eexists _, _. split; [reflexivity|]. done.
  - unfold App_transactionService.DeleteTransaction, bind at 1, on_error at 1.
    destruct (fault env (OpTxGetByID (Transaction.ID existing))) eqn:Hf.
    + destruct (tx_GetByID_fails env _ w Hf) as (w1 & -> & Hdb).
      eexists _, _. split; [reflexivity|]. split; [exact Hdb|]. done.
    + rewrite tx_GetByID_run, Hget by done.
      destruct (bool_decide (Transaction.UserID existing = userID)) eqn:Hu; simpl.
      * rewrite bool_decide_eq_false_2 by done. simpl.
        eexists _, _. split; [reflexivity|]. done.
      * apply bool_decide_eq_false in Hu.
        eexists _, _. split; [reflexivity|]. done.
Qed.

Lemma monobank_transactions_are_immutable_witness :
  (∀ amount,
     App_transactionService.UpdateTransaction Examples.env0 Examples.alice
       (Transaction.with_ID 5%N (Examples.manual "expense" amount))
       ImportedExample.w1
     = (Err ErrCannotModifyMonobank, ImportedExample.w1))
  ∧ App_transactionService.DeleteTransaction Examples.env0 Examples.alice 5%N
      ImportedExample.w1
    = (Err ErrCannotDeleteMonobank, ImportedExample.w1).
Proof.
  destruct (monobank_transactions_are_immutable Examples.env0 Examples.alice
              ImportedExample.imported ImportedExample.w1)
    as [Hupd Hdel]; [reflexivity | discriminate |].
  split.
  - intros amount.
    destruct (Hupd (Transaction.with_ID 5%N (Examples.manual "expense" amount)))
      as (e & w' & E & _ & H); [reflexivity|].
    destruct H as [-> ->]; [reflexivity | reflexivity | exact E].
  - destruct Hdel as (e & w' & E & _ & H).
    destruct H as [-> ->]; [reflexivity | reflexivity | exact E].
Defined.

Lemma keeps_db_cards {A} (m : M A) : keeps_db m → keeps_cards m.
Proof. intros H w r w' E. by rewrite (H _ _ _ E). Qed.

Lemma keeps_cards_bind {A B} (m : M A) (k : A → M B) :
  keeps_cards m → (∀ a, keeps_cards (k a)) → keeps_cards (bind m k).
Proof.
  intros Hm Hk w r w' E. unfold bind in E.
  destruct (m w) as [[a|e] w1] eqn:Em.
  - rewrite (Hk _ _ _ _ E). eapply Hm, Em.
  - injection E as <- <-. eapply Hm, Em.
Qed.

Lemma keeps_cards_on_error {A} (m : M A) msg wr :
  keeps_cards m → keeps_cards (on_error m msg wr).
Proof.
  intros Hm w r w' E. unfold on_error in E.
  destruct (m w) as [[a|e] w1] eqn:Em.
  - injection E as <- <-. eapply Hm, Em.
  - destruct msg as [[s k]|]; injection E as <- <-; simpl; eapply Hm, Em.
Qed.

Section UpdateDelete.
Context (env : Env).

Lemma repository_Update_keeps_cards x :
  keeps_cards (App_transactionRepository.Update env x).
Proof.
  intros w r w' E.
  unfold App_transactionRepository.Update, bind, on_error, guard_op,
    get_db, put_db, fail, ret in E.
  repeat case_match; simplify_eq; done.
Qed.

Lemma repository_Delete_keeps_cards tid :
  keeps_cards (App_transactionRepository.Delete env tid).
Proof.
  intros w r w' E.
  unfold App_transactionRepository.Delete, bind, on_error, guard_op,
    get_db, put_db, fail, ret in E.
  repeat case_match; simplify_eq; done.
Qed.

Lemma UpdateTransaction_keeps_cards userID transaction :
  keeps_cards (App_transactionService.UpdateTransaction env userID transaction).
Proof.
  unfold App_transactionService.UpdateTransaction.
  apply keeps_cards_bind; [auto using keeps_db_cards with ledger|].
  intros [existing|]; [|auto using keeps_db_cards with ledger].
  repeat case_match; try (apply keeps_db_cards; auto with ledger; fail).
  apply keeps_cards_bind; [auto using keeps_db_cards with ledger|].
  intros [card|]; [|auto using keeps_db_cards with ledger].
  apply keeps_cards_bind; [apply keeps_db_cards, verifyCategory_keeps|].
  intros _.
  apply keeps_cards_bind; [apply keeps_db_cards, validateTransaction_keeps|].
  intros _.
  apply keeps_cards_on_error, repository_Update_keeps_cards.
Qed.

Lemma DeleteTransaction_keeps_cards userID tid :
  keeps_cards (App_transactionService.DeleteTransaction env userID tid).
Proof.
  unfold App_transactionService.DeleteTransaction.
  apply keeps_cards_bind; [auto using keeps_db_cards with ledger|].
  intros [existing|]; [|auto using keeps_db_cards with ledger].
  repeat case_match; try (apply keeps_db_cards; auto with ledger; fail).
  apply keeps_cards_on_error, repository_Delete_keeps_cards.
Qed.
End UpdateDelete.

(** C3, as the code behaves. After the expense of 300 is created the card
    stands at 700. Raising the amount to 500 succeeds and rewrites the row,
    and the card still stands at 700, where the reapplied delta would give
    500; deleting the transaction succeeds and removes the row, and the card
    still stands at 700, where reversing the effect would give 1000. Neither
    [UpdateTransaction] nor [DeleteTransaction] ever writes a card. *)
Theorem update_and_delete_leave_the_balance :
  (App_transactionService.CreateTransaction Examples.env0 Examples.alice
     (Examples.manual "expense" 300) Examples.w0).2 = ManualExample.w1
  ∧ (let r := App_transactionService.UpdateTransaction Examples.env0 Examples.alice
                (Transaction.with_ID 1%N (Examples.manual "expense" 500))
                ManualExample.w1 in
     r.1 = Ok tt
     ∧ Transaction.Amount <$> transactions (db r.2) = [500]
     ∧ ManualExample.balance_of r.2 = Some 700)
  ∧ (let r := App_transactionService.DeleteTransaction Examples.env0 Examples.alice
                1%N ManualExample.w1 in
     r.1 = Ok tt
     ∧ transactions (db r.2) = []
     ∧ ManualExample.balance_of r.2 = Some 700)
  ∧ (∀ env userID transaction w r w',
       App_transactionService.UpdateTransaction env userID transaction w = (r, w') →
       cards (db w') = cards (db w))
  ∧ (∀ env userID tid w r w',
       App_transactionService.DeleteTransaction env userID tid w = (r, w') →
       cards (db w') = cards (db w)).
Proof.
  split; [vm_compute; reflexivity|].
  split; [vm_compute; done|].
  split; [vm_compute; done|].
  split.
  - intros. by eapply UpdateTransaction_keeps_cards.
  - intros. by eapply DeleteTransaction_keeps_cards.
Qed.

(** ** Provider synchronisation *)

(** *** Conversion of a statement item *)





(** *** Webhooks *)

(** C9, where the claim fails: the service of [backend/app] logs the
    unknown type and then returns an error. *)
Lemma legacy_webhook_rejects_unknown_types :
  (App_monobankService.HandleWebhook Examples.env0
     (Envelope "Ping" DataMalformed) Examples.w0).1
  = Err (ErrUnknownWebhookType "Ping").
Proof. reflexivity. Qed.

(** C9, amended. Given a well-formed envelope whose type is not
    ["StatementItem"], both services log the unknown type and leave the
    database untouched, whatever the data; [MonobankService.HandleWebhook]
    returns success, the [HandleWebhook] of [backend/app] returns the
    "unknown webhook type" error. *)
Theorem HandleWebhook_unknown_type env txRepo_Create type data w :
  type ≠ "StatementItem" →
  let logged :=
    mkWorld (db w) (log w ++ [mkLog LWarn "Unknown webhook type" (KStr type)]) in
  MonobankService.HandleWebhook env txRepo_Create (Envelope type data) w
  = (Ok tt, logged)
  ∧ App_monobankService.HandleWebhook env (Envelope type data) w
    = (Err (ErrUnknownWebhookType type), logged).
Proof.
  intros Hty. simpl.
  unfold MonobankService.HandleWebhook, App_monobankService.HandleWebhook.
  rewrite !bool_decide_eq_false_2 by done. done.
Qed.

Lemma HandleWebhook_unknown_type_witness :
  (MonobankService.HandleWebhook Examples.env0
     (App_transactionRepository.Create Examples.env0)
     (Envelope "Ping" DataMalformed) Examples.w0).1 = Ok tt
  ∧ db (MonobankService.HandleWebhook Examples.env0
          (App_transactionRepository.Create Examples.env0)
          (Envelope "Ping" DataMalformed) Examples.w0).2 = Examples.db0.
Proof.
  destruct (HandleWebhook_unknown_type Examples.env0
              (App_transactionRepository.Create Examples.env0)
              "Ping" DataMalformed Examples.w0) as [E _]; [discriminate|].
  rewrite E. split; reflexivity.
Defined.

Lemma never_fails_ret {A} (a : A) : never_fails (ret a).
Proof. intros w. by eexists _, _. Qed.

Lemma never_fails_swallow {A} (m : M A) s k : never_fails (swallow m s k).
Proof. intros w. unfold swallow. destruct (m w) as [[a|e] w1]; by eexists _, _. Qed.

Lemma never_fails_bind {A B} (m : M A) (k : A → M B) :
  never_fails m → (∀ a, never_fails (k a)) → never_fails (bind m k).
Proof.
  intros Hm Hk w. destruct (Hm w) as (a & w1 & E). unfold bind. rewrite E.
  apply Hk.
Qed.

(** *** Polling *)

Section Sync.
Context (env : Env) (txRepo_Create : Transaction.t → M unit).

(** The processing loop never returns an error. *)
Lemma processTransactions_total card l :
  never_fails (MonobankService.processTransactions env txRepo_Create card l).
Proof.
  induction l as [|monoTx rest IH]; simpl; [apply never_fails_ret|].
  apply never_fails_bind; [|done].
  apply never_fails_bind; [apply never_fails_swallow|].
  intros [[existing|]|]; try apply never_fails_ret.
  apply never_fails_bind; [apply never_fails_swallow|].
  intros _. apply never_fails_ret.
Qed.

Lemma tx_GetByCardID_keeps cid limit offset :
  keeps_db (App_transactionRepository.GetByCardID env cid limit offset).
Proof. unfold App_transactionRepository.GetByCardID. auto 10 with ledger. Qed.

Lemma tx_GetByCardID_quiet cid limit offset :
  quiet (App_transactionRepository.GetByCardID env cid limit offset).
Proof. unfold App_transactionRepository.GetByCardID. auto 10 with ledger. Qed.

(** A card's sync can only fail before it has written anything. *)
Lemma syncCardTransactions_fails card token w e w' :
  MonobankService.syncCardTransactions env txRepo_Create card token w = (Err e, w') →
  db w' = db w.
Proof.
  unfold MonobankService.syncCardTransactions, bind at 1. intros E.
  destruct (on_error _ _ _ w) as [[lastTx|e1] w1] eqn:E1.
  - apply on_error_Ok, tx_GetByCardID_quiet in E1 as ->.
    cbv zeta in E.
    destruct (provider env token _ _) as [| |status body];
      try (by injection E as <- <-).
    repeat case_bool_decide; simpl in E; try (by injection E as <- <-).
    destruct body as [|items]; [by injection E as <- <-|].
    destruct (processTransactions_total card items w) as ([] & w2 & E2).
    rewrite E2 in E. done.
  - injection E as <- <-.
    eapply keeps_db_on_error, E1. apply tx_GetByCardID_keeps.
Qed.

Lemma syncCards_total cards token :
  never_fails (MonobankService.syncCards env txRepo_Create cards token).
Proof.
  induction cards as [|card rest IH]; simpl; [apply never_fails_ret|].
  apply never_fails_bind; [|done].
  case_match; [|apply never_fails_ret].
  apply never_fails_bind; [apply never_fails_swallow|].
  intros _. apply never_fails_ret.
Qed.

Lemma syncCards_app before after token w wa :
  MonobankService.syncCards env txRepo_Create before token w = (Ok tt, wa) →
  MonobankService.syncCards env txRepo_Create (before ++ after) token w
  = MonobankService.syncCards env txRepo_Create after token wa.
Proof.
  revert w. induction before as [|card rest IH]; intros w; simpl.
  - by intros [= ->].
  - unfold bind at 1 3.
    match goal with
    | |- context [match ?m w with _ => _ end] =>
        destruct (m w) as [[[]|e] w1]; [|done]
    end.
    apply IH.
Qed.

Lemma cards_GetByUserID_run userID w :
  fault env (OpCardGetByUserID userID) = false →
  cardRepository.GetByUserID env userID w
  = (Ok (filter (fun c => Card.UserID c = userID)
                (map_to_list (cards (db w))).*2), w).
Proof.
  intros Hf. unfold cardRepository.GetByUserID, bind, on_error, guard_op.
  by rewrite Hf.
Qed.

Lemma SyncUserData_run userID integration w :
  fault env (OpIntegrationGetByUserID userID) = false →
  integrations (db w) !! userID = Some integration →
  fault env (OpCardGetByUserID userID) = false →
  MonobankService.SyncUserData env txRepo_Create userID w
  = MonobankService.syncCards env txRepo_Create
      (filter (fun c => Card.UserID c = userID)
              (map_to_list (cards (db w))).*2)
      (MonobankIntegration.Token integration) w.
Proof.
  intros Hi Hint Hc. unfold MonobankService.SyncUserData.
  erewrite bind_run; last first.
  { apply on_error_run.
    unfold monobankIntegrationRepository.GetByUserID, bind, on_error, guard_op.
    rewrite Hi. reflexivity. }
  rewrite Hint.
  erewrite bind_run; [reflexivity|].
  by apply on_error_run, cards_GetByUserID_run.
Qed.
End Sync.

(** C8. With the integration and the card list read, [SyncUserData] returns
    success whatever happens to the single cards. When the sync of a
    provider card fails, for a provider error or a storage error, the
    database is as the cards before it left it, the failure is logged, and
    the call goes on to sync the cards after it from there: its result is
    the result of the loop over the remaining cards. *)
Theorem SyncUserData_isolates_card_failures
    env txRepo_Create userID integration w :
  fault env (OpIntegrationGetByUserID userID) = false →
  integrations (db w) !! userID = Some integration →
  fault env (OpCardGetByUserID userID) = false →
  let token := MonobankIntegration.Token integration in
  (∃ w', MonobankService.SyncUserData env txRepo_Create userID w = (Ok tt, w'))
  ∧ ∀ before card after wa e wf,
      filter (fun c => Card.UserID c = userID) (map_to_list (cards (db w))).*2
      = (before ++ card :: after)%list →
      Card.IsManual card = false →
      Card.MonobankAccountID card ≠ "" →
      MonobankService.syncCards env txRepo_Create before token w = (Ok tt, wa) →
      MonobankService.syncCardTransactions env txRepo_Create card token wa
      = (Err e, wf) →
      db wf = db wa
      ∧ MonobankService.SyncUserData env txRepo_Create userID w
        = MonobankService.syncCards env txRepo_Create after token
            (mkWorld (db wa)
               (log wf ++ [mkLog LError "Failed to sync card transactions"
                                 (KId (Card.ID card))])).
Proof.
  intros Hi Hint Hc token.
  rewrite (SyncUserData_run env txRepo_Create userID integration w Hi Hint Hc).
  split.
  - destruct (syncCards_total env txRepo_Create
                (filter (fun c => Card.UserID c = userID)
                        (map_to_list (cards (db w))).*2) token w)
      as ([] & w' & E).
    by exists w'.
  - intros before card after wa e wf Hcards Hman Hacc Hbefore Hfail.
    pose proof (syncCardTransactions_fails _ _ _ _ _ _ _ Hfail) as Hdb.
    split; [done|].
    rewrite Hcards, (syncCards_app _ _ _ _ _ _ _ Hbefore). simpl.
    rewrite Hman, bool_decide_eq_false_2 by done. simpl.
    unfold bind at 1. unfold bind at 1. unfold swallow.
    fold token. rewrite Hfail. simpl. by rewrite Hdb.
Qed.

Lemma SyncUserData_isolates_card_failures_witness :
  PartialFailureExample.result.1 = Ok tt
  ∧ Transaction.MonobankID <$> transactions (db PartialFailureExample.result.2)
    = ["mono-tx-1"]
  ∧ log PartialFailureExample.result.2
    = [mkLog LError "Failed to sync card transactions" (KId 12%N)].
Proof.
  assert (fault PartialFailureExample.env1 (OpIntegrationGetByUserID Examples.alice)
          = false) as H1 by reflexivity.
  assert (integrations (db Examples.w0) !! Examples.alice
          = Some Examples.integration) as H2 by reflexivity.
  assert (fault PartialFailureExample.env1 (OpCardGetByUserID Examples.alice)
          = false) as H3 by reflexivity.
  pose proof (SyncUserData_isolates_card_failures PartialFailureExample.env1
                (App_transactionRepository.Create PartialFailureExample.env1)
                Examples.alice Examples.integration Examples.w0 H1 H2 H3) as H.
  cbv zeta in H. destruct H as [_ H].
  destruct (H [Examples.cash] Examples.white [Examples.black] Examples.w0
              (Detail ErrMonobankAPIError "status") Examples.w0)
    as [_ E]; [vm_compute; reflexivity | reflexivity | discriminate
              | reflexivity | reflexivity |].
  unfold PartialFailureExample.result. rewrite E.
  vm_compute. repeat split; reflexivity.
Defined.

(** ** The category tree *)

(** *** Creation *)

Lemma nameTaken_true name (l : list Category.t) c :
  c ∈ l → Category.Name c = name → categoryService.nameTaken name l = true.
Proof.
  intros Hin Hname. induction Hin as [c l|c c' l Hin IH]; simpl.
  - by rewrite bool_decide_eq_true_2.
  - case_bool_decide; auto.
Qed.

Lemma owned_category_listed (d : DB) k (c : Category.t) :
  categories d !! k = Some c →
  c ∈ filter (fun x => Category.UserID x = Category.UserID c)
            (map_to_list (categories d)).*2.
Proof.
  intros Hk. apply list_elem_of_filter. split; [done|].
  apply list_elem_of_fmap. exists (k, c). split; [done|].
  by apply elem_of_map_to_list.
Qed.

Section CategoryCreate.
Context (env : Env).

Lemma user_GetByID_quiet id : quiet (userRepository.GetByID env id).
Proof. unfold userRepository.GetByID. auto 10 with ledger. Qed.

Lemma user_GetByID_run id w :
  fault env (OpUserGetByID id) = false →
  userRepository.GetByID env id w
  = (Ok (if bool_decide (id ∈ users (db w)) then Some id else None), w).
Proof.
  intros Hf. unfold userRepository.GetByID, bind, on_error, guard_op.
  by rewrite Hf.
Qed.

Lemma category_GetByUserID_quiet u : quiet (categoryRepository.GetByUserID env u).
Proof. unfold categoryRepository.GetByUserID. auto 10 with ledger. Qed.

Lemma category_GetByUserID_run u w :
  fault env (OpCategoryGetByUserID u) = false →
  categoryRepository.GetByUserID env u w
  = (Ok (filter (fun c => Category.UserID c = u)
                (map_to_list (categories (db w))).*2), w).
Proof.
  intros Hf. unfold categoryRepository.GetByUserID, bind, on_error, guard_op.
  by rewrite Hf.
Qed.

Lemma category_GetByUserID_Ok u w l w' :
  categoryRepository.GetByUserID env u w = (Ok l, w') →
  w' = w ∧ l = filter (fun c => Category.UserID c = u)
                      (map_to_list (categories (db w))).*2.
Proof.
  intros E. pose proof (category_GetByUserID_quiet _ _ _ _ E) as ->.
  split; [done|].
  unfold categoryRepository.GetByUserID in E.
  apply bind_Ok in E as (? & w1 & E1 & E2).
  apply on_error_Ok, guard_op_Ok in E1 as [_ ->].
  by injection E2 as <-.
Qed.

Lemma validateCategory_quiet c : quiet (categoryService.validateCategory c).
Proof.
  unfold categoryService.validateCategory. case_match; auto with ledger.
Qed.

(** A failed [Create] has written nothing. *)
Lemma category_Create_atomic category :
  atomic (categoryService.Create env category).
Proof.
  intros w e w' E.
  unfold categoryService.Create, categoryService.validateCategory,
    userRepository.GetByID, categoryRepository.GetByUserID,
    categoryRepository.Create, logw,
    bind, on_error, guard_op, get_db, put_db, ret, fail in E.
  repeat (case_match; simplify_eq; simpl in * ); done.
Qed.

Lemma category_Create_duplicate_not_Ok category k existing w u w' :
  categories (db w) !! k = Some existing →
  Category.UserID existing = Category.UserID category →
  Category.Name existing = Category.Name category →
  categoryService.Create env category w ≠ (Ok u, w').
Proof.
  intros Hk Hu Hn E.
  pose proof (nameTaken_true _ _ _ (owned_category_listed _ _ _ Hk) Hn) as Ht.
  rewrite Hu in Ht.
  unfold categoryService.Create in E.
  apply bind_Ok in E as (? & w1 & E1 & E).
  apply on_error_Ok, validateCategory_quiet in E1 as ->.
  apply bind_Ok in E as (user & w1 & E1 & E).
  apply on_error_Ok, user_GetByID_quiet in E1 as ->.
  destruct user; [|done].
  apply bind_Ok in E as (l & w1 & E1 & E).
  apply on_error_Ok, category_GetByUserID_Ok in E1 as [-> ->].
  by rewrite Ht in E.
Qed.
End CategoryCreate.

(** C10. When the owner already has a category of that name, whatever the
    types and parents of the two, [Create] fails and writes nothing; once
    the validation passed and the user and the owner's categories were read,
    the error is [ErrCategoryAlreadyExists] and nothing at all changed. *)
Theorem Create_rejects_duplicate_name env category k existing w :
  categories (db w) !! k = Some existing →
  Category.UserID existing = Category.UserID category →
  Category.Name existing = Category.Name category →
  ∃ e w',
    categoryService.Create env category w = (Err e, w')
    ∧ db w' = db w
    ∧ (Category.UserID category ≠ uuid_Nil →
       Category.Name category ≠ "" →
       Category.Type_ category ≠ "" →
       fault env (OpUserGetByID (Category.UserID category)) = false →
       Category.UserID category ∈ users (db w) →
       fault env (OpCategoryGetByUserID (Category.UserID category)) = false →
       e = ErrCategoryAlreadyExists ∧ w' = w).
Proof.
  intros Hk Hu Hn.
  destruct (categoryService.Create env category w) as [[u|e] w'] eqn:E.
  { exfalso. by eapply category_Create_duplicate_not_Ok. }
  exists e, w'. split; [done|]. split; [eapply category_Create_atomic, E|].
  intros H1 H2 H3 Hfu Huser Hfc.
  pose proof (nameTaken_true _ _ _ (owned_category_listed _ _ _ Hk) Hn) as Ht.
  rewrite Hu in Ht.
  unfold categoryService.Create in E.
  erewrite bind_run in E; last first.
  { apply on_error_run. unfold categoryService.validateCategory.
    rewrite !bool_decide_eq_false_2 by done. reflexivity. }
  erewrite bind_run in E; last first.
  { apply on_error_run, user_GetByID_run, Hfu. }
  rewrite bool_decide_eq_true_2 in E by done.
  erewrite bind_run in E; last first.
  { apply on_error_run, category_GetByUserID_run, Hfc. }
  rewrite Ht in E. by injection E as <- <-.
Qed.

(** "Groceries" exists as an expense under Food; an income category of
    that name at the root is rejected all the same. *)
Lemma Create_rejects_duplicate_name_witness :
  categoryService.Create Examples.env0
    (CategoryExample.cat uuid_Nil "Groceries" None "income") CategoryExample.wc
  = (Err ErrCategoryAlreadyExists, CategoryExample.wc).
Proof.
  destruct (Create_rejects_duplicate_name Examples.env0
              (CategoryExample.cat uuid_Nil "Groceries" None "income") 31%N
              (CategoryExample.cat 31%N "Groceries" (Some 30%N) "expense")
              CategoryExample.wc)
    as (e & w' & E & _ & H); [reflexivity | reflexivity | reflexivity |].
  destruct H as [-> ->];
    [discriminate | discriminate | discriminate | reflexivity
    | vm_compute; set_solver | reflexivity | exact E].
Defined.

(** *** The hierarchy *)

Section HierarchyFacts.
Context (m : gmap UUID Category.t).

Lemma parent_of_Some x p :
  parent_of m x = Some p ↔ ∃ c, m !! x = Some c ∧ Category.ParentID c = Some p.
Proof.
  unfold parent_of. destruct (m !! x) as [c|]; simpl.
  - split; [eauto|]. by intros (c' & [= <-] & ?).
  - split; [done|]. by intros (c' & ? & ?).
Qed.

Lemma parent_of_lookup x c : m !! x = Some c → parent_of m x = Category.ParentID c.
Proof. unfold parent_of. by intros ->. Qed.

(** Going one more step up from an ancestor. *)
Lemma ancestor_top c v p : ancestor m c v → parent_of m c = Some p → ancestor m p v.
Proof.
  intros H Hp. induction H as [v Hv|v q Hv _ IH].
  - eapply ancestor_step; [exact Hv|]. by apply ancestor_parent.
  - eapply ancestor_step; [exact Hv|]. exact IH.
Qed.

(** A chain that terminates does not come back to where it started. *)
Lemma terminates_irrefl x : terminates m x → ¬ ancestor m x x.
Proof.
  induction 1 as [x Hx|x p Hx _ IH]; intros Ha.
  - inversion Ha; congruence.
  - apply IH. inversion Ha as [y Hy|y q Hy Hq]; subst.
    + assert (p = x) as -> by congruence. exact Ha.
    + assert (q = p) as -> by congruence. by eapply ancestor_top.
Qed.
End HierarchyFacts.

Section Walks.
Context (env : Env).
Context (Hread : ∀ id, fault env (OpCategoryGetByID id) = false).

Lemma category_GetByID_run id w :
  categoryRepository.GetByID env id w = (Ok (categories (db w) !! id), w).
Proof.
  unfold categoryRepository.GetByID, bind, on_error, guard_op.
  by rewrite Hread.
Qed.

(** The walk of the service finds the category among the ancestors. *)
Lemma ancestorLoop_finds w categoryID x :
  ancestor (categories (db w)) categoryID x →
  ∀ current, categories (db w) !! x = Some current →
  ∃ n, ∀ fuel, (n <= fuel)%nat →
    categoryService.ancestorLoop env fuel categoryID current w
    = Some (Ok true, w).
Proof.
  induction 1 as [x Hx|x p Hx Hp IH]; intros current Hc.
  - exists 1%nat. intros [|fuel] Hf; [lia|]. simpl.
    rewrite (parent_of_lookup _ _ _ Hc) in Hx. rewrite Hx.
    by rewrite bool_decide_eq_true_2.
  - rewrite (parent_of_lookup _ _ _ Hc) in Hx.
    assert (∃ cp, categories (db w) !! p = Some cp) as [cp Hcp].
    { inversion Hp as [y Hy|y q Hy _]; subst;
        apply parent_of_Some in Hy as (c & ? & _); eauto. }
    destruct (IH cp Hcp) as [n Hn].
    exists (S n). intros [|fuel] Hf; [lia|]. simpl. rewrite Hx.
    case_bool_decide; [done|].
    rewrite category_GetByID_run, Hcp. apply Hn. lia.
Qed.

(** On a chain that terminates without meeting the category, the walk
    ends with [false]. *)
Lemma ancestorLoop_clear w categoryID x :
  terminates (categories (db w)) x →
  ¬ ancestor (categories (db w)) categoryID x →
  ∀ current, categories (db w) !! x = Some current →
  ∃ n, ∀ fuel, (n <= fuel)%nat →
    categoryService.ancestorLoop env fuel categoryID current w
    = Some (Ok false, w).
Proof.
  induction 1 as [x Hx|x p Hx Hp IH]; intros Hna current Hc;
    rewrite (parent_of_lookup _ _ _ Hc) in Hx.
  - exists 1%nat. intros [|fuel] Hf; [lia|]. simpl. by rewrite Hx.
  - assert (p ≠ categoryID) as Hne.
    { intros ->. apply Hna, ancestor_parent.
      by rewrite (parent_of_lookup _ _ _ Hc). }
    assert (¬ ancestor (categories (db w)) categoryID p) as Hnp.
    { intros Ha. apply Hna. eapply ancestor_step; [|exact Ha].
      by rewrite (parent_of_lookup _ _ _ Hc). }
    destruct (categories (db w) !! p) as [cp|] eqn:Hcp.
    + destruct (IH Hnp cp eq_refl) as [n Hn].
      exists (S n). intros [|fuel] Hf; [lia|]. simpl. rewrite Hx.
      rewrite bool_decide_eq_false_2 by done.
      rewrite category_GetByID_run, Hcp. apply Hn. lia.
    + exists 1%nat. intros [|fuel] Hf; [lia|]. simpl. rewrite Hx.
      rewrite bool_decide_eq_false_2 by done.
      by rewrite category_GetByID_run, Hcp.
Qed.

Lemma wouldCreateCircularReference_true w categoryID newParentID parent :
  categories (db w) !! newParentID = Some parent →
  categoryID = newParentID ∨ ancestor (categories (db w)) categoryID newParentID →
  ∃ n, ∀ fuel, (n <= fuel)%nat →
    categoryService.wouldCreateCircularReference env fuel categoryID newParentID w
    = Some (Ok true, w).
Proof.
  intros Hp H. unfold categoryService.wouldCreateCircularReference.
  destruct (decide (categoryID = newParentID)) as [->|Hne].
  - exists 0%nat. intros fuel _. by rewrite bool_decide_eq_true_2.
  - destruct H as [?|Ha]; [done|].
    destruct (ancestorLoop_finds w categoryID newParentID Ha parent Hp) as [n Hn].
    exists n. intros fuel Hf. rewrite bool_decide_eq_false_2 by done.
    rewrite category_GetByID_run, Hp. by apply Hn.
Qed.

Lemma wouldCreateCircularReference_false w categoryID newParentID parent :
  categories (db w) !! newParentID = Some parent →
  categoryID ≠ newParentID →
  terminates (categories (db w)) newParentID →
  ¬ ancestor (categories (db w)) categoryID newParentID →
  ∃ n, ∀ fuel, (n <= fuel)%nat →
    categoryService.wouldCreateCircularReference env fuel categoryID newParentID w
    = Some (Ok false, w).
Proof.
  intros Hp Hne Ht Hna. unfold categoryService.wouldCreateCircularReference.
  destruct (ancestorLoop_clear w categoryID newParentID Ht Hna parent Hp) as [n Hn].
  exists n. intros fuel Hf. rewrite bool_decide_eq_false_2 by done.
  rewrite category_GetByID_run, Hp. by apply Hn.
Qed.
End Walks.

Section RepositoryCheck.
Context (env : Env).

(** When the check of the repository passes, the chain from the candidate
    parent terminates and never meets the category. *)
Lemma checkLoop_sound fuel categoryID parentID visited current w u w' :
  categoryRepository.checkLoop env fuel categoryID parentID visited current w
  = Some (Ok u, w') →
  w' = w
  ∧ current ≠ categoryID
  ∧ ¬ ancestor (categories (db w)) categoryID current
  ∧ terminates (categories (db w)) current.
Proof.
  revert visited current.
  induction fuel as [|fuel IH]; intros visited current E; [done|].
  simpl in E. case_bool_decide as Hne; [done|].
  destruct (fault env (OpCategoryFirst current)); [done|].
  destruct (categories (db w) !! current) as [parent|] eqn:Hc.
  - destruct (Category.ParentID parent) as [p|] eqn:Hp.
    + case_bool_decide; [done|].
      apply IH in E as (-> & Hpne & Hna & Ht).
      assert (parent_of (categories (db w)) current = Some p) as Hpo
        by (by rewrite (parent_of_lookup _ _ _ Hc)).
      split; [done|]. split; [done|]. split; [|by eapply terminates_step].
      intros Ha. inversion Ha as [y Hy|y q Hy Hq]; subst; congruence.
    + injection E as <-.
      assert (parent_of (categories (db w)) current = None) as Hpo
        by (by rewrite (parent_of_lookup _ _ _ Hc)).
      split; [done|]. split; [done|]. split; [|by apply terminates_root].
      intros Ha. inversion Ha; congruence.
  - injection E as <-.
    assert (parent_of (categories (db w)) current = None) as Hpo
      by (unfold parent_of; by rewrite Hc).
    split; [done|]. split; [done|]. split; [|by apply terminates_root].
    intros Ha. inversion Ha; congruence.
Qed.

Context (Hfirst : ∀ id, fault env (OpCategoryFirst id) = false).

(** On a chain that terminates without meeting the category the check
    passes: the revisit guard does not fire. *)
Lemma checkLoop_complete w categoryID parentID current :
  terminates (categories (db w)) current →
  ∀ visited,
    current ≠ categoryID →
    ¬ ancestor (categories (db w)) categoryID current →
    (∀ v, v ∈ visited → ancestor (categories (db w)) current v) →
    ∃ n, ∀ fuel, (n <= fuel)%nat →
      categoryRepository.checkLoop env fuel categoryID parentID visited current w
      = Some (Ok tt, w).
Proof.
  induction 1 as [x Hx|x p Hx Hp IH]; intros visited Hne Hna Hvis.
  - exists 1%nat. intros [|fuel] Hf; [lia|]. simpl.
    rewrite bool_decide_eq_false_2, Hfirst by done.
    destruct (categories (db w) !! x) as [c|] eqn:Hc; [|done].
    rewrite (parent_of_lookup _ _ _ Hc) in Hx. by rewrite Hx.
  - pose proof Hx as Hx'. apply parent_of_Some in Hx' as (c & Hc & Hcp).
    assert (terminates (categories (db w)) x) as Htx
      by (by eapply terminates_step).
    assert (p ∉ ({[x]} ∪ visited : gset UUID)) as Hfresh.
    { intros [Hin|Hin]%elem_of_union.
      - apply elem_of_singleton in Hin as ->.
        by eapply terminates_irrefl, ancestor_parent.
      - eapply (terminates_irrefl _ p Hp), ancestor_top; [|exact Hx].
        by apply Hvis. }
    destruct (IH ({[x]} ∪ visited)) as [n Hn].
    + intros ->. by apply Hna, ancestor_parent.
    + intros Ha. apply Hna. by eapply ancestor_step.
    + intros v [Hin|Hin]%elem_of_union.
      * apply elem_of_singleton in Hin as ->. by apply ancestor_parent.
      * eapply ancestor_top; [|exact Hx]. by apply Hvis.
    + exists (S n). intros [|fuel] Hf; [lia|]. simpl.
      rewrite bool_decide_eq_false_2, Hfirst, Hc, Hcp by done.
      rewrite bool_decide_eq_false_2 by done. apply Hn. lia.
Qed.
End RepositoryCheck.

(** *** Re-parenting keeps the chains finite *)

Section Reparent.
Context (m : gmap UUID Category.t) (a : UUID) (moved : Category.t).

Lemma parent_of_insert_ne x :
  x ≠ a → parent_of (<[a := moved]> m) x = parent_of m x.
Proof. intros Hne. unfold parent_of. by rewrite lookup_insert_ne. Qed.

Lemma parent_of_insert_eq :
  parent_of (<[a := moved]> m) a = Category.ParentID moved.
Proof. unfold parent_of. by rewrite lookup_insert_eq. Qed.

(** A chain that avoids [a] is not changed by rewriting the row of [a]. *)
Lemma terminates_avoiding y :
  terminates m y → y ≠ a → ¬ ancestor m a y →
  terminates (<[a := moved]> m) y.
Proof.
  induction 1 as [y Hy|y p Hy Hp IH]; intros Hne Hna.
  - apply terminates_root. by rewrite parent_of_insert_ne.
  - eapply terminates_step; [by rewrite parent_of_insert_ne|].
    apply IH.
    + intros ->. by apply Hna, ancestor_parent.
    + intros Ha. apply Hna. by eapply ancestor_step.
Qed.

Lemma reparent_terminates :
  (match Category.ParentID moved with
   | Some p => p ≠ a ∧ ¬ ancestor m a p ∧ terminates m p
   | None => True
   end) →
  ∀ x, terminates m x → terminates (<[a := moved]> m) x.
Proof.
  intros Hnew.
  assert (terminates (<[a := moved]> m) a) as Ha.
  { destruct (Category.ParentID moved) as [p|] eqn:Hp.
    - destruct Hnew as (Hne & Hna & Ht).
      eapply terminates_step; [by rewrite parent_of_insert_eq|].
      by apply terminates_avoiding.
    - apply terminates_root. by rewrite parent_of_insert_eq. }
  induction 1 as [x Hx|x p Hx Hp IH].
  - destruct (decide (x = a)) as [->|Hne]; [done|].
    apply terminates_root. by rewrite parent_of_insert_ne.
  - destruct (decide (x = a)) as [->|Hne]; [done|].
    eapply terminates_step; [by rewrite parent_of_insert_ne|done].
Qed.
End Reparent.

(** *** [MoveCategory] *)

Lemma bindF_Ok {A B} (m : MF A) (k : A → MF B) w b w' :
  bindF m k w = Some (Ok b, w') →
  ∃ a w1, m w = Some (Ok a, w1) ∧ k a w1 = Some (Ok b, w').
Proof.
  unfold bindF. destruct (m w) as [[[a|e] w1]|]; [|done|done]. eauto.
Qed.

Lemma liftF_inv {A} (m : M A) w r : liftF m w = Some r → m w = r.
Proof. unfold liftF. by intros [= ->]. Qed.

Lemma bindF_run {A B} (m : MF A) (k : A → MF B) w a w1 :
  m w = Some (Ok a, w1) → bindF m k w = k a w1.
Proof. intros E. unfold bindF. by rewrite E. Qed.

Lemma category_GetByID_Ok env id w r w' :
  categoryRepository.GetByID env id w = (Ok r, w') →
  w' = w ∧ r = categories (db w) !! id.
Proof.
  intros E. pose proof (category_GetByID_quiet _ _ _ _ _ E) as ->.
  split; [done|].
  unfold categoryRepository.GetByID in E.
  apply bind_Ok in E as (u & w1 & E1 & E2).
  apply on_error_Ok, guard_op_Ok in E1 as [_ ->].
  by injection E2 as <-.
Qed.

Section Move.
Context (env : Env).

(** The walks of the service only read. *)
Lemma ancestorLoop_keeps_db fuel categoryID current w r w' :
  categoryService.ancestorLoop env fuel categoryID current w = Some (r, w') →
  db w' = db w.
Proof.
  revert current w.
  induction fuel as [|fuel IH]; intros current w E; [done|].
  simpl in E. destruct (Category.ParentID current) as [p|].
  - case_bool_decide; [by injection E as <- <-|].
    destruct (categoryRepository.GetByID env p w) as [[[next|]|e] w1] eqn:E1;
      pose proof (category_GetByID_keeps _ _ _ _ _ E1) as <-.
    + by eapply IH.
    + by injection E as <- <-.
    + by injection E as <- <-.
  - by injection E as <- <-.
Qed.

Lemma wouldCreateCircularReference_keeps_db fuel categoryID newParentID w r w' :
  categoryService.wouldCreateCircularReference env fuel categoryID newParentID w
  = Some (r, w') →
  db w' = db w.
Proof.
  unfold categoryService.wouldCreateCircularReference. intros E.
  case_bool_decide; [by injection E as <- <-|].
  destruct (categoryRepository.GetByID env newParentID w)
    as [[[parent|]|e] w1] eqn:E1;
    pose proof (category_GetByID_keeps _ _ _ _ _ E1) as <-.
  - by eapply ancestorLoop_keeps_db.
  - by injection E as <- <-.
  - by injection E as <- <-.
Qed.

(** What a successful [Update] of the repository checked and wrote. *)
Lemma repository_Update_Ok fuel category w u w' :
  categoryRepository.Update env fuel category w = Some (Ok u, w') →
  (match Category.ParentID category with
   | Some p => p ≠ Category.ID category
               ∧ ¬ ancestor (categories (db w)) (Category.ID category) p
               ∧ terminates (categories (db w)) p
   | None => True
   end)
  ∧ ∃ old,
      categories (db w) !! Category.ID category = Some old
      ∧ db w' = set_categories
                  (<[Category.ID category :=
                       categoryRepository.updated_row category old]>
                     (categories (db w))) (db w).
Proof.
  unfold categoryRepository.Update. intros E.
  apply bindF_Ok in E as ([] & w1 & E1 & E).
  assert (w1 = w
          ∧ match Category.ParentID category with
            | Some p => p ≠ Category.ID category
                        ∧ ¬ ancestor (categories (db w)) (Category.ID category) p
                        ∧ terminates (categories (db w)) p
            | None => True
            end) as [-> Hcheck].
  { destruct (Category.ParentID category) as [p|].
    - apply bindF_Ok in E1 as ([] & w2 & E1 & E2).
      apply liftF_inv in E1.
      apply bind_Ok in E1 as (parent & w3 & E1 & E3).
      apply on_error_Ok in E1.
      apply bind_Ok in E1 as ([] & w4 & G & E1).
      apply guard_op_Ok in G as [_ ->].
      apply bind_Ok in E1 as (d & w4 & G & E1). injection G as <- <-.
      destruct (categories (db w) !! p); [|done]. injection E1 as <- <-.
      case_bool_decide; [|by apply bind_Ok in E3 as (? & ? & _ & ?)].
      injection E3 as <-.
      apply checkLoop_sound in E2 as (-> & ? & ? & ?). done.
    - apply liftF_inv in E1. by injection E1 as <-. }
  split; [done|]. clear E1.
  apply liftF_inv in E.
  apply bind_Ok in E as ([] & w1 & E1 & E).
  apply on_error_Ok, guard_op_Ok in E1 as [_ ->].
  apply bind_Ok in E as (d & w1 & G & E). injection G as <- <-.
  destruct (categories (db w) !! Category.ID category) as [old|]; [|done].
  injection E as <- <-. by exists old.
Qed.

(** What a successful [MoveCategory] checked and wrote. *)
Lemma MoveCategory_Ok fuel categoryID newParentID w u w' :
  categoryService.MoveCategory env fuel categoryID newParentID w
  = Some (Ok u, w') →
  ∃ category old,
    categories (db w) !! categoryID = Some category
    ∧ categories (db w) !! Category.ID category = Some old
    ∧ (match newParentID with
       | Some p => p ≠ Category.ID category
                   ∧ ¬ ancestor (categories (db w)) (Category.ID category) p
                   ∧ terminates (categories (db w)) p
       | None => True
       end)
    ∧ db w' = set_categories
                (<[Category.ID category :=
                     categoryRepository.updated_row
                       (Category.with_ParentID newParentID category) old]>
                   (categories (db w))) (db w).
Proof.
  unfold categoryService.MoveCategory. intros E.
  apply bindF_Ok in E as (category & w1 & E1 & E).
  apply liftF_inv in E1.
  apply on_error_Ok, category_GetByID_Ok in E1 as [-> ->].
  destruct (categories (db w) !! categoryID) as [category|] eqn:Hc; [|done].
  apply bindF_Ok in E as ([] & w1 & E1 & E).
  assert (db w1 = db w) as Hdb.
  { destruct newParentID as [p|].
    - apply bindF_Ok in E1 as (parent & w2 & E1 & E2).
      apply liftF_inv in E1.
      apply on_error_Ok, category_GetByID_Ok in E1 as [-> ->].
      destruct (categories (db w) !! p); [|done].
      case_bool_decide; [|done]. simpl in E2.
      apply bindF_Ok in E2 as (circular & w2 & E2 & E3).
      apply wouldCreateCircularReference_keeps_db in E2.
      destruct circular; [done|].
      apply liftF_inv in E3. by injection E3 as <-.
    - apply liftF_inv in E1. by injection E1 as <-. }
  destruct (categoryRepository.Update env fuel
              (Category.with_ParentID newParentID category) w1)
    as [[[[]|e] w2]|] eqn:EU; [|done|done].
  injection E as <-.
  apply repository_Update_Ok in EU as (Hcheck & old & Hold & Hw).
  rewrite Hdb in *. simpl in *. subst w'.
  exists category, old. by repeat split.
Qed.
End Move.

Section MoveRuns.
Context (env : Env).
Context (Hread : ∀ id, fault env (OpCategoryGetByID id) = false).

Lemma MoveCategory_rejects w categoryID newParentID category parent :
  categories (db w) !! categoryID = Some category →
  categories (db w) !! newParentID = Some parent →
  Category.UserID parent = Category.UserID category →
  categoryID = newParentID
  ∨ ancestor (categories (db w)) categoryID newParentID →
  ∃ n, ∀ fuel, (n <= fuel)%nat →
    categoryService.MoveCategory env fuel categoryID (Some newParentID) w
    = Some (Err ErrInvalidCategoryData, w).
Proof.
  intros Hc Hp Hu Hcyc.
  destruct (wouldCreateCircularReference_true env Hread w categoryID
              newParentID parent Hp Hcyc) as [n Hn].
  exists n. intros fuel Hf.
  unfold categoryService.MoveCategory, bindF, liftF, on_error.
  rewrite category_GetByID_run, Hc by done. simpl.
  rewrite category_GetByID_run, Hp by done. simpl.
  rewrite bool_decide_eq_true_2 by done. simpl.
  by rewrite Hn.
Qed.

Context (Hfirst : ∀ id, fault env (OpCategoryFirst id) = false).
Context (Hupdate : ∀ id, fault env (OpCategoryUpdate id) = false).

Lemma MoveCategory_succeeds w categoryID newParentID category parent :
  keyed (categories (db w)) →
  categories (db w) !! categoryID = Some category →
  categories (db w) !! newParentID = Some parent →
  Category.UserID parent = Category.UserID category →
  categoryID ≠ newParentID →
  ¬ ancestor (categories (db w)) categoryID newParentID →
  terminates (categories (db w)) newParentID →
  ∃ n, ∀ fuel, (n <= fuel)%nat →
    categoryService.MoveCategory env fuel categoryID (Some newParentID) w
    = Some (Ok tt,
            mkWorld
              (set_categories
                 (<[categoryID :=
                      Category.with_ParentID (Some newParentID) category]>
                    (categories (db w))) (db w))
              (log w)).
Proof.
  intros Hkey Hc Hp Hu Hne Hna Ht.
  pose proof (Hkey _ _ Hc) as Hid.
  destruct (wouldCreateCircularReference_false env Hread w categoryID
              newParentID parent Hp Hne Ht Hna) as [n1 Hn1].
  destruct (checkLoop_complete env Hfirst w categoryID newParentID newParentID
              Ht ∅) as [n2 Hn2]; [done | done | set_solver |].
  exists (n1 `max` n2)%nat. intros fuel Hf.
  unfold categoryService.MoveCategory, bindF, liftF, on_error.
  rewrite category_GetByID_run, Hc by done. simpl.
  rewrite category_GetByID_run, Hp by done. simpl.
  rewrite bool_decide_eq_true_2 by done. simpl.
  rewrite Hn1 by lia.
  unfold categoryRepository.Update, categoryRepository.checkCategoryCircularReference,
    bindF, liftF, bind, on_error, guard_op, get_db, put_db, ret, fail. simpl.
  rewrite Hfirst, Hp, bool_decide_eq_true_2, Hid, Hn2, Hupdate, Hc by (done || lia).
  reflexivity.
Qed.
End MoveRuns.

(** The walk of the service has no memory of the nodes it has seen: on a
    category that is its own parent it goes round for ever. *)
Lemma ancestorLoop_self_parent env w categoryID x current :
  (∀ id, fault env (OpCategoryGetByID id) = false) →
  categories (db w) !! x = Some current →
  Category.ParentID current = Some x →
  x ≠ categoryID →
  ∀ fuel, categoryService.ancestorLoop env fuel categoryID current w = None.
Proof.
  intros Hread Hc Hp Hne fuel. induction fuel as [|fuel IH]; [done|].
  simpl. rewrite Hp, bool_decide_eq_false_2 by done.
  by rewrite category_GetByID_run, Hc.
Qed.

Lemma MoveCategory_self_parent env w categoryID x category current :
  (∀ id, fault env (OpCategoryGetByID id) = false) →
  categories (db w) !! categoryID = Some category →
  categories (db w) !! x = Some current →
  Category.UserID current = Category.UserID category →
  Category.ParentID current = Some x →
  categoryID ≠ x →
  ∀ fuel, categoryService.MoveCategory env fuel categoryID (Some x) w = None.
Proof.
  intros Hread Hc Hx Hu Hp Hne fuel.
  unfold categoryService.MoveCategory, bindF, liftF, on_error.
  rewrite category_GetByID_run, Hc by done. simpl.
  rewrite category_GetByID_run, Hx by done. simpl.
  rewrite bool_decide_eq_true_2 by done. simpl.
  unfold categoryService.wouldCreateCircularReference.
  rewrite bool_decide_eq_false_2 by done.
  rewrite category_GetByID_run, Hx by done.
  by rewrite (ancestorLoop_self_parent env w categoryID x current).
Qed.

(** C6, where the claim fails. The rejection of the move of A under its
    descendant C is [ErrInvalidCategoryData], not one of the
    circular-reference errors, which only the repository produces and which
    this path never hands out. And after [Create] has stored a category
    that is its own parent, which it accepts, moving A under that category
    is not rejected: the walk of the service, which has no revisit guard,
    never returns, so the guarded check of the repository is never
    reached. *)
Lemma MoveCategory_error_kind_and_unguarded_walk :
  categoryService.MoveCategory Examples.env0 10 ChainExample.A
    (Some ChainExample.C) ChainExample.wt
  = Some (Err ErrInvalidCategoryData, ChainExample.wt)
  ∧ (categoryService.Create Examples.env0 ChainExample.selfParent
       ChainExample.wt).1 = Ok tt
  ∧ ∀ fuel,
      categoryService.MoveCategory Examples.env0 fuel ChainExample.A
        (Some ChainExample.X) ChainExample.looped = None.
Proof.
  split; [vm_compute; reflexivity|]. split; [vm_compute; reflexivity|].
  apply (MoveCategory_self_parent Examples.env0 ChainExample.looped
           ChainExample.A ChainExample.X
           (ChainExample.cat ChainExample.A "A" None) ChainExample.selfParent);
    try done; vm_compute; reflexivity.
Qed.

(** C6, amended. With the category and the candidate parent stored for
    the same owner and no storage failure:
    - [MoveCategory] rejects with [ErrInvalidCategoryData], changing nothing,
      whenever the new parent is the category itself or one of its
      descendants;
    - it succeeds and sets the parent whenever the new parent is neither
      and its own parent chain terminates;
    and whenever a [MoveCategory], to a parent or to the root, under any
    storage failures, succeeds on a store in which every parent chain
    terminates, every parent chain terminates afterwards. *)
Theorem MoveCategory_cycle_prevention
    env w categoryID newParentID category parent :
  (∀ id, fault env (OpCategoryGetByID id) = false) →
  (∀ id, fault env (OpCategoryFirst id) = false) →
  (∀ id, fault env (OpCategoryUpdate id) = false) →
  keyed (categories (db w)) →
  categories (db w) !! categoryID = Some category →
  categories (db w) !! newParentID = Some parent →
  Category.UserID parent = Category.UserID category →
  (categoryID = newParentID
   ∨ ancestor (categories (db w)) categoryID newParentID →
   ∃ n, ∀ fuel, (n <= fuel)%nat →
     categoryService.MoveCategory env fuel categoryID (Some newParentID) w
     = Some (Err ErrInvalidCategoryData, w))
  ∧ (categoryID ≠ newParentID →
     ¬ ancestor (categories (db w)) categoryID newParentID →
     terminates (categories (db w)) newParentID →
     ∃ n, ∀ fuel, (n <= fuel)%nat →
       categoryService.MoveCategory env fuel categoryID (Some newParentID) w
       = Some (Ok tt,
               mkWorld
                 (set_categories
                    (<[categoryID :=
                         Category.with_ParentID (Some newParentID) category]>
                       (categories (db w))) (db w))
                 (log w)))
  ∧ (∀ env' fuel moved target u w',
       categoryService.MoveCategory env' fuel moved target w = Some (Ok u, w') →
       (∀ x, terminates (categories (db w)) x) →
       ∀ x, terminates (categories (db w')) x).
Proof.
  intros Hread Hfirst Hupdate Hkey Hc Hp Hu. split; [|split].
  - by eapply MoveCategory_rejects.
  - by eapply MoveCategory_succeeds.
  - intros env' fuel moved target u w' E Hall x.
    apply MoveCategory_Ok in E as (c & old & _ & _ & Hcheck & ->). simpl.
    apply reparent_terminates; [|done].
    simpl. exact Hcheck.
Qed.

Lemma chain_keyed : keyed ChainExample.chain.
Proof.
  intros k c H. unfold ChainExample.chain in H.
  repeat (rewrite lookup_insert in H; case_decide; [by simplify_eq|]).
  by rewrite lookup_empty in H.
Qed.

(** For the chain A, B, C: moving A under C is rejected, moving A under
    the unrelated D succeeds. *)
Lemma MoveCategory_cycle_prevention_witness :
  (∃ n, ∀ fuel, (n <= fuel)%nat →
     categoryService.MoveCategory Examples.env0 fuel ChainExample.A
       (Some ChainExample.C) ChainExample.wt
     = Some (Err ErrInvalidCategoryData, ChainExample.wt))
  ∧ (∃ n, ∀ fuel, (n <= fuel)%nat →
       ∃ w',
         categoryService.MoveCategory Examples.env0 fuel ChainExample.A
           (Some ChainExample.D) ChainExample.wt = Some (Ok tt, w')
         ∧ parent_of (categories (db w')) ChainExample.A = Some ChainExample.D).
Proof.
  split.
  - destruct (MoveCategory_cycle_prevention Examples.env0 ChainExample.wt
                ChainExample.A ChainExample.C
                (ChainExample.cat ChainExample.A "A" None)
                (ChainExample.cat ChainExample.C "C" (Some ChainExample.B)))
      as [H _]; try done; [apply chain_keyed|].
    apply H. right.
    apply ancestor_step with ChainExample.B; [reflexivity|].
    apply ancestor_parent. reflexivity.
  - destruct (MoveCategory_cycle_prevention Examples.env0 ChainExample.wt
                ChainExample.A ChainExample.D
                (ChainExample.cat ChainExample.A "A" None)
                (ChainExample.cat ChainExample.D "D" None))
      as (_ & H & _); try done; [apply chain_keyed|].
    destruct H as [n Hn].
    + discriminate.
    + intros Ha. inversion Ha as [y Hy|y q Hy Hq]; discriminate.
    + apply terminates_root. reflexivity.
    + exists n. intros fuel Hf. eexists. split; [by apply Hn|].
      simpl. unfold parent_of. by rewrite lookup_insert_eq.
Defined.

(** * Further properties *)

(** ** The ledger *)

Section LedgerMore.
Context (env : Env).

Lemma verifyCategory_Ok userID x w u w' :
  App_transactionService.verifyCategory env userID x w = (Ok u, w') →
  category_accepted (db w) userID x.
Proof.
  unfold App_transactionService.verifyCategory, category_accepted.
  destruct (Transaction.CategoryID x) as [cid|]; [|done]. intros E.
  apply bind_Ok in E as (c & w1 & E1 & E).
  apply on_error_Ok, category_GetByID_Ok in E1 as [-> ->].
  destruct (categories (db w) !! cid) as [c|]; [|done].
  repeat case_bool_decide; simpl in E; try done. eauto.
Qed.

(** What a successful [UpdateTransaction] went through and wrote. *)
Lemma UpdateTransaction_Ok userID transaction w u w' :
  App_transactionService.UpdateTransaction env userID transaction w = (Ok u, w') →
  ∃ existing card,
    head (filter (fun x => Transaction.ID x = Transaction.ID transaction)
                 (transactions (db w))) = Some existing
    ∧ Transaction.UserID existing = userID
    ∧ Transaction.MonobankID existing = ""
    ∧ cards (db w) !! Transaction.CardID existing = Some card
    ∧ category_accepted (db w) userID transaction
    ∧ 0 < Transaction.Amount transaction
    ∧ type_check (Transaction.Type_ transaction) = true
    ∧ Transaction.CurrencyCode transaction = Card.CurrencyCode card
    ∧ Transaction.Description transaction ≠ ""
    ∧ db w'
      = set_transactions
          ((fun old =>
              if bool_decide (Transaction.ID old = Transaction.ID transaction)
              then App_transactionRepository.updated_row transaction old
              else old) <$> transactions (db w)) (db w).
Proof.
  unfold App_transactionService.UpdateTransaction. intros E.
  apply bind_Ok in E as (existing & w1 & E1 & E).
  apply on_error_Ok, tx_GetByID_Ok in E1 as [-> ->].
  destruct (head _) as [existing|] eqn:Hex; [|done].
  case_bool_decide as Hu; [|done]. simpl in E.
  case_bool_decide as Hm; [|done]. simpl in E.
  apply bind_Ok in E as (card & w1 & E1 & E).
  apply on_error_Ok, card_GetByID_Ok in E1 as [-> ->].
  destruct (cards (db w) !! Transaction.CardID existing) as [card|] eqn:Hc; [|done].
  apply bind_Ok in E as ([] & w1 & E1 & E).
  pose proof (verifyCategory_quiet _ _ _ _ _ _ E1) as ->.
  apply verifyCategory_Ok in E1.
  apply bind_Ok in E as ([] & w1 & E2 & E).
  pose proof (validateTransaction_quiet _ _ _ _ _ E2) as ->.
  apply validateTransaction_Ok in E2 as (Ha & Ht & Hcur & Hd).
  apply on_error_Ok in E.
  exists existing, card. repeat (split; [done|]).
  unfold App_transactionRepository.Update, bind, on_error, guard_op,
    get_db, put_db, fail, ret in E.
  repeat (case_match; simplify_eq; simpl in * ); done.
Qed.

(** What a successful [DeleteTransaction] went through and wrote. *)
Lemma DeleteTransaction_Ok userID tid w u w' :
  App_transactionService.DeleteTransaction env userID tid w = (Ok u, w') →
  ∃ existing,
    head (filter (fun x => Transaction.ID x = tid) (transactions (db w)))
    = Some existing
    ∧ Transaction.UserID existing = userID
    ∧ Transaction.MonobankID existing = ""
    ∧ db w'
      = set_transactions
          (filter (fun x => Transaction.ID x ≠ tid) (transactions (db w))) (db w).
Proof.
  unfold App_transactionService.DeleteTransaction. intros E.
  apply bind_Ok in E as (existing & w1 & E1 & E).
  apply on_error_Ok, tx_GetByID_Ok in E1 as [-> ->].
  destruct (head _) as [existing|] eqn:Hex; [|done].
  case_bool_decide as Hu; [|done]. simpl in E.
  case_bool_decide as Hm; [|done]. simpl in E.
  apply on_error_Ok in E.
  exists existing. repeat (split; [done|]).
  unfold App_transactionRepository.Delete, bind, on_error, guard_op,
    get_db, put_db, fail, ret in E.
  repeat (case_match; simplify_eq; simpl in * ); done.
Qed.
End LedgerMore.

(** X1. A successful [CreateTransaction] leaves the card it posted to with
    a balance not below minus its credit limit (the limit itself is not
    touched). *)
Theorem CreateTransaction_keeps_credit_limit env userID transaction w u w' :
  App_transactionService.CreateTransaction env userID transaction w = (Ok u, w') →
  ∃ card card',
    cards (db w) !! Transaction.CardID transaction = Some card
    ∧ cards (db w') !! Card.ID card = Some card'
    ∧ Card.CreditLimit card' = Card.CreditLimit card
    ∧ Int64.neg (Card.CreditLimit card') <= Card.Balance card'.
Proof.
  intros E. apply CreateTransaction_Ok in E
    as (card & stored & Hc & _ & _ & _ & _ & Hle & _ & _ & _ & _ & _ & _ & Hcards & _).
  exists card, (Card.with_Balance (Transaction.BalanceAfter stored) card).
  split; [done|]. rewrite Hcards, lookup_insert_eq. done.
Qed.

Lemma CreateTransaction_keeps_credit_limit_witness :
  let r := App_transactionService.CreateTransaction Examples.env0 Examples.alice
             (Examples.manual "expense" 1000) Examples.w0 in
  r.1 = Ok tt ∧ Card.Balance <$> cards (db r.2) !! 10%N = Some 0.
Proof.
  cbv zeta.
  destruct (App_transactionService.CreateTransaction Examples.env0 Examples.alice
              (Examples.manual "expense" 1000) Examples.w0)
    as [[[]|e] w'] eqn:E; [|vm_compute in E; discriminate E].
  destruct (CreateTransaction_keeps_credit_limit _ _ _ _ _ _ E)
    as (card & card' & Hc & Hc' & _ & _).
  split; [reflexivity|].
  vm_compute in E. injection E as <-. reflexivity.
Defined.

(** X2. A successful [CreateTransaction] was made by the owner of the
    card; it appends one row, owned by the caller and on that card, rewrites
    that card only, and leaves every other card, the categories, the users
    and the integrations as they were. *)
Theorem CreateTransaction_touches_only_the_callers_card
    env userID transaction w u w' :
  App_transactionService.CreateTransaction env userID transaction w = (Ok u, w') →
  ∃ card stored,
    cards (db w) !! Transaction.CardID transaction = Some card
    ∧ Card.UserID card = userID
    ∧ transactions (db w') = (transactions (db w) ++ [stored])%list
    ∧ Transaction.UserID stored = userID
    ∧ Transaction.CardID stored = Transaction.CardID transaction
    ∧ (∀ k, k ≠ Card.ID card → cards (db w') !! k = cards (db w) !! k)
    ∧ (Card.UserID <$> cards (db w') !! Card.ID card) = Some userID
    ∧ categories (db w') = categories (db w)
    ∧ users (db w') = users (db w)
    ∧ integrations (db w') = integrations (db w).
Proof.
  intros E. apply CreateTransaction_Ok in E
    as (card & stored & Hc & Hu & _ & _ & _ & _ & HC & HU & _ & _ & _ & Htx
        & Hcards & Hcat & Husers & Hint).
  exists card, stored. repeat (split; [done|]).
  split; [|split; [|done]].
  - intros k Hk. by rewrite Hcards, lookup_insert_ne.
  - rewrite Hcards, lookup_insert_eq. simpl. by rewrite Hu.
Qed.

Lemma CreateTransaction_touches_only_the_callers_card_witness :
  let r := App_transactionService.CreateTransaction Examples.env0 Examples.alice
             (Examples.manual "income" 5) Examples.w0 in
  r.1 = Ok tt
  ∧ cards (db r.2) !! 11%N = Some Examples.black
  ∧ cards (db r.2) !! 12%N = Some Examples.white.
Proof.
  cbv zeta.
  destruct (App_transactionService.CreateTransaction Examples.env0 Examples.alice
              (Examples.manual "income" 5) Examples.w0)
    as [[[]|e] w'] eqn:E; [|vm_compute in E; discriminate E].
  destruct (CreateTransaction_touches_only_the_callers_card _ _ _ _ _ _ E)
    as (card & stored & Hc & _ & _ & _ & _ & Hother & _).
  vm_compute in Hc. injection Hc as <-.
  split; [reflexivity|]. simpl.
  split; (rewrite Hother; [reflexivity | discriminate]).
Defined.

Lemma CreateTransaction_category env userID transaction w u w' :
  App_transactionService.CreateTransaction env userID transaction w = (Ok u, w') →
  category_accepted (db w) userID transaction.
Proof.
  unfold App_transactionService.CreateTransaction. intros E.
  apply bind_Ok in E as (card & w1 & E1 & E).
  apply on_error_Ok, card_GetByID_Ok in E1 as [-> ->].
  destruct (cards (db w) !! Transaction.CardID transaction); [|done].
  case_bool_decide; [|done]. simpl in E.
  apply bind_Ok in E as ([] & w1 & E1 & E).
  pose proof (verifyCategory_quiet _ _ _ _ _ _ E1) as ->.
  by apply verifyCategory_Ok in E1.
Qed.

(** X3. Whenever [CreateTransaction] or [UpdateTransaction] succeeds with a
    category given, that category is stored, belongs to the caller and has
    the type of the transaction. *)
Theorem category_of_a_written_transaction env userID transaction w u w' :
  App_transactionService.CreateTransaction env userID transaction w = (Ok u, w')
  ∨ App_transactionService.UpdateTransaction env userID transaction w = (Ok u, w') →
  ∀ cid, Transaction.CategoryID transaction = Some cid →
  ∃ c, categories (db w) !! cid = Some c
       ∧ Category.UserID c = userID
       ∧ Category.Type_ c = Transaction.Type_ transaction.
Proof.
  intros H cid Hcid.
  assert (category_accepted (db w) userID transaction) as Hacc.
  { destruct H as [E|E].
    - by eapply CreateTransaction_category.
    - apply UpdateTransaction_Ok in E as (? & ? & _ & _ & _ & _ & Hacc & _). done. }
  unfold category_accepted in Hacc. by rewrite Hcid in Hacc.
Qed.

Lemma category_of_a_written_transaction_witness :
  (App_transactionService.CreateTransaction Examples.env0 Examples.alice
     (LedgerExample.bread "expense") CategoryExample.wc).1 = Ok tt
  ∧ ∃ c, categories CategoryExample.dbc !! 30%N = Some c
         ∧ Category.Type_ c = "expense".
Proof.
  destruct (App_transactionService.CreateTransaction Examples.env0 Examples.alice
              (LedgerExample.bread "expense") CategoryExample.wc)
    as [[[]|e] w'] eqn:E; [|vm_compute in E; discriminate E].
  destruct (category_of_a_written_transaction Examples.env0 Examples.alice
              (LedgerExample.bread "expense") CategoryExample.wc tt w'
              (or_introl E) 30%N eq_refl) as (c & Hc & _ & Ht).
  split; [reflexivity|]. exists c. split; [exact Hc | exact Ht].
Defined.

(** X4. A successful [UpdateTransaction] was made by the owner of a manual
    transaction. It rewrites the rows with that id from the payload and
    nothing else: no row appears or disappears, no row changes its id, card,
    owner or Monobank id, rows with another id are as they were, and no
    other table is written. *)
Theorem UpdateTransaction_effect env userID transaction w u w' :
  App_transactionService.UpdateTransaction env userID transaction w = (Ok u, w') →
  let old := transactions (db w) in
  let new := transactions (db w') in
  (∃ existing,
     head (filter (fun x => Transaction.ID x = Transaction.ID transaction) old)
     = Some existing
     ∧ Transaction.UserID existing = userID
     ∧ Transaction.MonobankID existing = "")
  ∧ Transaction.ID <$> new = Transaction.ID <$> old
  ∧ Transaction.CardID <$> new = Transaction.CardID <$> old
  ∧ Transaction.UserID <$> new = Transaction.UserID <$> old
  ∧ Transaction.MonobankID <$> new = Transaction.MonobankID <$> old
  ∧ (∀ i x, old !! i = Some x →
       Transaction.ID x ≠ Transaction.ID transaction → new !! i = Some x)
  ∧ (∀ x, x ∈ new → Transaction.ID x = Transaction.ID transaction →
       Transaction.Amount x = Transaction.Amount transaction
       ∧ Transaction.Type_ x = Transaction.Type_ transaction
       ∧ Transaction.CategoryID x = Transaction.CategoryID transaction
       ∧ Transaction.BalanceAfter x = Transaction.BalanceAfter transaction)
  ∧ db w' = set_transactions new (db w).
Proof.
  intros E old new.
  apply UpdateTransaction_Ok in E
    as (existing & card & Hex & Hu & Hm & _ & _ & _ & _ & _ & _ & Hdb).
  assert (new = (fun o =>
                   if bool_decide (Transaction.ID o = Transaction.ID transaction)
                   then App_transactionRepository.updated_row transaction o
                   else o) <$> old) as Hnew
    by (unfold new; by rewrite Hdb).
  split; [by exists existing|].
  rewrite Hnew.
  repeat split.
  1-4: rewrite <- list_fmap_compose; apply list_fmap_ext;
       intros i x _; simpl; by case_bool_decide.
  - intros i x Hi Hne. rewrite list_lookup_fmap, Hi. simpl.
    by rewrite bool_decide_eq_false_2.
  - apply list_elem_of_fmap in H as (o & -> & _).
    case_bool_decide as Hid; [done|]. simpl in H0. done.
  - apply list_elem_of_fmap in H as (o & -> & _).
    case_bool_decide as Hid; [done|]. simpl in H0. done.
  - apply list_elem_of_fmap in H as (o & -> & _).
    case_bool_decide as Hid; [done|]. simpl in H0. done.
  - apply list_elem_of_fmap in H as (o & -> & _).
    case_bool_decide as Hid; [done|]. simpl in H0. done.
  - rewrite <- Hnew. unfold new. rewrite Hdb. reflexivity.
Qed.

Lemma UpdateTransaction_effect_witness :
  ∃ w', App_transactionService.UpdateTransaction Examples.env0 Examples.alice
          LedgerExample.edited ManualExample.w1
        = (Ok tt, w')
        ∧ Transaction.ID <$> transactions (db w')
          = Transaction.ID <$> transactions (db ManualExample.w1)
        ∧ db w' = set_transactions (transactions (db w')) (db ManualExample.w1).
Proof.
  destruct (App_transactionService.UpdateTransaction Examples.env0 Examples.alice
              LedgerExample.edited ManualExample.w1)
    as [[[]|e] w'] eqn:E; [|vm_compute in E; discriminate E].
  exists w'. split; [reflexivity|].
  destruct (UpdateTransaction_effect _ _ _ _ _ _ E)
    as (_ & Hid & _ & _ & _ & _ & _ & Hdb).
  split; [exact Hid | exact Hdb].
Defined.

(** X5. A successful [DeleteTransaction] was made by the owner of a manual
    transaction. It removes the rows with that id and only those, in place:
    no row with the id is left, every other row is still there in the same
    order, and no other table is written (the card balance included). *)
Theorem DeleteTransaction_effect env userID tid w u w' :
  App_transactionService.DeleteTransaction env userID tid w = (Ok u, w') →
  let old := transactions (db w) in
  let new := transactions (db w') in
  (∃ existing,
     head (filter (fun x => Transaction.ID x = tid) old) = Some existing
     ∧ Transaction.UserID existing = userID
     ∧ Transaction.MonobankID existing = "")
  ∧ (∀ x, x ∈ new ↔ x ∈ old ∧ Transaction.ID x ≠ tid)
  ∧ new `sublist_of` old
  ∧ (length new < length old)%nat
  ∧ db w' = set_transactions new (db w).
Proof.
  intros E old new.
  apply DeleteTransaction_Ok in E as (existing & Hex & Hu & Hm & Hdb).
  assert (new = filter (fun x => Transaction.ID x ≠ tid) old) as Hnew
    by (unfold new; by rewrite Hdb).
  split; [by exists existing|].
  split; [intros x; rewrite Hnew, list_elem_of_filter; tauto|].
  split; [rewrite Hnew; apply sublist_filter|].
  split; [|by unfold new; rewrite Hdb].
  rewrite Hnew.
  assert (existing ∈ old ∧ Transaction.ID existing = tid) as [Hin Hid].
  { apply head_Some_elem_of in Hex. apply list_elem_of_filter in Hex. tauto. }
  clear -Hin Hid. induction old as [|y l IH]; [by apply elem_of_nil in Hin|].
  rewrite filter_cons. apply elem_of_cons in Hin as [<-|Hin].
  - rewrite decide_False by (intros Hne; by apply Hne). simpl.
    pose proof (length_filter (fun x => Transaction.ID x ≠ tid) l). lia.
  - specialize (IH Hin). case_decide; simpl; lia.
Qed.

Lemma DeleteTransaction_effect_witness :
  ∃ w', App_transactionService.DeleteTransaction Examples.env0 Examples.alice
          1%N ManualExample.w1 = (Ok tt, w')
        ∧ (length (transactions (db w'))
           < length (transactions (db ManualExample.w1)))%nat
        ∧ cards (db w') = cards (db ManualExample.w1).
Proof.
  destruct (App_transactionService.DeleteTransaction Examples.env0 Examples.alice
              1%N ManualExample.w1)
    as [[[]|e] w'] eqn:E; [|vm_compute in E; discriminate E].
  exists w'. split; [reflexivity|].
  destruct (DeleteTransaction_effect _ _ _ _ _ _ E)
    as (_ & _ & _ & Hlen & Hdb).
  split; [exact Hlen | by rewrite Hdb].
Defined.

(** ** Listing the transactions of a card *)

Lemma insert_by_date_perm x l : insert_by_date x l ≡ₚ x :: l.
Proof.
  induction l as [|y l IH]; simpl; [done|].
  case_match; [done|]. rewrite IH. apply Permutation_swap.
Qed.

Lemma order_by_date_desc_perm l : order_by_date_desc l ≡ₚ l.
Proof.
  induction l as [|y l IH]; simpl; [done|].
  unfold order_by_date_desc in *. simpl.
  by rewrite insert_by_date_perm, IH.
Qed.

Lemma insert_by_date_sorted x l :
  newest_first l → newest_first (insert_by_date x l).
Proof.
  unfold newest_first. induction 1 as [|y l Hs IH Hy]; simpl.
  - repeat constructor.
  - case_match eqn:Hc.
    + apply Z.ltb_lt in Hc. constructor; [by constructor|].
      constructor; [lia|].
      eapply Forall_impl; [exact Hy|]. simpl. intros; lia.
    + apply Z.ltb_ge in Hc. constructor; [exact IH|].
      rewrite insert_by_date_perm. by constructor.
Qed.

Lemma order_by_date_desc_sorted l : newest_first (order_by_date_desc l).
Proof.
  induction l as [|y l IH]; simpl; [constructor|].
  by apply insert_by_date_sorted.
Qed.

Lemma newest_first_sublist l k :
  k `sublist_of` l → newest_first l → newest_first k.
Proof.
  unfold newest_first. induction 1 as [|x k l Hs IH|x k l Hs IH];
    intros Hl; [constructor|..].
  - apply StronglySorted_inv in Hl as [Hl Hx].
    constructor; [by apply IH|].
    apply Forall_forall. intros y Hy.
    eapply Forall_forall in Hx; [exact Hx|]. by eapply elem_of_sublist.
  - apply StronglySorted_inv in Hl as [Hl _]. by apply IH.
Qed.

Lemma page_sublist {A} limit offset (l : list A) :
  page limit offset l `sublist_of` l.
Proof.
  unfold page. destruct (0 <? offset), (0 <? limit); simpl.
  - etrans; [apply sublist_take | apply sublist_drop].
  - apply sublist_drop.
  - apply sublist_take.
  - done.
Qed.

Lemma page_length {A} limit offset (l : list A) :
  0 < limit → (length (page limit offset l) <= Z.to_nat limit)%nat.
Proof.
  intros Hl. unfold page. apply Z.ltb_lt in Hl. rewrite Hl.
  rewrite length_take. lia.
Qed.

Lemma page_all {A} limit offset (l : list A) :
  limit <= 0 → offset <= 0 → page limit offset l = l.
Proof.
  intros Hl Ho. unfold page.
  apply Z.ltb_ge in Hl, Ho. by rewrite Hl, Ho.
Qed.

Section Listing.
Context (env : Env).

Lemma tx_GetByCardID_Ok cardID limit offset w l w' :
  App_transactionRepository.GetByCardID env cardID limit offset w = (Ok l, w') →
  l = page limit offset
        (order_by_date_desc
           (filter (fun x => Transaction.CardID x = cardID)
                   (transactions (db w))))
  ∧ db w' = db w.
Proof.
  unfold App_transactionRepository.GetByCardID. intros E.
  apply bind_Ok in E as ([] & w1 & E1 & E2).
  apply on_error_Ok in E1. apply guard_op_Ok in E1 as [_ ->].
  unfold bind, get_db, ret in E2. by simplify_eq.
Qed.

Lemma GetCardTransactions_Ok userID cardID limit offset w l w' :
  App_transactionQueries.GetCardTransactions env userID cardID limit offset w
  = (Ok l, w') →
  (∃ card, cards (db w) !! cardID = Some card ∧ Card.UserID card = userID)
  ∧ l = page limit offset
          (order_by_date_desc
             (filter (fun x => Transaction.CardID x = cardID)
                     (transactions (db w))))
  ∧ db w' = db w.
Proof.
  unfold App_transactionQueries.GetCardTransactions. intros E.
  apply bind_Ok in E as (oc & w1 & E1 & E2).
  apply on_error_Ok in E1. apply card_GetByID_Ok in E1 as [-> ->].
  destruct (cards (db w) !! cardID) as [card|] eqn:Hc; [|by inversion E2].
  case_bool_decide as Hu; simpl in E2; [|by inversion E2].
  apply on_error_Ok in E2. apply tx_GetByCardID_Ok in E2 as [-> Hdb].
  split; [by exists card|]. by split.
Qed.
End Listing.

(** X6. [GetCardTransactions] answers only the owner of the card. What it
    answers are stored transactions of that card and no others, newest
    first, at most [limit] of them when a positive limit is given; without
    limit and offset every stored transaction of the card is listed, each
    as often as it is stored. Listing writes nothing. *)
Theorem GetCardTransactions_lists_the_owners_card
    env userID cardID limit offset w l w' :
  App_transactionQueries.GetCardTransactions env userID cardID limit offset w
  = (Ok l, w') →
  (∃ card, cards (db w) !! cardID = Some card ∧ Card.UserID card = userID)
  ∧ (∀ x, x ∈ l → x ∈ transactions (db w) ∧ Transaction.CardID x = cardID)
  ∧ newest_first l
  ∧ (0 < limit → (length l <= Z.to_nat limit)%nat)
  ∧ (limit <= 0 → offset <= 0 →
       l ≡ₚ filter (fun x => Transaction.CardID x = cardID)
                    (transactions (db w)))
  ∧ db w' = db w.
Proof.
  intros E. apply GetCardTransactions_Ok in E as (Hc & -> & Hdb).
  split; [exact Hc|].
  split.
  { intros x Hx.
    eapply elem_of_sublist in Hx; [|apply page_sublist].
    rewrite order_by_date_desc_perm in Hx.
    by apply list_elem_of_filter in Hx as [? ?]. }
  split.
  { eapply newest_first_sublist; [apply page_sublist|].
    apply order_by_date_desc_sorted. }
  split; [apply page_length|].
  split; [|exact Hdb].
  intros Hl Ho. rewrite page_all by done. apply order_by_date_desc_perm.
Qed.

Lemma GetCardTransactions_lists_the_owners_card_witness :
  ∃ l w', App_transactionQueries.GetCardTransactions Examples.env0
            Examples.alice 10%N 2 0 LedgerExample.wl = (Ok l, w')
          ∧ Transaction.ID <$> l = [4%N; 1%N]
          ∧ newest_first l
          ∧ (length l <= 2)%nat.
Proof.
  destruct (App_transactionQueries.GetCardTransactions Examples.env0
              Examples.alice 10%N 2 0 LedgerExample.wl)
    as [[l|e] w'] eqn:E; [|vm_compute in E; discriminate E].
  exists l, w'. split; [reflexivity|].
  destruct (GetCardTransactions_lists_the_owners_card _ _ _ _ _ _ _ _ E)
    as (_ & _ & Hs & Hlen & _ & _).
  split; [|split; [exact Hs | apply Hlen; lia]].
  vm_compute in E. by injection E as <- _.
Defined.

(** X20. [GetUserTransactions] lists stored transactions of the user it is
    asked for and of nobody else, newest first, at most [limit] of them
    when a positive limit is given; without limit and offset it lists all
    of them, each as often as it is stored. Listing writes nothing, also
    when it fails. *)
Theorem GetUserTransactions_lists_the_users_rows
    fault' userID limit offset w r w' :
  App_transactionQueries.GetUserTransactions fault' userID limit offset w
  = (r, w') →
  db w' = db w
  ∧ ∀ l, r = Ok l →
      (∀ x, x ∈ l → x ∈ transactions (db w) ∧ Transaction.UserID x = userID)
      ∧ newest_first l
      ∧ (0 < limit → (length l <= Z.to_nat limit)%nat)
      ∧ (limit <= 0 → offset <= 0 →
           l ≡ₚ filter (fun x => Transaction.UserID x = userID)
                        (transactions (db w))).
Proof.
  unfold App_transactionQueries.GetUserTransactions,
    App_transactionQueries.GetByUserID, bind, on_error, guard_op', get_db,
    ret, fail.
  intros E. destruct (fault' _); simplify_eq; simpl; (split; [done|]);
    intros l [= <-].
  split.
  { intros x Hx.
    eapply elem_of_sublist in Hx; [|apply page_sublist].
    rewrite order_by_date_desc_perm in Hx.
    by apply list_elem_of_filter in Hx as [? ?]. }
  split.
  { eapply newest_first_sublist; [apply page_sublist|].
    apply order_by_date_desc_sorted. }
  split; [apply page_length|].
  intros Hl Ho. rewrite page_all by done. apply order_by_date_desc_perm.
Qed.

Lemma GetUserTransactions_lists_the_users_rows_witness :
  ∃ l w', App_transactionQueries.GetUserTransactions (fun _ => false)
            Examples.alice 3 1 LedgerExample.wl = (Ok l, w')
          ∧ Transaction.ID <$> l = [4%N; 1%N; 3%N]
          ∧ newest_first l.
Proof.
  destruct (App_transactionQueries.GetUserTransactions (fun _ => false)
              Examples.alice 3 1 LedgerExample.wl)
    as [[l|e] w'] eqn:E; [|vm_compute in E; discriminate E].
  exists l, w'. split; [reflexivity|].
  destruct (GetUserTransactions_lists_the_users_rows _ _ _ _ _ _ _ E)
    as (_ & Hl).
  destruct (Hl l eq_refl) as (_ & Hs & _).
  split; [|exact Hs].
  vm_compute in E. by injection E as <- _.
Defined.

(** ** Polling imports each statement item once *)

Lemma copies_app m l k : copies m (l ++ k)%list = (copies m l + copies m k)%nat.
Proof. unfold copies. by rewrite filter_app, length_app. Qed.

Lemma copies_head_None m l :
  head (filter (fun x => Transaction.MonobankID x = m) l) = None →
  copies m l = 0%nat.
Proof. unfold copies. by destruct (filter _ l). Qed.

Lemma copies_one m x :
  copies m [x] = if bool_decide (Transaction.MonobankID x = m) then 1%nat else 0%nat.
Proof.
  unfold copies. rewrite filter_cons, filter_nil.
  case_decide; [by rewrite bool_decide_eq_true_2|by rewrite bool_decide_eq_false_2].
Qed.

Lemma imports_refl P d : imports P d d.
Proof.
  split; [exists []; by rewrite app_nil_r|].
  split; [intros m; lia|done].
Qed.

Lemma imports_eq P d d' : d' = d → imports P d d'.
Proof. intros ->. apply imports_refl. Qed.

Lemma imports_trans P d1 d2 d3 :
  imports P d1 d2 → imports P d2 d3 → imports P d1 d3.
Proof.
  intros ((n1 & H1 & F1) & C1 & Hc1 & Hu1 & Hi1)
         ((n2 & H2 & F2) & C2 & Hc2 & Hu2 & Hi2).
  split.
  { exists (n1 ++ n2)%list. split; [by rewrite H2, H1, app_assoc|].
    by apply Forall_app. }
  split; [intros m; specialize (C1 m); specialize (C2 m); lia|].
  split; [congruence|]. split; congruence.
Qed.

Lemma imports_impl (P Q : Transaction.t → Prop) d d' :
  (∀ x, P x → Q x) → imports P d d' → imports Q d d'.
Proof.
  intros HPQ ((n & H & F) & C). split; [|done].
  exists n. split; [done|]. eapply Forall_impl; eauto.
Qed.

Lemma inserted_row_fields l x :
  Transaction.CardID (inserted_row l x) = Transaction.CardID x
  ∧ Transaction.UserID (inserted_row l x) = Transaction.UserID x
  ∧ Transaction.CategoryID (inserted_row l x) = Transaction.CategoryID x
  ∧ Transaction.MonobankID (inserted_row l x) = Transaction.MonobankID x.
Proof. unfold inserted_row. by case_bool_decide. Qed.

Lemma App_Create_stores_the_row env :
  stores_the_row (App_transactionRepository.Create env).
Proof.
  intros x w [u|e] w' E.
  - apply Create_Ok in E as (c & _ & ->). right.
    split; [|done]. eexists. split; [reflexivity|].
    apply inserted_row_fields.
  - left. eapply Create_atomic, E.
Qed.

(** The insert of [backend/infrastructure]: the row as it is, under an id
    that was not stored. *)
Lemma plain_Create_inv env x w r w' :
  transactionRepository.Create env x w = (r, w') →
  log w' = log w
  ∧ match r with
    | Ok _ =>
        fault env OpTxInsert = false
        ∧ (Transaction.ID x ∉ Transaction.ID <$> transactions (db w))
        ∧ type_check (Transaction.Type_ x) = true
        ∧ db w' = set_transactions (transactions (db w) ++ [x]) (db w)
    | Err e =>
        e = ErrStorage ∧ db w' = db w
        ∧ (fault env OpTxInsert = true
           ∨ Transaction.ID x ∈ Transaction.ID <$> transactions (db w)
           ∨ type_check (Transaction.Type_ x) = false)
    end.
Proof.
  unfold transactionRepository.Create, bind, guard_op, get_db, put_db, fail, ret.
  intros E. destruct (fault env OpTxInsert) eqn:Hf; [simplify_eq; auto|].
  destruct (bool_decide (Transaction.ID x ∈ _)) eqn:Hb.
  - apply bool_decide_eq_true in Hb. simplify_eq; auto 10.
  - apply bool_decide_eq_false in Hb.
    destruct (type_check _) eqn:Ht; simpl in E; simplify_eq; auto 10.
Qed.

Lemma plain_Create_stores_the_row env :
  stores_the_row (transactionRepository.Create env).
Proof.
  intros x w [u|e] w' E; apply plain_Create_inv in E as [_ E].
  - destruct E as (_ & _ & _ & ->). right. split; [|done]. by exists x.
  - left. by destruct E as (_ & ? & _).
Qed.

Lemma tx_GetByMonobankID_inv env m w r w' :
  App_transactionRepository.GetByMonobankID env m w = (r, w') →
  db w' = db w
  ∧ ∀ o, r = Ok o →
      o = head (filter (fun x => Transaction.MonobankID x = m)
                       (transactions (db w))).
Proof.
  unfold App_transactionRepository.GetByMonobankID, bind, on_error, guard_op,
    get_db, ret, fail.
  intros E. destruct (fault env _); simplify_eq; split; try done.
  by intros o [= <-].
Qed.

Section Polling.
Context (env : Env) (txRepo_Create : Transaction.t → M unit).
Context (Hrepo : stores_the_row txRepo_Create).

Lemma stored_once_imports card monoTx w r w' :
  head (filter (fun x => Transaction.MonobankID x = monobankTransaction.ID monoTx)
               (transactions (db w))) = None →
  txRepo_Create (convertMonobankTransaction monoTx card) w = (r, w') →
  imports (imported_from card) (db w) (db w').
Proof.
  intros Hhead C. apply copies_head_None in Hhead.
  apply Hrepo in C
    as [C|((x' & Ct & Hcard & Huser & Hcat & Hmono) & Cc & Cu & Ci)];
    [by apply imports_eq|].
  split; [eexists; split; [exact Ct|]|split; [|done]].
  - constructor; [|constructor].
    split; [|split]; [rewrite Hcard|rewrite Huser|rewrite Hcat]; done.
  - intros m. rewrite Ct, copies_app, copies_one, Hmono. simpl.
    case_bool_decide; [subst m; rewrite Hhead|]; lia.
Qed.

Lemma processTransactions_imports card l w :
  imports (imported_from card) (db w)
    (db (MonobankService.processTransactions env txRepo_Create card l w).2).
Proof.
  revert w. induction l as [|monoTx rest IH]; intros w; simpl;
    [apply imports_refl|].
  unfold bind at 1.
  match goal with
  | |- context [match ?m w with _ => _ end] =>
      destruct (m w) as [[[]|e] w1] eqn:E1
  end; simpl.
  all: assert (imports (imported_from card) (db w) (db w1)) as Hstep;
    [|first [exact Hstep | eapply imports_trans; [exact Hstep | apply IH]]].
  all: clear IH; unfold bind at 1, swallow at 1 in E1.
  all: destruct (App_transactionRepository.GetByMonobankID env _ w)
         as [[o|e0] w0] eqn:G;
       apply tx_GetByMonobankID_inv in G as [Hdb Ho];
       [specialize (Ho o eq_refl); subst o
       |simpl in E1; unfold ret in E1; simplify_eq; apply imports_eq; simpl; done].
  all: simpl in E1; destruct (head _) as [found|] eqn:Hhead;
       [unfold ret in E1; simplify_eq; by apply imports_eq|].
  all: unfold bind, swallow, ret in E1.
  all: destruct (txRepo_Create _ w0) as [[[]|e1] w2] eqn:C;
       rewrite <- Hdb in Hhead;
       (eapply stored_once_imports in C; [|exact Hhead]);
       rewrite <- Hdb; simplify_eq; exact C.
Qed.

Lemma syncCardTransactions_imports card token w :
  imports (imported_from card) (db w)
    (db (MonobankService.syncCardTransactions env txRepo_Create card token w).2).
Proof.
  unfold MonobankService.syncCardTransactions, bind at 1.
  destruct (on_error _ _ _ w) as [[lastTx|e1] w1] eqn:E1.
  - apply on_error_Ok, tx_GetByCardID_quiet in E1 as ->.
    cbv zeta.
    destruct (provider env token _ _) as [| |status body];
      try apply imports_refl.
    repeat case_bool_decide; simpl; try apply imports_refl.
    destruct body as [|items]; [apply imports_refl|].
    apply processTransactions_imports.
  - simpl. apply imports_eq.
    eapply keeps_db_on_error, E1. apply tx_GetByCardID_keeps.
Qed.

Lemma syncCards_imports cards token w :
  imports (fun x => ∃ card, card ∈ cards
                            ∧ Card.IsManual card = false
                            ∧ Card.MonobankAccountID card ≠ ""
                            ∧ imported_from card x)
    (db w)
    (db (MonobankService.syncCards env txRepo_Create cards token w).2).
Proof.
  revert w. induction cards as [|card rest IH]; intros w; simpl;
    [apply imports_refl|].
  unfold bind at 1.
  match goal with
  | |- context [match ?m w with _ => _ end] =>
      destruct (m w) as [r1 w1] eqn:E1
  end.
  assert (imports (fun x => ∃ c, c ∈ card :: rest
                                 ∧ Card.IsManual c = false
                                 ∧ Card.MonobankAccountID c ≠ ""
                                 ∧ imported_from c x) (db w) (db w1)) as H1.
  { destruct (negb (Card.IsManual card)
              && negb (bool_decide (Card.MonobankAccountID card = "")))
      eqn:Hsel; [|unfold ret in E1; simplify_eq; apply imports_refl].
    apply andb_prop in Hsel as [Hm Ha].
    apply negb_true_iff in Hm, Ha. apply bool_decide_eq_false in Ha.
    pose proof (syncCardTransactions_imports card token w) as Hs.
    unfold bind, swallow, ret in E1.
    destruct (MonobankService.syncCardTransactions _ _ _ _ w)
      as [[[]|e1] w2]; simplify_eq; simpl in *.
    all: eapply imports_impl, Hs; intros x Hx; exists card;
      split; [left|done]. }
  destruct r1 as [[]|e]; simpl; [|exact H1].
  eapply imports_trans; [exact H1|].
  eapply imports_impl, IH. intros x (c & Hc & ?). exists c.
  split; [by right|done].
Qed.

Lemma SyncUserData_imports userID w :
  imports (fun x => ∃ card, card ∈ (map_to_list (cards (db w))).*2
                            ∧ Card.UserID card = userID
                            ∧ Card.IsManual card = false
                            ∧ Card.MonobankAccountID card ≠ ""
                            ∧ imported_from card x)
    (db w)
    (db (MonobankService.SyncUserData env txRepo_Create userID w).2).
Proof.
  unfold MonobankService.SyncUserData, bind at 1.
  destruct (on_error _ _ _ w) as [[integration|e1] w1] eqn:E1.
  2:{ simpl. apply imports_eq. eapply keeps_db_on_error, E1.
      unfold monobankIntegrationRepository.GetByUserID. auto 10 with ledger. }
  assert (db w1 = db w) as Hdb1.
  { eapply keeps_db_on_error, E1.
    unfold monobankIntegrationRepository.GetByUserID. auto 10 with ledger. }
  destruct integration as [integration|]; [|by apply imports_eq].
  unfold bind at 1.
  destruct (on_error _ _ _ w1) as [[l|e2] w2] eqn:E2.
  2:{ simpl. apply imports_eq. rewrite <- Hdb1. eapply keeps_db_on_error, E2.
      unfold cardRepository.GetByUserID. auto 10 with ledger. }
  apply on_error_Ok in E2.
  unfold cardRepository.GetByUserID, bind, on_error, guard_op, get_db, ret, fail
    in E2.
  destruct (fault env _); simplify_eq.
  rewrite <- Hdb1.
  eapply imports_impl, syncCards_imports.
  intros x (c & Hc & Hm & Ha & Hx). exists c.
  apply list_elem_of_filter in Hc as [Hu Hc]. done.
Qed.
End Polling.

(** ** Ingestion stores under [uuid.Nil] *)

Lemma under_nil_refl d : under_nil d d.
Proof. by left. Qed.

Lemma under_nil_eq d d' : d' = d → under_nil d d'.
Proof. by left. Qed.

(** Once a row sits under [uuid.Nil], no second one is stored. *)
Lemma under_nil_trans d1 d2 d3 :
  under_nil d1 d2 → under_nil d2 d3 → under_nil d1 d3.
Proof.
  intros [->|(x & Hx & Hn & ->)] H23; [done|].
  destruct H23 as [->|(y & Hy & Hm & ->)]; [right; eauto|].
  exfalso. apply Hm. simpl. rewrite fmap_app, elem_of_app. right.
  simpl. rewrite Hx. left.
Qed.


Lemma under_nil_inv d d' :
  under_nil d d' →
  (∃ new, transactions d' = (transactions d ++ new)%list
          ∧ (length new <= 1)%nat
          ∧ (∀ x, x ∈ new →
               Transaction.ID x = uuid_Nil
               ∧ (uuid_Nil ∉ Transaction.ID <$> transactions d)))
  ∧ cards d' = cards d
  ∧ categories d' = categories d
  ∧ users d' = users d
  ∧ integrations d' = integrations d.
Proof.
  intros [->|(x & Hx & Hn & ->)].
  - split; [|done]. exists []. rewrite app_nil_r.
    split; [done|]. split; [simpl; lia|]. by intros x Hx%elem_of_nil.
  - split; [|done]. exists [x]. split; [done|]. split; [simpl; lia|].
    by intros y ->%list_elem_of_singleton.
Qed.


Lemma plain_Create_under_nil env x w r w' :
  Transaction.ID x = uuid_Nil →
  transactionRepository.Create env x w = (r, w') →
  under_nil (db w) (db w').
Proof.
  intros Hx [_ E]%plain_Create_inv. destruct r as [u|e].
  - destruct E as (_ & Hn & _ & ->). right. exists x. rewrite Hx in Hn. done.
  - left. by destruct E as (_ & ? & _).
Qed.

Section Ingestion.
Context (env : Env).

Lemma processTransactions_under_nil card l w :
  under_nil (db w)
    (db (MonobankService.processTransactions env
           (transactionRepository.Create env) card l w).2).
Proof.
  revert w. induction l as [|monoTx rest IH]; intros w; simpl;
    [apply under_nil_refl|].
  unfold bind at 1.
  match goal with
  | |- context [match ?m w with _ => _ end] =>
      destruct (m w) as [[[]|e] w1] eqn:E1
  end; simpl.
  all: assert (under_nil (db w) (db w1)) as Hstep;
    [|first [exact Hstep | eapply under_nil_trans; [exact Hstep | apply IH]]].
  all: clear IH; unfold bind at 1, swallow at 1 in E1.
  all: destruct (App_transactionRepository.GetByMonobankID env _ w)
         as [[o|e0] w0] eqn:G;
       apply tx_GetByMonobankID_inv in G as [Hdb _];
       [|simpl in E1; unfold ret in E1; simplify_eq; apply under_nil_eq;
         simpl; done].
  all: simpl in E1; destruct o as [found|];
       [unfold ret in E1; simplify_eq; by apply under_nil_eq|].
  all: unfold bind, swallow, ret in E1.
  all: destruct (transactionRepository.Create env _ w0) as [[[]|e1] w2] eqn:C;
       (apply plain_Create_under_nil in C; [|reflexivity]);
       rewrite <- Hdb; simplify_eq; exact C.
Qed.

Lemma syncCardTransactions_under_nil card token w :
  under_nil (db w)
    (db (MonobankService.syncCardTransactions env
           (transactionRepository.Create env) card token w).2).
Proof.
  unfold MonobankService.syncCardTransactions, bind at 1.
  destruct (on_error _ _ _ w) as [[lastTx|e1] w1] eqn:E1.
  - apply on_error_Ok, tx_GetByCardID_quiet in E1 as ->.
    cbv zeta.
    destruct (provider env token _ _) as [| |status body];
      try apply under_nil_refl.
    repeat case_bool_decide; simpl; try apply under_nil_refl.
    destruct body as [|items]; [apply under_nil_refl|].
    apply processTransactions_under_nil.
  - simpl. apply under_nil_eq.
    eapply keeps_db_on_error, E1. apply tx_GetByCardID_keeps.
Qed.

Lemma syncCards_under_nil cards token w :
  under_nil (db w)
    (db (MonobankService.syncCards env (transactionRepository.Create env)
           cards token w).2).
Proof.
  revert w. induction cards as [|card rest IH]; intros w; simpl;
    [apply under_nil_refl|].
  unfold bind at 1.
  match goal with
  | |- context [match ?m w with _ => _ end] =>
      destruct (m w) as [r1 w1] eqn:E1
  end.
  assert (under_nil (db w) (db w1)) as H1.
  { destruct (negb (Card.IsManual card)
              && negb (bool_decide (Card.MonobankAccountID card = "")));
      [|unfold ret in E1; simplify_eq; apply under_nil_refl].
    pose proof (syncCardTransactions_under_nil card token w) as Hs.
    unfold bind, swallow, ret in E1.
    destruct (MonobankService.syncCardTransactions _ _ _ _ w)
      as [[[]|e1] w2]; simplify_eq; simpl in *; exact Hs. }
  destruct r1 as [[]|e]; simpl; [|exact H1].
  eapply under_nil_trans; [exact H1|apply IH].
Qed.

Lemma SyncUserData_under_nil userID w :
  under_nil (db w)
    (db (MonobankService.SyncUserData env (transactionRepository.Create env)
           userID w).2).
Proof.
  unfold MonobankService.SyncUserData, bind at 1.
  destruct (on_error _ _ _ w) as [[integration|e1] w1] eqn:E1.
  2:{ simpl. apply under_nil_eq. eapply keeps_db_on_error, E1.
      unfold monobankIntegrationRepository.GetByUserID. auto 10 with ledger. }
  assert (db w1 = db w) as Hdb1.
  { eapply keeps_db_on_error, E1.
    unfold monobankIntegrationRepository.GetByUserID. auto 10 with ledger. }
  destruct integration as [integration|]; [|by apply under_nil_eq].
  unfold bind at 1.
  destruct (on_error _ _ _ w1) as [[l|e2] w2] eqn:E2.
  2:{ simpl. apply under_nil_eq. rewrite <- Hdb1. eapply keeps_db_on_error, E2.
      unfold cardRepository.GetByUserID. auto 10 with ledger. }
  assert (db w2 = db w1) as Hdb2.
  { eapply keeps_db_on_error, E2.
    unfold cardRepository.GetByUserID. auto 10 with ledger. }
  rewrite <- Hdb1, <- Hdb2. apply syncCards_under_nil.
Qed.
End Ingestion.

(** X7. Polling stores no Monobank id a second time: whatever the provider
    answers and whichever storage operations fail, after [SyncUserData] an
    id that was stored has as many copies as before, and an id that was not
    has at most one, even when the statement lists an item twice. This
    holds with the transaction repository of [backend/infrastructure],
    which the service is built with, and with that of [backend/app]. *)
Theorem polling_never_duplicates env create userID w r w' m :
  create = transactionRepository.Create env
  ∨ create = App_transactionRepository.Create env →
  MonobankService.SyncUserData env create userID w = (r, w') →
  (copies m (transactions (db w'))
   <= Nat.max 1 (copies m (transactions (db w))))%nat
  ∧ (copies m (transactions (db w))
     <= copies m (transactions (db w')))%nat.
Proof.
  intros Hc E.
  assert (stores_the_row create) as Hrepo
    by (destruct Hc as [-> | ->];
        [apply plain_Create_stores_the_row | apply App_Create_stores_the_row]).
  pose proof (SyncUserData_imports env create Hrepo userID w) as Hi.
  rewrite E in Hi. simpl in Hi.
  destruct Hi as ((new & Hnew & _) & Hcopies & _).
  split; [apply Hcopies|]. rewrite Hnew, copies_app. lia.
Qed.

Lemma polling_never_duplicates_witness :
  ∃ w', MonobankService.SyncUserData PollExample.env_twice
          (transactionRepository.Create PollExample.env_twice)
          Examples.alice Examples.w0 = (Ok tt, w')
        ∧ copies "mono-tx-1" (transactions (db Examples.w0)) = 0%nat
        ∧ (copies "mono-tx-1" (transactions (db w')) <= 1)%nat.
Proof.
  destruct (MonobankService.SyncUserData PollExample.env_twice
              (transactionRepository.Create PollExample.env_twice)
              Examples.alice Examples.w0) as [[[]|e] w'] eqn:E;
    [|vm_compute in E; discriminate E].
  exists w'. split; [reflexivity|]. split; [reflexivity|].
  apply (polling_never_duplicates _ _ _ _ _ _ "mono-tx-1" (or_introl eq_refl) E).
Defined.

(** X8. Polling only adds imports. [SyncUserData] leaves every stored
    transaction where it was and appends rows that belong to the user it
    was called for, sit on one of that user's provider cards (not manual,
    with an account id) and carry no category; categories, users and
    integrations are not written. With the repository of
    [backend/infrastructure] the rows go in as they were converted, under
    [uuid.Nil]: at most one row is appended, none when a transaction is
    already stored under [uuid.Nil], and no card is written. *)
Theorem polling_only_appends_imports env create userID w r w' :
  create = transactionRepository.Create env
  ∨ create = App_transactionRepository.Create env →
  MonobankService.SyncUserData env create userID w = (r, w') →
  (∃ new,
     transactions (db w') = (transactions (db w) ++ new)%list
     ∧ (∀ x, x ∈ new →
         Transaction.UserID x = userID
         ∧ Transaction.CategoryID x = None
         ∧ ∃ k card, cards (db w) !! k = Some card
                     ∧ Card.UserID card = userID
                     ∧ Card.IsManual card = false
                     ∧ Card.MonobankAccountID card ≠ ""
                     ∧ Transaction.CardID x = Card.ID card)
     ∧ (create = transactionRepository.Create env →
        (length new <= 1)%nat
        ∧ (∀ x, x ∈ new → Transaction.ID x = uuid_Nil)
        ∧ (uuid_Nil ∈ Transaction.ID <$> transactions (db w) → new = [])
        ∧ cards (db w') = cards (db w)))
  ∧ categories (db w') = categories (db w)
  ∧ users (db w') = users (db w)
  ∧ integrations (db w') = integrations (db w).
Proof.
  intros Hc E.
  assert (stores_the_row create) as Hrepo
    by (destruct Hc as [-> | ->];
        [apply plain_Create_stores_the_row | apply App_Create_stores_the_row]).
  pose proof (SyncUserData_imports env create Hrepo userID w) as Hi.
  rewrite E in Hi. simpl in Hi.
  destruct Hi as ((new & Hnew & Hall) & _ & Hrest).
  split; [|exact Hrest].
  exists new. split; [exact Hnew|]. split.
  - intros x Hx. eapply Forall_forall in Hall; [|exact Hx].
    destruct Hall as (card & Hin & Hu & Hm & Ha & Hcard & Huser & Hcat).
    split; [congruence|]. split; [done|].
    apply list_elem_of_fmap in Hin as ([k c] & -> & Hin).
    apply elem_of_map_to_list in Hin. by exists k, c.
  - intros ->.
    pose proof (SyncUserData_under_nil env userID w) as Hn.
    rewrite E in Hn. simpl in Hn.
    apply under_nil_inv in Hn as ((new' & Hnew' & Hlen & Hids) & Hcards & _).
    rewrite Hnew in Hnew'. apply app_inv_head in Hnew' as <-.
    split; [done|]. split; [intros x Hx; by apply Hids|]. split; [|done].
    intros Hnil. destruct new as [|x rest]; [done|].
    destruct (Hids x) as [_ Hfree]; [left|]. done.
Qed.

Lemma polling_only_appends_imports_witness :
  ∃ w' new, MonobankService.SyncUserData ReplayExample.env1
              (transactionRepository.Create ReplayExample.env1)
              Examples.alice Examples.w0 = (Ok tt, w')
            ∧ transactions (db w')
              = (transactions (db Examples.w0) ++ new)%list
            ∧ (length new <= 1)%nat
            ∧ categories (db w') = categories (db Examples.w0).
Proof.
  destruct (MonobankService.SyncUserData ReplayExample.env1
              (transactionRepository.Create ReplayExample.env1)
              Examples.alice Examples.w0) as [[[]|e] w'] eqn:E;
    [|vm_compute in E; discriminate E].
  destruct (polling_only_appends_imports _ _ _ _ _ _ (or_introl eq_refl) E)
    as ((new & Hnew & _ & Hplain) & Hcat & _).
  destruct (Hplain eq_refl) as (Hlen & _).
  exists w', new. split; [reflexivity|]. split; [exact Hnew|].
  split; [exact Hlen | exact Hcat].
Defined.

(** ** The webhook *)

Lemma card_GetByMonobankAccountID_inv env account w r w' :
  cardRepository.GetByMonobankAccountID env account w = (r, w') →
  db w' = db w
  ∧ (∀ o, r = Ok o →
       w' = w
       ∧ o = head (filter (fun c => Card.MonobankAccountID c = account
                                    ∧ Card.IsManual c = false)
                          (map_to_list (cards (db w))).*2))
  ∧ (fault env (OpCardGetByMonobankAccountID account) = false → ∃ o, r = Ok o).
Proof.
  unfold cardRepository.GetByMonobankAccountID, bind, on_error, guard_op,
    get_db, ret, fail.
  intros E. destruct (fault env _); simplify_eq; simpl.
  - split; [done|]. split; [done|]. done.
  - split; [done|]. split; [|eauto]. by intros o [= <-].
Qed.

(** X9. A statement item delivered by webhook is stored all or nothing, by
    the service as it is built, on the repository of
    [backend/infrastructure]. When [HandleWebhook] accepts it, exactly one
    row was appended: the item as converted, under [uuid.Nil] since no id
    is set, on a stored provider card (not manual) with that account id;
    no transaction was stored under [uuid.Nil] before, and nothing else was
    written. When it returns an error, the database is as before. An
    account id that only manual cards carry, or none, is answered with
    "card not found" and leaves the world untouched. *)
Theorem HandleWebhook_statement_item env account item w r w' :
  MonobankService.HandleWebhook env (transactionRepository.Create env)
    (Envelope "StatementItem" (DataStatement account item)) w = (r, w') →
  match r with
  | Ok _ =>
      ∃ k card,
        cards (db w) !! k = Some card
        ∧ Card.MonobankAccountID card = account
        ∧ Card.IsManual card = false
        ∧ Transaction.ID (convertMonobankTransaction item card) = uuid_Nil
        ∧ (uuid_Nil ∉ Transaction.ID <$> transactions (db w))
        ∧ db w' = set_transactions
                    (transactions (db w)
                     ++ [convertMonobankTransaction item card]) (db w)
  | Err e =>
      db w' = db w
      ∧ (fault env (OpCardGetByMonobankAccountID account) = false →
         (∀ k card, cards (db w) !! k = Some card →
                    Card.MonobankAccountID card = account →
                    Card.IsManual card = true) →
         e = Detail ErrCardNotFound account ∧ w' = w)
  end.
Proof.
  intros E.
  unfold MonobankService.HandleWebhook in E.
  rewrite bool_decide_eq_true_2 in E by done.
  unfold bind at 1 in E.
  destruct (on_error _ _ _ w) as [[oc|e1] w1] eqn:E1.
  - apply on_error_Ok, card_GetByMonobankAccountID_inv in E1 as (_ & Hread & _).
    destruct (Hread oc eq_refl) as [-> ->]. clear Hread.
    destruct (head _) as [card|] eqn:Hhead.
    + apply head_Some_elem_of, list_elem_of_filter in Hhead as [[Ha Hm] Hin].
      apply list_elem_of_fmap in Hin as ([k c] & -> & Hin).
      apply elem_of_map_to_list in Hin. simpl in *.
      unfold on_error in E.
      destruct (transactionRepository.Create env _ w) as [[[]|e2] w2] eqn:C;
        apply plain_Create_inv in C as [_ C]; simplify_eq.
      * destruct C as (_ & Hfree & _ & Hdb). exists k, c. done.
      * destruct C as (_ & Hdb & _). split; [done|].
        intros _ Hnone. specialize (Hnone k c Hin eq_refl). congruence.
    + injection E as <- <-. split; [done|]. done.
  - injection E as <- <-.
    unfold on_error in E1.
    destruct (cardRepository.GetByMonobankAccountID env account w)
      as [[o|e0] w0] eqn:G; [done|].
    apply card_GetByMonobankAccountID_inv in G as (Hdb & _ & Hok).
    simplify_eq. split; [done|].
    intros Hf _. destruct (Hok Hf) as [o Ho]. done.
Qed.

Lemma HandleWebhook_statement_item_witness :
  ∃ w', MonobankService.HandleWebhook ReplayExample.env1
          (transactionRepository.Create ReplayExample.env1)
          ReplayExample.payload Examples.w0 = (Ok tt, w')
        ∧ Transaction.ID <$> transactions (db w') = [uuid_Nil].
Proof.
  destruct (MonobankService.HandleWebhook ReplayExample.env1
              (transactionRepository.Create ReplayExample.env1)
              ReplayExample.payload Examples.w0) as [[[]|e] w'] eqn:E;
    [|vm_compute in E; discriminate E].
  exists w'. split; [reflexivity|].
  destruct (HandleWebhook_statement_item _ _ _ _ _ _ E)
    as (k & card & _ & _ & _ & _ & _ & ->).
  reflexivity.
Defined.




(** ** Ingesting an item again *)




(** ** The cycle check of the repository always answers *)

Section CheckDecides.
Context (env : Env).

Lemma checkLoop_mono fuel categoryID parentID visited current w r :
  categoryRepository.checkLoop env fuel categoryID parentID visited current w
  = Some r →
  ∀ fuel', (fuel <= fuel')%nat →
    categoryRepository.checkLoop env fuel' categoryID parentID visited current w
    = Some r.
Proof.
  revert visited current.
  induction fuel as [|fuel IH]; intros visited current E fuel' Hf; [done|].
  destruct fuel' as [|fuel']; [lia|]. simpl in *.
  case_bool_decide; [done|].
  destruct (fault env (OpCategoryFirst current)); [done|].
  destruct (categories (db w) !! current) as [parent|]; [|done].
  destruct (Category.ParentID parent) as [p|]; [|done].
  case_bool_decide; [done|]. apply IH; [done|lia].
Qed.

Lemma checkLoop_keeps_db fuel categoryID parentID visited current w r w' :
  categoryRepository.checkLoop env fuel categoryID parentID visited current w
  = Some (r, w') →
  db w' = db w.
Proof.
  revert visited current.
  induction fuel as [|fuel IH]; intros visited current E; [done|].
  simpl in E. case_bool_decide.
  { unfold liftF, bind, logw, fail in E. by simplify_eq. }
  destruct (fault env (OpCategoryFirst current)); [by simplify_eq|].
  destruct (categories (db w) !! current) as [parent|]; [|by simplify_eq].
  destruct (Category.ParentID parent) as [p|]; [|by simplify_eq].
  case_bool_decide; [|by eapply IH].
  unfold liftF, bind, logw, fail in E. by simplify_eq.
Qed.

(** Each turn of the loop marks a stored category that was not marked: the
    loop is over after as many turns as there are categories, and one. *)
Lemma checkLoop_total fuel categoryID parentID visited current w :
  current ∉ visited →
  (size (dom (categories (db w)) ∖ visited) < fuel)%nat →
  is_Some (categoryRepository.checkLoop env fuel categoryID parentID
             visited current w).
Proof.
  revert visited current.
  induction fuel as [|fuel IH]; intros visited current Hnew Hsize; [lia|].
  simpl. case_bool_decide; [done|].
  destruct (fault env (OpCategoryFirst current)); [done|].
  destruct (categories (db w) !! current) as [parent|] eqn:Hc; [|done].
  destruct (Category.ParentID parent) as [p|]; [|done].
  case_bool_decide as Hp; [done|].
  apply IH; [done|].
  assert (dom (categories (db w)) ∖ ({[current]} ∪ visited)
          ⊂ dom (categories (db w)) ∖ visited) as Hsub.
  { assert (current ∈ dom (categories (db w))) as Hdom
      by (by apply elem_of_dom).
    split.
    - intros y [Hy1 Hy2]%elem_of_difference. apply elem_of_difference.
      split; [done|]. intros Hv. apply Hy2, elem_of_union. by right.
    - intros Hsub.
      assert (current ∈ dom (categories (db w)) ∖ visited) as Hin
        by (by apply elem_of_difference).
      apply Hsub, elem_of_difference in Hin as [_ Hn].
      apply Hn, elem_of_union. left. by apply elem_of_singleton. }
  apply subset_size in Hsub. lia.
Qed.

Lemma marked_closed m categoryID visited x :
  marked m categoryID visited x →
  (∃ q, parent_of m x = Some q ∧ q ∈ ({[x]} ∪ visited : gset UUID)) →
  x ≠ categoryID →
  ∀ v, v ∈ ({[x]} ∪ visited : gset UUID) →
    ¬ ancestor m categoryID v.
Proof.
  intros Hm (q & Hq & Hin) Hne.
  assert (∀ v, v ∈ ({[x]} ∪ visited : gset UUID) →
            v ≠ categoryID
            ∧ ∃ q, parent_of m v = Some q
                   ∧ q ∈ ({[x]} ∪ visited : gset UUID)) as Hclosed.
  { intros v [Hv|Hv]%elem_of_union.
    - apply elem_of_singleton in Hv as ->. split; [done|]. eauto.
    - destruct (Hm v Hv) as (? & q' & Hq' & [?|Heq]); split; try done;
        exists q'; (split; [done|]); apply elem_of_union;
        [by right|left; by apply elem_of_singleton]. }
  intros v Hv Ha. induction Ha as [v Hp|v p Hp Ha IH].
  - destruct (Hclosed v Hv) as (_ & q' & Hq' & Hin').
    rewrite Hp in Hq'. injection Hq' as <-.
    by destruct (Hclosed categoryID Hin') as [? _].
  - destruct (Hclosed v Hv) as (_ & q' & Hq' & Hin').
    rewrite Hp in Hq'. injection Hq' as <-. by apply IH.
Qed.

Lemma marked_step m categoryID visited x p :
  marked m categoryID visited x → x ≠ categoryID → parent_of m x = Some p →
  marked m categoryID ({[x]} ∪ visited) p.
Proof.
  intros Hm Hne Hp v [Hv|Hv]%elem_of_union.
  - apply elem_of_singleton in Hv as ->. split; [done|]. eauto.
  - destruct (Hm v Hv) as (? & q & Hq & [?|Heq]); (split; [done|]);
      exists q; (split; [done|]); left; apply elem_of_union;
      [by right|left; by apply elem_of_singleton].
Qed.

Context (Hfirst : ∀ id, fault env (OpCategoryFirst id) = false).

(** When the walk meets the category, it does so before the revisit guard
    can fire. *)
Lemma checkLoop_detects w categoryID parentID current :
  ancestor (categories (db w)) categoryID current →
  ∀ visited,
    marked (categories (db w)) categoryID visited current →
    ∃ n, ∀ fuel, (n <= fuel)%nat →
      ∃ w', categoryRepository.checkLoop env fuel categoryID parentID
              visited current w = Some (Err ErrCircularDetected, w')
            ∧ db w' = db w.
Proof.
  assert (∀ visited fuel, (1 <= fuel)%nat →
            ∃ w', categoryRepository.checkLoop env fuel categoryID parentID
                    visited categoryID w = Some (Err ErrCircularDetected, w')
                  ∧ db w' = db w) as Hhit.
  { intros visited [|fuel] Hf; [lia|]. simpl.
    rewrite bool_decide_eq_true_2 by done. eexists. split; [reflexivity|done]. }
  induction 1 as [x Hx|x p Hx Ha IH]; intros visited Hm.
  - destruct (decide (x = categoryID)) as [->|Hne]; [exists 1%nat; apply Hhit|].
    pose proof Hx as Hx'. apply parent_of_Some in Hx' as (c & Hc & Hcp).
    exists 2%nat. intros [|fuel] Hf; [lia|]. simpl.
    rewrite bool_decide_eq_false_2, Hfirst, Hc, Hcp by done.
    rewrite bool_decide_eq_false_2.
    + apply Hhit. lia.
    + intros [Hin|Hin]%elem_of_union.
      * apply elem_of_singleton in Hin. done.
      * by destruct (Hm _ Hin).
  - destruct (decide (x = categoryID)) as [->|Hne]; [exists 1%nat; apply Hhit|].
    pose proof Hx as Hx'. apply parent_of_Some in Hx' as (c & Hc & Hcp).
    assert (p ∉ ({[x]} ∪ visited : gset UUID)) as Hfresh.
    { intros Hin.
      eapply (marked_closed _ _ _ _ Hm); [eauto|done|exact Hin|exact Ha]. }
    destruct (IH ({[x]} ∪ visited)) as [n Hn]; [by apply marked_step|].
    exists (S n). intros [|fuel] Hf; [lia|]. simpl.
    rewrite bool_decide_eq_false_2, Hfirst, Hc, Hcp by done.
    rewrite bool_decide_eq_false_2 by done. apply Hn. lia.
Qed.

(** The answers of the loop. *)
Lemma checkLoop_answers fuel categoryID parentID visited current w r w' :
  categoryRepository.checkLoop env fuel categoryID parentID visited current w
  = Some (r, w') →
  db w' = db w
  ∧ (r = Ok tt
     ∨ (r = Err ErrCircularDetected
        ∧ (current = categoryID
           ∨ ancestor (categories (db w)) categoryID current))
     ∨ r = Err ErrCircularExisting).
Proof.
  revert visited current.
  induction fuel as [|fuel IH]; intros visited current E; [done|].
  simpl in E. case_bool_decide as Hne.
  { unfold liftF, bind, logw, fail in E. simplify_eq. simpl.
    split; [done|]. right. left. split; [done|]. by left. }
  rewrite Hfirst in E.
  destruct (categories (db w) !! current) as [parent|] eqn:Hc;
    [|simplify_eq; eauto].
  destruct (Category.ParentID parent) as [p|] eqn:Hp; [|simplify_eq; eauto].
  case_bool_decide.
  { unfold liftF, bind, logw, fail in E. simplify_eq. simpl.
    split; [done|]. by right; right. }
  apply IH in E as (Hdb & [->|[[-> Hr]| ->]]); (split; [done|]); eauto.
  right. left. split; [done|]. right.
  assert (parent_of (categories (db w)) current = Some p) as Hpo
    by (by rewrite (parent_of_lookup _ _ _ Hc)).
  destruct Hr as [->|Ha]; [by apply ancestor_parent|by eapply ancestor_step].
Qed.
End CheckDecides.

Lemma checkLoop_answers_in_time env fuel categoryID parentID visited current w :
  current ∉ visited →
  (size (dom (categories (db w)) ∖ visited) < fuel)%nat →
  ∃ r w',
    categoryRepository.checkLoop env fuel categoryID parentID visited current w
    = Some (r, w')
    ∧ db w' = db w.
Proof.
  intros Hnew Hsize.
  destruct (checkLoop_total env fuel categoryID parentID visited current w
              Hnew Hsize) as [[r w'] E].
  exists r, w'. split; [exact E|]. eapply checkLoop_keeps_db, E.
Qed.

(** X10. [checkCategoryCircularReference] always answers: with as many
    turns as there are stored categories, and one, the loop has returned,
    whatever the stored parent links look like (cycles included) and
    whichever reads fail, and it has written nothing to the database. *)
Theorem checkCategoryCircularReference_terminates
    env fuel categoryID parentID w :
  (size (categories (db w)) < fuel)%nat →
  ∃ r w',
    categoryRepository.checkCategoryCircularReference env fuel
      categoryID parentID w = Some (r, w')
    ∧ db w' = db w.
Proof.
  intros Hsize. unfold categoryRepository.checkCategoryCircularReference.
  apply checkLoop_answers_in_time.
  - apply not_elem_of_empty.
  - rewrite difference_empty_L, size_dom. exact Hsize.
Qed.

Lemma checkCategoryCircularReference_terminates_witness :
  ∃ r w',
    categoryRepository.checkCategoryCircularReference Examples.env0 4
      30%N 31%N CategoryExample.wc = Some (r, w')
    ∧ db w' = db CategoryExample.wc.
Proof.
  apply (checkCategoryCircularReference_terminates Examples.env0 4 30%N 31%N
           CategoryExample.wc).
  vm_compute. lia.
Defined.

(** X11. What [checkCategoryCircularReference] answers when its reads
    succeed: "circular reference detected" exactly when the new parent is
    the category itself or one of its descendants; no error exactly when,
    besides, the chain of parents above the new parent ends; "circular
    reference in existing hierarchy" exactly when that chain runs into a
    cycle that does not contain the category. *)
Theorem checkCategoryCircularReference_decides
    env fuel categoryID parentID w r w' :
  (∀ id, fault env (OpCategoryFirst id) = false) →
  categoryRepository.checkCategoryCircularReference env fuel
    categoryID parentID w = Some (r, w') →
  let m := categories (db w) in
  let would_cycle := parentID = categoryID ∨ ancestor m categoryID parentID in
  (r = Err ErrCircularDetected ↔ would_cycle)
  ∧ (r = Ok tt ↔ ¬ would_cycle ∧ terminates m parentID)
  ∧ (r = Err ErrCircularExisting ↔ ¬ would_cycle ∧ ¬ terminates m parentID).
Proof.
  intros Hfirst E m would_cycle.
  unfold categoryRepository.checkCategoryCircularReference in E.
  pose proof (checkLoop_answers env Hfirst _ _ _ _ _ _ _ _ E) as [_ Hkinds].
  assert (would_cycle → r = Err ErrCircularDetected) as Hdetect.
  { intros [->|Ha].
    - destruct fuel as [|fuel]; [done|]. simpl in E.
      rewrite bool_decide_eq_true_2 in E by done.
      unfold liftF, bind, logw, fail in E. by simplify_eq.
    - destruct (checkLoop_detects env Hfirst w categoryID parentID parentID Ha ∅)
        as [n Hn]; [intros v Hv; set_solver|].
      destruct (Hn (Nat.max n fuel)) as (w1 & E1 & _); [lia|].
      eapply checkLoop_mono in E; [|apply (Nat.le_max_r n fuel)].
      rewrite E in E1. by simplify_eq. }
  assert (¬ would_cycle → terminates m parentID → r = Ok tt) as Hpass.
  { intros Hn Ht.
    destruct (checkLoop_complete env Hfirst w categoryID parentID parentID Ht ∅)
      as [n Hc].
    - intros ->. apply Hn. by left.
    - intros Ha. apply Hn. by right.
    - intros v Hv. set_solver.
    - specialize (Hc (Nat.max n fuel) (Nat.le_max_l _ _)).
      eapply checkLoop_mono in E; [|apply (Nat.le_max_r n fuel)].
      rewrite E in Hc. by simplify_eq. }
  assert (r = Ok tt → ¬ would_cycle ∧ terminates m parentID) as Hsound.
  { intros ->. apply checkLoop_sound in E as (_ & Hne & Hna & Ht).
    split; [|done]. by intros [?|?]. }
  split; [|split].
  - split; [|exact Hdetect].
    intros ->. by destruct Hkinds as [?|[[_ ?]|?]].
  - split; [exact Hsound|]. intros [? ?]. by apply Hpass.
  - split.
    + intros ->. split.
      * intros Hc. by specialize (Hdetect Hc).
      * intros Ht. destruct Hkinds as [?|[[? Hc]|_]]; [done|done|].
        assert (¬ would_cycle) as Hn
          by (intros Hc; by specialize (Hdetect Hc)).
        by specialize (Hpass Hn Ht).
    + intros [Hn Ht]. destruct Hkinds as [->|[[-> Hc]|?]]; [|done|done].
      by destruct (Hsound eq_refl).
Qed.

Lemma checkCategoryCircularReference_decides_witness :
  ∃ w', categoryRepository.checkCategoryCircularReference Examples.env0 6
          ChainExample.D ChainExample.X ChainExample.looped
        = Some (Err ErrCircularExisting, w')
        ∧ ¬ terminates (categories (db ChainExample.looped)) ChainExample.X.
Proof.
  destruct (categoryRepository.checkCategoryCircularReference Examples.env0 6
              ChainExample.D ChainExample.X ChainExample.looped)
    as [[r w']|] eqn:E; [|vm_compute in E; discriminate E].
  assert (r = Err ErrCircularExisting) as ->
    by (vm_compute in E; by injection E as <- _).
  exists w'. split; [reflexivity|].
  destruct (checkCategoryCircularReference_decides Examples.env0 6
              ChainExample.D ChainExample.X ChainExample.looped _ w'
              (fun _ => eq_refl) E) as (_ & _ & [Hex _]).
  by destruct (Hex eq_refl).
Defined.

(** ** Editing a category *)

Lemma bindF_liftF {A B} (m : M A) (k : A → MF B) w :
  bindF (liftF m) k w
  = match m w with
    | (Ok a, w1) => k a w1
    | (Err e, w1) => Some (Err e, w1)
    end.
Proof. unfold bindF, liftF. by destruct (m w) as [[a|e] w1]. Qed.

Lemma bindF_assoc {A B C} (m : MF A) (k : A → MF B) (h : B → MF C) w :
  bindF (bindF m k) h w = bindF m (fun a => bindF (k a) h) w.
Proof. unfold bindF. by destruct (m w) as [[[a|e] w1]|]. Qed.


Section Edit.
Context (env : Env).

Lemma parent_First_inv category p w r w1 :
  (parent <- on_error (
       guard_op env (OpCategoryFirst p) ;;;
       d <- get_db ;;
       match categories d !! p with
       | Some c => ret c
       | None => fail ErrRecordNotFound
       end)
       (Some ("Failed to get parent category", KId p)) same ;;
   if bool_decide (Category.UserID parent = Category.UserID category)
   then ret tt
   else logw LError "Attempted to set parent category from different user"
             (KId (Category.UserID category)) ;;;
        fail ErrParentOtherUser) w = (r, w1) →
  db w1 = db w
  ∧ (∀ u, r = Ok u →
       ∃ parent, categories (db w) !! p = Some parent
                 ∧ Category.UserID parent = Category.UserID category).
Proof.
  unfold bind, on_error, guard_op, get_db, ret, fail, logw. intros E.
  destruct (fault env _); [by simplify_eq|].
  destruct (categories (db w) !! p) as [parent|]; [|by simplify_eq].
  case_bool_decide; simplify_eq; [|done].
  split; [done|]. intros _ _. by exists parent.
Qed.

Lemma row_Updates_inv category w r w1 :
  (on_error (guard_op env (OpCategoryUpdate (Category.ID category)))
            (Some ("Failed to update category", KId (Category.ID category))) same ;;;
   d <- get_db ;;
   match categories d !! Category.ID category with
   | Some old =>
       put_db (set_categories
                 (<[Category.ID category :=
                      categoryRepository.updated_row category old]>
                    (categories d)) d)
   | None => fail ErrRecordNotFound
   end) w = (r, w1) →
  match r with
  | Ok _ => ∃ old,
      categories (db w) !! Category.ID category = Some old
      ∧ db w1 = set_categories
                  (<[Category.ID category :=
                       categoryRepository.updated_row category old]>
                     (categories (db w))) (db w)
  | Err _ => db w1 = db w
  end.
Proof.
  unfold bind, on_error, guard_op, get_db, put_db, ret, fail. intros E.
  destruct (fault env _); [by simplify_eq|]. simpl in E.
  destruct (categories (db w) !! Category.ID category) as [old|];
    simplify_eq; [|done].
  by exists old.
Qed.

(** The repository's [Update] answers once its loop has as many turns as
    there are categories, and one; an error leaves the database as it
    was. *)
Lemma repository_Update_answers fuel category w :
  (size (categories (db w)) < fuel)%nat →
  ∃ r w',
    categoryRepository.Update env fuel category w = Some (r, w')
    ∧ match r with
      | Ok _ =>
          match Category.ParentID category with
          | Some p => ∃ parent,
              categories (db w) !! p = Some parent
              ∧ Category.UserID parent = Category.UserID category
          | None => True
          end
      | Err _ => db w' = db w
      end.
Proof.
  intros Hsize. unfold categoryRepository.Update.
  destruct (Category.ParentID category) as [p|].
  - rewrite bindF_assoc, bindF_liftF.
    match goal with
    | |- context [match ?m w with _ => _ end] =>
        destruct (m w) as [[[]|e1] w1] eqn:E1
    end.
    2:{ apply parent_First_inv in E1 as [Hdb _]. eauto. }
    apply parent_First_inv in E1 as [Hdb Hparent].
    specialize (Hparent tt eq_refl).
    destruct (checkLoop_answers_in_time env fuel (Category.ID category) p
                ∅ p w1) as (r2 & w2 & E2 & Hdb2);
      [apply not_elem_of_empty
      |by rewrite difference_empty_L, size_dom, Hdb|].
    unfold bindF at 1, categoryRepository.checkCategoryCircularReference.
    rewrite E2.
    destruct r2 as [[]|e2];
      [|exists (Err e2), w2; split; [done|congruence]].
    unfold liftF.
    match goal with
    | |- context [Some (?m w2)] => destruct (m w2) as [r3 w3] eqn:E3
    end.
    apply row_Updates_inv in E3. exists r3, w3. split; [done|].
    destruct r3; [done|congruence].
  - rewrite bindF_liftF. unfold ret, liftF.
    match goal with
    | |- context [Some (?m w)] => destruct (m w) as [r3 w3] eqn:E3
    end.
    apply row_Updates_inv in E3. exists r3, w3. split; [done|].
    destruct r3; done.
Qed.
End Edit.

Lemma validateCategory_same_world category wr w r w' :
  on_error (categoryService.validateCategory category) None wr w = (r, w') →
  w' = w.
Proof.
  unfold on_error, categoryService.validateCategory, ret, fail.
  destruct (_ || _); by intros [= <- <-].
Qed.

(** X12. [Update] of the category service always answers (its cycle check
    is the repository's, which is bounded by the number of categories), and
    an error leaves the database as it was. When it succeeds, the category
    was stored for the user named in the payload; only its row is written,
    and of it only name, parent and type; a new parent is a stored category
    of the same user; and every parent chain that ended before ends
    afterwards: no cycle was made. *)
Theorem Update_answers_and_keeps_chains env fuel category w :
  (size (categories (db w)) < fuel)%nat →
  ∃ r w',
    categoryServiceEdit.Update env fuel category w = Some (r, w')
    ∧ match r with
      | Ok _ =>
          ∃ old,
            categories (db w) !! Category.ID category = Some old
            ∧ Category.UserID old = Category.UserID category
            ∧ db w' = set_categories
                        (<[Category.ID category :=
                             Category.mk (Category.ID old) (Category.Name category)
                               (Category.ParentID category) (Category.UserID old)
                               (Category.Type_ category)]>
                           (categories (db w))) (db w)
            ∧ (∀ p, Category.ParentID category = Some p →
                 ∃ parent, categories (db w) !! p = Some parent
                           ∧ Category.UserID parent = Category.UserID category)
            ∧ (∀ x, terminates (categories (db w)) x →
                    terminates (categories (db w')) x)
      | Err _ => db w' = db w
      end.
Proof.
  intros Hsize. unfold categoryServiceEdit.Update.
  rewrite bindF_liftF.
  destruct (on_error (categoryService.validateCategory category) _ _ w)
    as [[[]|e0] w0] eqn:E0.
  2:{ exists (Err e0), w0. split; [done|].
      by apply validateCategory_same_world in E0 as ->. }
  apply validateCategory_same_world in E0 as ->.
  rewrite bindF_liftF.
  destruct (on_error (categoryRepository.GetByID env _) _ _ w)
    as [[existing|e1] w1] eqn:E1.
  2:{ exists (Err e1), w1. split; [done|].
      eapply keeps_db_on_error, E1. apply category_GetByID_keeps. }
  apply on_error_Ok, category_GetByID_Ok in E1 as [-> ->].
  destruct (categories (db w) !! Category.ID category) as [existing|] eqn:Hex.
  2:{ by exists (Err ErrCategoryNotFound), w. }
  case_bool_decide as Hu; simpl.
  2:{ by exists (Err ErrUnauthorized), w. }
  destruct (repository_Update_answers env fuel category w Hsize)
    as (r & w' & E & Hr).
  rewrite E. destruct r as [[]|e].
  - unfold liftF, logw. eexists (Ok tt), _. split; [reflexivity|]. simpl.
    apply repository_Update_Ok in E as (Hcheck & old & Hold & Hdb).
    rewrite Hex in Hold. injection Hold as <-.
    exists existing. split; [done|]. split; [done|]. split; [exact Hdb|].
    split.
    + intros p Hp. by rewrite Hp in Hr.
    + rewrite Hdb. simpl. apply reparent_terminates. simpl. exact Hcheck.
  - exists (Err (Caused ErrDatabaseOperation e)), w'. by split.
Qed.

Lemma Update_answers_and_keeps_chains_witness :
  ∃ r w',
    categoryServiceEdit.Update Examples.env0 5
      (ChainExample.cat ChainExample.A "A" (Some ChainExample.C))
      ChainExample.wt = Some (r, w')
    ∧ is_err r = true
    ∧ db w' = db ChainExample.wt.
Proof.
  destruct (Update_answers_and_keeps_chains Examples.env0 5
              (ChainExample.cat ChainExample.A "A" (Some ChainExample.C))
              ChainExample.wt) as (r & w' & E & Hr).
  { vm_compute. lia. }
  exists r, w'. split; [exact E|].
  assert (is_err r = true) as Herr
    by (vm_compute in E; by injection E as <- _).
  split; [exact Herr|]. destruct r; [discriminate Herr | exact Hr].
Defined.

(** ** Deleting a category *)

Lemma repository_Delete_inv env fault' id w r w' :
  categoryRepositoryDelete.Delete env fault' id w = (r, w') →
  match r with
  | Ok _ =>
      is_Some (categories (db w) !! id)
      ∧ db w' = set_categories
                  (delete id (categoryRepositoryDelete.clear_parent id
                                <$> categories (db w))) (db w)
  | Err _ => db w' = db w
  end.
Proof.
  intros E. destruct r as [u|e]; [|eapply atomic_Transaction, E].
  unfold categoryRepositoryDelete.Delete, Transaction_ in E.
  match type of E with
  | (match ?b with _ => _ end) = _ => destruct b as [[v|e] w1] eqn:Eb
  end; [|done].
  destruct (fault env OpCommit); [done|]. injection E as <- <-.
  unfold bind, on_error, guard_op', get_db, put_db, ret, fail in Eb.
  destruct (fault' (OpCategoryClearParent id)); [done|]. simpl in Eb.
  destruct (fault' (OpCategoryDelete id)); [done|]. simpl in Eb.
  rewrite lookup_fmap in Eb.
  destruct (categories (db w) !! id) as [c|] eqn:Hc; simpl in Eb; [|done].
  injection Eb as <- <-. split; [by eexists|done].
Qed.

Lemma clear_parent_terminates (m : gmap UUID Category.t) id x :
  terminates m x →
  terminates (delete id (categoryRepositoryDelete.clear_parent id <$> m)) x.
Proof.
  assert (∀ y, parent_of (delete id (categoryRepositoryDelete.clear_parent id
                                       <$> m)) y
               = if bool_decide (y = id) then None
                 else match parent_of m y with
                      | Some p => if bool_decide (p = id) then None else Some p
                      | None => None
                      end) as Hparent.
  { intros y. unfold parent_of. case_bool_decide as Hy.
    - subst y. by rewrite lookup_delete_eq.
    - rewrite lookup_delete_ne, lookup_fmap by done.
      destruct (m !! y) as [c|]; simpl; [|done].
      unfold categoryRepositoryDelete.clear_parent.
      destruct (Category.ParentID c) as [p|] eqn:Hp.
      + case_bool_decide as Hq.
        * injection Hq as ->. by rewrite bool_decide_eq_true_2.
        * rewrite Hp. rewrite bool_decide_eq_false_2; [done|congruence].
      + rewrite bool_decide_eq_false_2 by done. by rewrite Hp. }
  induction 1 as [x Hx|x p Hx Hp IH].
  - apply terminates_root. rewrite Hparent, Hx. by case_bool_decide.
  - destruct (decide (x = id)) as [->|Hne].
    { apply terminates_root. rewrite Hparent. by rewrite bool_decide_eq_true_2. }
    destruct (decide (p = id)) as [->|Hpne].
    { apply terminates_root. rewrite Hparent, Hx.
      rewrite bool_decide_eq_false_2 by done.
      by rewrite bool_decide_eq_true_2. }
    eapply terminates_step; [|exact IH].
    rewrite Hparent, Hx. by rewrite !bool_decide_eq_false_2.
Qed.

(** X13. [Delete] of the category service is all or nothing: an error
    leaves the database as it was. When it succeeds the category was stored
    and is gone; its children have become roots and are otherwise
    unchanged, every other category is exactly as before; no stored
    category is left pointing to the deleted one; every parent chain that
    ended before ends afterwards; and no other table is written. *)
Theorem Delete_detaches_the_children env fault' id w r w' :
  categoryServiceEdit.Delete env fault' id w = (r, w') →
  match r with
  | Ok _ =>
      let m := categories (db w) in
      let m' := categories (db w') in
      is_Some (m !! id)
      ∧ m' !! id = None
      ∧ (∀ k, k ≠ id →
           m' !! k
           = (fun c => if bool_decide (Category.ParentID c = Some id)
                       then Category.with_ParentID None c else c) <$> m !! k)
      ∧ (∀ k c, m' !! k = Some c → Category.ParentID c ≠ Some id)
      ∧ (∀ x, terminates m x → terminates m' x)
      ∧ db w' = set_categories m' (db w)
  | Err _ => db w' = db w
  end.
Proof.
  unfold categoryServiceEdit.Delete, bind at 1. intros E.
  destruct (on_error (categoryRepository.GetByID env id) _ _ w)
    as [[existing|e1] w1] eqn:E1.
  2:{ injection E as <- <-.
      eapply keeps_db_on_error, E1. apply category_GetByID_keeps. }
  apply on_error_Ok, category_GetByID_Ok in E1 as [-> ->].
  destruct (categories (db w) !! id) as [c|] eqn:Hc;
    [|by injection E as <- <-].
  unfold bind, on_error in E.
  destruct (categoryRepositoryDelete.Delete env fault' id w)
    as [[[]|e2] w2] eqn:E2;
    apply repository_Delete_inv in E2.
  2:{ by injection E as <- <-. }
  unfold logw in E. injection E as <- <-. simpl.
  destruct E2 as [_ Hdb]. rewrite Hdb. simpl.
  split; [by eexists|].
  split; [by rewrite lookup_delete_eq|].
  split; [intros k Hk; by rewrite lookup_delete_ne, lookup_fmap by done|].
  split; [|split; [intros x; apply clear_parent_terminates|done]].
  intros k c' Hk.
  destruct (decide (k = id)) as [->|Hne]; [by rewrite lookup_delete_eq in Hk|].
  rewrite lookup_delete_ne, lookup_fmap in Hk by done.
  destruct (categories (db w) !! k) as [c0|]; [|done].
  injection Hk as <-. unfold categoryRepositoryDelete.clear_parent.
  case_bool_decide; [done|]. done.
Qed.

Lemma Delete_detaches_the_children_witness :
  ∃ w', categoryServiceEdit.Delete Examples.env0 (fun _ => false)
          ChainExample.B ChainExample.wt = (Ok tt, w')
        ∧ categories (db w') !! ChainExample.B = None
        ∧ Category.ParentID <$> categories (db w') !! ChainExample.C
          = Some None.
Proof.
  destruct (categoryServiceEdit.Delete Examples.env0 (fun _ => false)
              ChainExample.B ChainExample.wt) as [[[]|e] w'] eqn:E;
    [|vm_compute in E; discriminate E].
  exists w'. split; [reflexivity|].
  destruct (Delete_detaches_the_children _ _ _ _ _ _ E)
    as (_ & Hgone & Hrest & _).
  split; [exact Hgone|].
  rewrite (Hrest ChainExample.C) by done. reflexivity.
Defined.

(** ** Deleting a card, disconnecting the provider *)

Lemma tx_DeleteByCardID_Ok fault' cardID w u w' :
  tx_DeleteByCardID fault' cardID w = (Ok u, w') →
  w' = mkWorld (set_transactions
                  (filter (fun x => Transaction.CardID x ≠ cardID)
                          (transactions (db w))) (db w)) (log w).
Proof.
  unfold tx_DeleteByCardID, bind, guard_op', get_db, put_db, ret, fail.
  destruct (fault' _); by intros [= <-].
Qed.

Lemma repository_card_Delete_inv env fault' id w r w' :
  cardRepositoryDelete.Delete env fault' id w = (r, w') →
  match r with
  | Ok _ =>
      is_Some (cards (db w) !! id)
      ∧ db w' = set_cards (delete id (cards (db w)))
                  (set_transactions
                     (filter (fun x => Transaction.CardID x ≠ id)
                             (transactions (db w))) (db w))
  | Err _ => db w' = db w
  end.
Proof.
  intros E. destruct r as [u|e]; [|eapply atomic_Transaction, E].
  unfold cardRepositoryDelete.Delete, Transaction_ in E.
  match type of E with
  | (match ?b with _ => _ end) = _ => destruct b as [[v|e] w1] eqn:Eb
  end; [|done].
  destruct (fault env OpCommit); [done|]. injection E as <- <-.
  apply bind_Ok in Eb as ([] & w2 & E1 & Eb).
  apply on_error_Ok, tx_DeleteByCardID_Ok in E1 as ->.
  unfold bind, on_error, guard_op', get_db, put_db, ret, fail in Eb.
  destruct (fault' (OpCardDelete id)); [done|]. simpl in Eb.
  destruct (cards (db w) !! id) as [c|] eqn:Hc; [|done].
  injection Eb as <- <-. split; [by eexists|done].
Qed.

(** X14. [Delete] of the card service is all or nothing: an error leaves
    the database as it was. When it succeeds the card was stored and is
    gone together with every transaction booked on it; every other card is
    as before, the transactions of other cards are all still there, in
    their order, and no other table is written. *)
Theorem card_Delete_takes_its_transactions env fault' id w r w' :
  cardService.Delete env fault' id w = (r, w') →
  match r with
  | Ok _ =>
      is_Some (cards (db w) !! id)
      ∧ cards (db w') !! id = None
      ∧ (∀ k, k ≠ id → cards (db w') !! k = cards (db w) !! k)
      ∧ (∀ x, x ∈ transactions (db w')
              ↔ x ∈ transactions (db w) ∧ Transaction.CardID x ≠ id)
      ∧ transactions (db w') `sublist_of` transactions (db w)
      ∧ db w' = set_cards (cards (db w'))
                  (set_transactions (transactions (db w')) (db w))
  | Err _ => db w' = db w
  end.
Proof.
  unfold cardService.Delete, bind at 1. intros E.
  destruct (on_error (cardRepository.GetByID env id) _ _ w)
    as [[existing|e1] w1] eqn:E1.
  2:{ injection E as <- <-.
      eapply keeps_db_on_error, E1. apply card_GetByID_keeps. }
  apply on_error_Ok, card_GetByID_Ok in E1 as [-> ->].
  destruct (cards (db w) !! id) as [c|] eqn:Hc; [|by injection E as <- <-].
  unfold bind, on_error in E.
  destruct (cardRepositoryDelete.Delete env fault' id w)
    as [[[]|e2] w2] eqn:E2;
    apply repository_card_Delete_inv in E2.
  2:{ by injection E as <- <-. }
  unfold logw in E. injection E as <- <-. simpl.
  destruct E2 as [_ Hdb]. rewrite Hdb. simpl.
  split; [by eexists|].
  split; [by rewrite lookup_delete_eq|].
  split; [intros k Hk; by rewrite lookup_delete_ne|].
  split; [intros x; rewrite list_elem_of_filter; tauto|].
  split; [apply sublist_filter|done].
Qed.

Lemma card_Delete_takes_its_transactions_witness :
  ∃ w', cardService.Delete Examples.env0 (fun _ => false) 10%N LedgerExample.wl
        = (Ok tt, w')
        ∧ cards (db w') !! 10%N = None
        ∧ Transaction.ID <$> transactions (db w') = [2%N].
Proof.
  destruct (cardService.Delete Examples.env0 (fun _ => false) 10%N
              LedgerExample.wl) as [[[]|e] w'] eqn:E;
    [|vm_compute in E; discriminate E].
  exists w'. split; [reflexivity|].
  destruct (card_Delete_takes_its_transactions _ _ _ _ _ _ E)
    as (_ & Hgone & _).
  split; [exact Hgone|].
  vm_compute in E. by injection E as <-.
Defined.

Section Disconnect.
Context (env : Env) (fault' : StorageOp' → bool).

Lemma deleteTransactions_Ok cs w u w' :
  monobankIntegrationRepositoryDelete.deleteTransactions fault' cs w
  = (Ok u, w') →
  (∀ x, x ∈ transactions (db w')
        ↔ x ∈ transactions (db w)
          ∧ ∀ c, c ∈ cs → Transaction.CardID x ≠ Card.ID c)
  ∧ transactions (db w') `sublist_of` transactions (db w)
  ∧ db w' = set_transactions (transactions (db w')) (db w).
Proof.
  revert w. induction cs as [|card rest IH]; intros w E; simpl in E.
  - unfold ret in E. simplify_eq. split; [|split; [done|]].
    + intros x. split; [intros Hx; split; [done|]|tauto].
      intros c Hc. by apply elem_of_nil in Hc.
    + by destruct w' as [[]].
  - apply bind_Ok in E as ([] & w1 & E1 & E).
    apply on_error_Ok, tx_DeleteByCardID_Ok in E1 as ->.
    apply IH in E as (Hin & Hsub & Hdb). simpl in *.
    split; [|split].
    + intros x. rewrite Hin, list_elem_of_filter. split.
      * intros [[Hne Hx] Hrest]. split; [done|].
        intros c [->|Hc]%elem_of_cons; [done|by apply Hrest].
      * intros [Hx Hall]. split; [split; [|done]|].
        -- apply Hall. by left.
        -- intros c Hc. apply Hall. by right.
    + etrans; [exact Hsub|apply sublist_filter].
    + rewrite Hdb. done.
Qed.

Lemma repository_integration_Delete_inv userID w r w' :
  monobankIntegrationRepositoryDelete.Delete env fault' userID w = (r, w') →
  match r with
  | Ok _ =>
      is_Some (integrations (db w) !! userID)
      ∧ integrations (db w') = delete userID (integrations (db w))
      ∧ cards (db w')
        = filter (fun kc => ¬ monobankIntegrationRepositoryDelete.provided
                               userID kc.2) (cards (db w))
      ∧ (∀ x, x ∈ transactions (db w')
              ↔ x ∈ transactions (db w)
                ∧ ∀ k c, cards (db w) !! k = Some c →
                         monobankIntegrationRepositoryDelete.provided userID c →
                         Transaction.CardID x ≠ Card.ID c)
      ∧ transactions (db w') `sublist_of` transactions (db w)
      ∧ categories (db w') = categories (db w)
      ∧ users (db w') = users (db w)
  | Err _ => db w' = db w
  end.
Proof.
  intros E. destruct r as [u|e]; [|eapply atomic_Transaction, E].
  unfold monobankIntegrationRepositoryDelete.Delete, Transaction_ in E.
  match type of E with
  | (match ?b with _ => _ end) = _ => destruct b as [[v|e] w1] eqn:Eb
  end; [|done].
  destruct (fault env OpCommit); [done|]. injection E as <- <-.
  apply bind_Ok in Eb as (cs & w2 & E1 & Eb).
  apply on_error_Ok in E1.
  unfold bind, guard_op', get_db, ret, fail in E1.
  destruct (fault' (OpCardFindProvided userID)); [done|].
  injection E1 as <- <-.
  apply bind_Ok in Eb as ([] & w3 & E2 & Eb).
  apply deleteTransactions_Ok in E2 as (Hin & Hsub & Hdb).
  unfold bind, on_error, guard_op', get_db, put_db, ret, fail in Eb.
  destruct (fault' (OpCardDeleteProvided userID)); [done|]. simpl in Eb.
  destruct (fault' (OpIntegrationDelete userID)); [done|]. simpl in Eb.
  destruct (integrations (db w3) !! userID) as [i|] eqn:Hi; [|done].
  injection Eb as <- <-. simpl. rewrite Hdb in Hi |- *. simpl in *.
  split; [by eexists|]. split; [done|]. split; [done|].
  split; [|done].
  intros x. rewrite Hin. split; intros [Hx Hall]; (split; [done|]).
  - intros k c Hk Hp. apply Hall, list_elem_of_filter. split; [done|].
    apply list_elem_of_fmap. exists (k, c). split; [done|].
    by apply elem_of_map_to_list.
  - intros c [Hp Hc]%list_elem_of_filter.
    apply list_elem_of_fmap in Hc as ([k c'] & -> & Hc).
    apply elem_of_map_to_list in Hc. by eapply Hall.
Qed.
End Disconnect.

(** X15. [Disconnect] is all or nothing: an error leaves the database as
    it was. When it succeeds the user had an integration and it is gone;
    the cards that are gone are exactly the user's cards that are not
    manual; the transactions that are gone are exactly those booked on
    these cards, and the others keep their order; categories and users are
    not written. Where cards are stored under their own identifier, every
    transaction of a manual card, or of a card of another user, is kept. *)
Theorem Disconnect_removes_the_provider_data env fault' userID w r w' :
  MonobankServiceDisconnect.Disconnect env fault' userID w = (r, w') →
  match r with
  | Ok _ =>
      is_Some (integrations (db w) !! userID)
      ∧ integrations (db w') = delete userID (integrations (db w))
      ∧ (∀ k c, cards (db w') !! k = Some c
                ↔ cards (db w) !! k = Some c
                  ∧ ¬ (Card.UserID c = userID ∧ Card.IsManual c = false))
      ∧ (∀ x, x ∈ transactions (db w')
              ↔ x ∈ transactions (db w)
                ∧ ∀ k c, cards (db w) !! k = Some c →
                         Card.UserID c = userID → Card.IsManual c = false →
                         Transaction.CardID x ≠ Card.ID c)
      ∧ transactions (db w') `sublist_of` transactions (db w)
      ∧ categories (db w') = categories (db w)
      ∧ users (db w') = users (db w)
      ∧ (keyed_cards (db w) →
         ∀ x c, x ∈ transactions (db w) →
                cards (db w) !! Transaction.CardID x = Some c →
                Card.IsManual c = true ∨ Card.UserID c ≠ userID →
                x ∈ transactions (db w'))
  | Err _ => db w' = db w
  end.
Proof.
  unfold MonobankServiceDisconnect.Disconnect, bind at 1. intros E.
  destruct (on_error (monobankIntegrationRepository.GetByUserID env userID) _ _ w)
    as [[existing|e1] w1] eqn:E1.
  2:{ injection E as <- <-. eapply keeps_db_on_error, E1.
      unfold monobankIntegrationRepository.GetByUserID. auto 10 with ledger. }
  assert (w1 = w) as ->.
  { apply on_error_Ok in E1.
    unfold monobankIntegrationRepository.GetByUserID, bind, on_error, guard_op,
      get_db, ret, fail in E1.
    destruct (fault env _); by simplify_eq. }
  destruct existing as [i|]; [|by injection E as <- <-].
  apply repository_integration_Delete_inv in E.
  destruct r as [u|e]; [|done].
  destruct E as (Hi & Hint & Hcards & Htx & Hsub & Hcat & Husers).
  split; [done|]. split; [done|].
  split.
  { intros k c. rewrite Hcards, map_lookup_filter_Some. simpl.
    unfold monobankIntegrationRepositoryDelete.provided. tauto. }
  split.
  { intros x. rewrite Htx.
    unfold monobankIntegrationRepositoryDelete.provided.
    split; intros [Hx Hall]; (split; [done|]).
    - intros k c Hk Hu Hm. by apply (Hall k c).
    - intros k c Hk [Hu Hm]. by apply (Hall k c). }
  split; [done|]. split; [done|]. split; [done|].
  intros Hkey x c Hx Hc Hkeep. apply Htx. split; [done|].
  intros k c' Hk [Hu Hm] Heq.
  rewrite (Hkey _ _ Hk) in Heq. rewrite Heq, Hk in Hc. injection Hc as ->.
  destruct Hkeep as [Hman|Hother]; congruence.
Qed.

Lemma Disconnect_removes_the_provider_data_witness :
  ∃ w', MonobankServiceDisconnect.Disconnect Examples.env0 (fun _ => false)
          Examples.alice DisconnectExample.wd = (Ok tt, w')
        ∧ integrations (db w') !! Examples.alice = None
        ∧ ManualExample.entered ∈ transactions (db w')
        ∧ (transactions (db w')
           `sublist_of` transactions (db DisconnectExample.wd)).
Proof.
  destruct (MonobankServiceDisconnect.Disconnect Examples.env0 (fun _ => false)
              Examples.alice DisconnectExample.wd) as [[[]|e] w'] eqn:E;
    [|vm_compute in E; discriminate E].
  exists w'. split; [reflexivity|].
  destruct (Disconnect_removes_the_provider_data _ _ _ _ _ _ E)
    as (_ & Hint & _ & _ & Hsub & _).
  split; [rewrite Hint; apply lookup_delete_eq|].
  split; [|exact Hsub].
  vm_compute in E. injection E as <-. simpl. left.
Defined.

(** ** Paginated answers *)

(** X16. For a positive page size and a count of items that is not
    negative (and small enough for the sum not to overflow),
    [NewPaginatedResponse] answers with the least number of pages that
    holds all items: the pages are enough, and one page fewer is not. The
    items, the count, the page and the page size are passed on as given. *)
Theorem NewPaginatedResponse_total_pages {A} (items : A)
    totalItems page pageSize :
  0 <= totalItems → 0 < pageSize → totalItems + pageSize <= Int64.max →
  ∃ r, response.NewPaginatedResponse items totalItems page pageSize = Some r
       ∧ response.Success r = true
       ∧ response.Items (response.Data r) = items
       ∧ response.TotalItems (response.Data r) = totalItems
       ∧ response.Page (response.Data r) = page
       ∧ response.PageSize (response.Data r) = pageSize
       ∧ 0 <= response.TotalPages (response.Data r)
       ∧ totalItems <= response.TotalPages (response.Data r) * pageSize
       ∧ (response.TotalPages (response.Data r) - 1) * pageSize < totalItems.
Proof.
  intros Ht Hp Hmax. unfold response.NewPaginatedResponse.
  rewrite bool_decide_eq_false_2 by lia.
  eexists. split; [reflexivity|]. simpl.
  unfold Int64.max in Hmax.
  unfold Int64.sub, Int64.add.
  rewrite (wrap_in_range (totalItems + pageSize))
    by (unfold Int64.in_range, Int64.min, Int64.max; lia).
  rewrite (wrap_in_range (totalItems + pageSize - 1))
    by (unfold Int64.in_range, Int64.min, Int64.max; lia).
  rewrite Z.quot_div_nonneg by lia.
  pose proof (Z.div_mod (totalItems + pageSize - 1) pageSize ltac:(lia)) as Hdm.
  pose proof (Z.mod_pos_bound (totalItems + pageSize - 1) pageSize Hp) as Hmod.
  set (n := (totalItems + pageSize - 1) / pageSize) in *.
  assert (0 <= n) as Hn by (apply Z.div_pos; lia).
  assert (n <= totalItems + pageSize - 1) as Hle by nia.
  rewrite (wrap_in_range n)
    by (unfold Int64.in_range, Int64.min, Int64.max; lia).
  repeat split; try done; nia.
Qed.

Lemma NewPaginatedResponse_total_pages_witness :
  ∃ r, response.NewPaginatedResponse tt 41 1 20 = Some r
       ∧ response.TotalPages (response.Data r) = 3.
Proof.
  destruct (NewPaginatedResponse_total_pages tt 41 1 20)
    as (r & E & _ & _ & _ & _ & _ & H0 & Hup & Hlow);
    [lia | lia | vm_compute; discriminate |].
  exists r. split; [exact E|]. lia.
Defined.

(** ** Categories of [backend/app]: families *)

Section Families.
Context (env : Env) (fault' : StorageOp' → bool).

Lemma validateCategoryData_inv category w r w' :
  App_categoryService.validateCategoryData category w = (r, w') →
  w' = w
  ∧ (∀ u, r = Ok u →
       Category.Name category ≠ ""
       ∧ type_check (Category.Type_ category) = true).
Proof.
  unfold App_categoryService.validateCategoryData, type_check, ret, fail.
  intros E. case_bool_decide as Hn; [by simplify_eq|].
  destruct (bool_decide (Category.Type_ category = "expense")),
           (bool_decide (Category.Type_ category = "income")),
           (bool_decide (Category.Type_ category = "transfer"));
    simpl in *; by simplify_eq.
Qed.

Lemma verifyParent_inv userID category parentID w r w' :
  App_categoryService.verifyParent env userID category parentID w = (r, w') →
  db w' = db w
  ∧ (∀ u, r = Ok u →
       w' = w
       ∧ ∃ parent, categories (db w) !! parentID = Some parent
                   ∧ Category.UserID parent = userID
                   ∧ Category.Type_ parent = Category.Type_ category).
Proof.
  unfold App_categoryService.verifyParent, bind at 1. intros E.
  destruct (on_error (categoryRepository.GetByID env parentID) _ _ w)
    as [[parent|e1] w1] eqn:E1.
  2:{ injection E as <- <-. split; [|done].
      eapply keeps_db_on_error, E1. apply category_GetByID_keeps. }
  apply on_error_Ok, category_GetByID_Ok in E1 as [-> ->].
  destruct (categories (db w) !! parentID) as [parent|];
    [|by injection E as <- <-].
  case_bool_decide as Hu; simpl in E; [|by injection E as <- <-].
  case_bool_decide as Ht; simpl in E; [|by injection E as <- <-].
  injection E as <- <-. split; [done|]. intros _ _. split; [done|].
  by exists parent.
Qed.

Lemma repository_category_Create_inv category w r w' :
  categoryRepository.Create env category w = (r, w') →
  match r with
  | Ok _ =>
      categories (db w) !! Category.ID category = None
      ∧ db w' = set_categories
                  (<[Category.ID category := category]> (categories (db w)))
                  (db w)
  | Err _ => db w' = db w
  end.
Proof.
  unfold categoryRepository.Create, on_error, bind, guard_op, get_db, put_db,
    ret, fail.
  intros E. destruct (fault env _); [by simplify_eq|].
  destruct (categories (db w) !! Category.ID category); by simplify_eq.
Qed.

Lemma CreateCategory_inv userID category w r w' :
  App_categoryService.CreateCategory env userID category w = (r, w') →
  match r with
  | Ok _ =>
      let owned := App_categoryService.with_UserID userID category in
      let row := if bool_decide (Category.ID category = uuid_Nil)
                 then Category.with_ID
                        (categoryService.fresh_category_id (categories (db w)))
                        owned
                 else owned in
      userID ∈ users (db w)
      ∧ Category.Name category ≠ ""
      ∧ type_check (Category.Type_ category) = true
      ∧ categories (db w) !! Category.ID row = None
      ∧ (∀ p, Category.ParentID category = Some p →
           ∃ parent, categories (db w) !! p = Some parent
                     ∧ Category.UserID parent = userID
                     ∧ Category.Type_ parent = Category.Type_ category)
      ∧ db w' = set_categories
                  (<[Category.ID row := row]> (categories (db w))) (db w)
  | Err _ => db w' = db w
  end.
Proof.
  unfold App_categoryService.CreateCategory, bind at 1. intros E.
  destruct (on_error (userRepository.GetByID env userID) _ _ w)
    as [[user|e1] w1] eqn:E1.
  2:{ injection E as <- <-.
      unfold on_error, userRepository.GetByID, bind, on_error, guard_op,
        get_db, ret, fail in E1.
      destruct (fault env _); by simplify_eq. }
  assert (w1 = w ∧ (is_Some user → userID ∈ users (db w))) as [-> Huser].
  { unfold on_error, userRepository.GetByID, bind, on_error, guard_op,
      get_db, ret, fail in E1.
    destruct (fault env _); [by simplify_eq|]. simpl in E1.
    case_bool_decide; simplify_eq; (split; [done|]); intros [? Hs]; done. }
  destruct user as [user|]; [|by injection E as <- <-].
  unfold bind at 1 in E.
  destruct (App_categoryService.validateCategoryData category w)
    as [[[]|e2] w2] eqn:E2;
    apply validateCategoryData_inv in E2 as [-> Hvalid];
    [|by injection E as <- <-].
  destruct (Hvalid tt eq_refl) as [Hname Htype].
  cbv zeta in E. unfold bind at 1 in E.
  match type of E with
  | (match ?m w with _ => _ end) = _ =>
      destruct (m w) as [[[]|e3] w3] eqn:E3
  end.
  2:{ injection E as <- <-. simpl in E3.
      destruct (Category.ParentID category) as [p|];
        [by apply verifyParent_inv in E3 as [? _]|by unfold ret in E3]. }
  assert (w3 = w
          ∧ ∀ p, Category.ParentID category = Some p →
              ∃ parent, categories (db w) !! p = Some parent
                        ∧ Category.UserID parent = userID
                        ∧ Category.Type_ parent = Category.Type_ category)
    as [-> Hparent].
  { simpl in E3. destruct (Category.ParentID category) as [p|].
    - apply verifyParent_inv in E3 as [_ H]. destruct (H tt eq_refl) as [-> ?].
      split; [done|]. by intros ? [= <-].
    - unfold ret in E3. by simplify_eq. }
  clear E3. unfold on_error, App_categoryService.categoryRepo_Create,
    bind at 1, get_db in E.
  destruct (categoryRepository.Create env _ w) as [[[]|e4] w4] eqn:E4;
    apply repository_category_Create_inv in E4; simpl in E4.
  - injection E as <- <-. destruct E4 as [Hfree Hdb].
    split; [by apply Huser|]. done.
  - injection E as <- <-. done.
Qed.
End Families.

(** X17. [CreateCategory] stores the category for the caller (whatever
    owner the payload names) under an identifier that was free (a fresh one
    when the payload brings none), and only if the caller exists, the name
    is not empty, the type is one of the three, and a parent that is named
    is a stored category of the caller with the same type. So it keeps
    families together: if every named parent was stored with the owner and
    the type of its child, that still holds afterwards. An error leaves the
    database as it was. *)
Theorem CreateCategory_keeps_families_together env userID category w r w' :
  App_categoryService.CreateCategory env userID category w = (r, w') →
  match r with
  | Ok _ =>
      userID ∈ users (db w)
      ∧ (∃ k row,
           categories (db w) !! k = None
           ∧ categories (db w') = <[k := row]> (categories (db w))
           ∧ (Category.ID category ≠ uuid_Nil → k = Category.ID category)
           ∧ Category.ID row = k
           ∧ Category.UserID row = userID
           ∧ Category.Name row = Category.Name category
           ∧ Category.Name row ≠ ""
           ∧ Category.ParentID row = Category.ParentID category
           ∧ Category.Type_ row = Category.Type_ category
           ∧ type_check (Category.Type_ row) = true
           ∧ ∀ p, Category.ParentID row = Some p →
               p ≠ k
               ∧ ∃ parent, categories (db w) !! p = Some parent
                           ∧ Category.UserID parent = userID
                           ∧ Category.Type_ parent = Category.Type_ row)
      ∧ (same_owner_families (categories (db w)) →
         same_owner_families (categories (db w'))
         ∧ (same_type_families (categories (db w)) →
            same_type_families (categories (db w'))))
      ∧ db w' = set_categories (categories (db w')) (db w)
  | Err _ => db w' = db w
  end.
Proof.
  intros E. apply CreateCategory_inv in E. destruct r as [u|e]; [|done].
  cbv zeta in E.
  destruct E as (Huser & Hname & Htype & Hfree & Hparent & Hdb).
  set (row := if bool_decide (Category.ID category = uuid_Nil)
              then Category.with_ID
                     (categoryService.fresh_category_id (categories (db w)))
                     (App_categoryService.with_UserID userID category)
              else App_categoryService.with_UserID userID category) in *.
  assert (Category.UserID row = userID
          ∧ Category.Name row = Category.Name category
          ∧ Category.ParentID row = Category.ParentID category
          ∧ Category.Type_ row = Category.Type_ category
          ∧ (Category.ID category ≠ uuid_Nil
             → Category.ID row = Category.ID category))
    as (Hru & Hrn & Hrp & Hrt & Hrid)
    by (unfold row; case_bool_decide; done).
  rewrite Hdb. simpl.
  split; [done|].
  split.
  { exists (Category.ID row), row. rewrite Hrn, Hrt, Hrp.
    do 10 (split; [done|]).
    intros p Hp. destruct (Hparent p Hp) as (parent & Hpar & Hu & Ht).
    split; [intros ->; by rewrite Hfree in Hpar|]. by exists parent. }
  split; [|done].
  intros Hown.
  assert (∀ k c, categories (db w) !! k = Some c →
                 Category.ParentID c ≠ Some (Category.ID row)) as Hnochild.
  { intros k c Hk Hp. destruct (Hown k c _ Hk Hp) as (pc & Hpc & _).
    by rewrite Hfree in Hpc. }
  split.
  - intros k c p Hk Hp.
    destruct (decide (k = Category.ID row)) as [->|Hne].
    + rewrite lookup_insert_eq in Hk. injection Hk as <-.
      rewrite Hrp in Hp.
      destruct (Hparent p Hp) as (parent & Hpar & Hu & _).
      exists parent. split; [|congruence].
      rewrite lookup_insert_ne; [done|]. intros <-. by rewrite Hfree in Hpar.
    + rewrite lookup_insert_ne in Hk by done.
      destruct (Hown k c p Hk Hp) as (pc & Hpc & Hu).
      exists pc. split; [|done].
      rewrite lookup_insert_ne; [done|]. intros <-. by rewrite Hfree in Hpc.
  - intros Hty k c p pc Hk Hp Hpc.
    destruct (decide (k = Category.ID row)) as [->|Hne].
    + rewrite lookup_insert_eq in Hk. injection Hk as <-.
      rewrite Hrp in Hp.
      destruct (Hparent p Hp) as (parent & Hpar & _ & Ht).
      rewrite lookup_insert_ne in Hpc
        by (intros <-; by rewrite Hfree in Hpar).
      rewrite Hpar in Hpc. injection Hpc as <-. congruence.
    + rewrite lookup_insert_ne in Hk by done.
      destruct (decide (p = Category.ID row)) as [->|Hpne];
        [by destruct (Hnochild k c Hk)|].
      rewrite lookup_insert_ne in Hpc by done. by eapply Hty.
Qed.

Lemma CreateCategory_keeps_families_together_witness :
  ∃ w' row, App_categoryService.CreateCategory Examples.env0 Examples.alice
              FamilyExample.fruit CategoryExample.wc = (Ok tt, w')
            ∧ categories (db w') !! 33%N = Some row
            ∧ Category.UserID row = Examples.alice.
Proof.
  destruct (App_categoryService.CreateCategory Examples.env0 Examples.alice
              FamilyExample.fruit CategoryExample.wc) as [[[]|e] w'] eqn:E;
    [|vm_compute in E; discriminate E].
  destruct (CreateCategory_keeps_families_together _ _ _ _ _ _ E)
    as (_ & (k & row & _ & Hm & Hk & _ & Hu & _) & _).
  exists w', row. split; [reflexivity|].
  assert (k = 33%N) as -> by (apply Hk; vm_compute; discriminate).
  rewrite Hm, lookup_insert_eq. by split.
Defined.

Lemma UpdateCategory_checks_inv env userID category existing w r w' :
  (App_categoryService.validateCategoryData category ;;;
   match Category.ParentID category with
   | Some parentID =>
       if bool_decide (Category.ParentID existing = Some parentID)
       then ret tt
       else App_categoryService.verifyParent env userID category parentID
   | None => ret tt
   end) w = (r, w') →
  db w' = db w ∧ (∀ u, r = Ok u → w' = w).
Proof.
  unfold bind. intros E.
  destruct (App_categoryService.validateCategoryData category w)
    as [[[]|e] w1] eqn:E1;
    apply validateCategoryData_inv in E1 as [-> _]; [|by simplify_eq].
  destruct (Category.ParentID category) as [p|];
    [|unfold ret in E; by simplify_eq].
  case_bool_decide; [unfold ret in E; by simplify_eq|].
  apply verifyParent_inv in E as [Hdb Hok]. split; [done|].
  intros u ->. by destruct (Hok u eq_refl).
Qed.

(** X18. [UpdateCategory] always answers, and an error leaves the database
    as it was. It succeeds only for the owner of the category; then only
    the row of that category is written: it keeps its owner and gets name,
    parent and type from the payload. Categories of other users are
    untouched, named parents are still stored with the owner of their
    child if they were, and no parent chain that ended has become a
    cycle. A caller who does not own the category is answered
    "unauthorized". *)
Theorem UpdateCategory_is_for_the_owner env fuel userID category w :
  (size (categories (db w)) < fuel)%nat →
  ∃ r w',
    App_categoryService.UpdateCategory env fuel userID category w
    = Some (r, w')
    ∧ match r with
      | Ok _ =>
          ∃ old,
            categories (db w) !! Category.ID category = Some old
            ∧ Category.UserID old = userID
            ∧ db w' = set_categories
                        (<[Category.ID category :=
                             Category.mk (Category.ID old) (Category.Name category)
                               (Category.ParentID category) (Category.UserID old)
                               (Category.Type_ category)]>
                           (categories (db w))) (db w)
            ∧ (∀ k c, categories (db w) !! k = Some c →
                      Category.UserID c ≠ userID →
                      categories (db w') !! k = Some c)
            ∧ (same_owner_families (categories (db w)) →
               same_owner_families (categories (db w')))
            ∧ (∀ x, terminates (categories (db w)) x →
                    terminates (categories (db w')) x)
      | Err e =>
          db w' = db w
          ∧ (∀ old, categories (db w) !! Category.ID category = Some old →
                    Category.UserID old ≠ userID →
                    fault env (OpCategoryGetByID (Category.ID category)) = false →
                    e = ErrUnauthorized)
      end.
Proof.
  intros Hsize. unfold App_categoryService.UpdateCategory.
  rewrite bindF_liftF.
  destruct (on_error (categoryRepository.GetByID env _) _ _ w)
    as [[existing|e1] w1] eqn:E1.
  2:{ exists (Err e1), w1. split; [done|]. split.
      - eapply keeps_db_on_error, E1. apply category_GetByID_keeps.
      - intros old _ _ Hf.
        unfold on_error, categoryRepository.GetByID, bind, on_error, guard_op
          in E1. by rewrite Hf in E1. }
  apply on_error_Ok, category_GetByID_Ok in E1 as [-> ->].
  destruct (categories (db w) !! Category.ID category) as [existing|] eqn:Hex.
  2:{ exists (Err ErrCategoryNotFound), w. split; [done|]. by split. }
  case_bool_decide as Hu; simpl.
  2:{ exists (Err ErrUnauthorized), w. split; [done|]. by split. }
  rewrite bindF_liftF.
  match goal with
  | |- context [match ?m w with _ => _ end] =>
      destruct (m w) as [[[]|e2] w2] eqn:E2
  end;
    apply UpdateCategory_checks_inv in E2 as [Hdb2 Hw2].
  2:{ exists (Err e2), w2. split; [done|]. split; [done|].
      intros old [= <-] Hne. done. }
  rewrite (Hw2 tt eq_refl). clear Hdb2 Hw2 w2.
  set (category' := App_categoryService.with_UserID
                      (Category.UserID existing) category).
  destruct (repository_Update_answers env fuel category' w Hsize)
    as (r & w' & E & Hr).
  rewrite E. destruct r as [[]|e].
  - exists (Ok tt), w'. split; [done|].
    apply repository_Update_Ok in E as (Hcheck & old & Hold & Hdb).
    simpl in Hold, Hdb, Hcheck, Hr.
    rewrite Hex in Hold. injection Hold as <-.
    exists existing. split; [done|]. split; [done|]. split; [exact Hdb|].
    rewrite Hdb. simpl.
    split; [|split].
    + intros k c Hk Hne. rewrite lookup_insert_ne; [done|].
      intros <-. rewrite Hex in Hk. injection Hk as <-. done.
    + intros Hown k c p Hk Hp.
      destruct (decide (k = Category.ID category)) as [->|Hkne].
      * rewrite lookup_insert_eq in Hk. injection Hk as <-. simpl in *.
        rewrite Hp in Hr, Hcheck. destruct Hr as (parent & Hpar & Hpu).
        destruct Hcheck as (Hpne & _).
        exists parent. split; [by rewrite lookup_insert_ne|done].
      * rewrite lookup_insert_ne in Hk by done.
        destruct (Hown k c p Hk Hp) as (pc & Hpc & Hpu).
        destruct (decide (p = Category.ID category)) as [->|Hpne].
        -- rewrite Hex in Hpc. injection Hpc as <-.
           eexists. rewrite lookup_insert_eq. split; [reflexivity|done].
        -- exists pc. by rewrite lookup_insert_ne.
    + apply reparent_terminates. simpl. exact Hcheck.
  - eexists (Err _), _. split; [reflexivity|]. simpl. split; [done|].
    intros old [= <-] Hne. done.
Qed.

Lemma UpdateCategory_is_for_the_owner_witness :
  ∃ w', App_categoryService.UpdateCategory Examples.env0 4 Examples.bob
          FamilyExample.renamed CategoryExample.wc
        = Some (Err ErrUnauthorized, w')
        ∧ db w' = db CategoryExample.wc.
Proof.
  destruct (UpdateCategory_is_for_the_owner Examples.env0 4 Examples.bob
              FamilyExample.renamed CategoryExample.wc)
    as (r & w' & E & Hr); [vm_compute; lia|].
  assert (r = Err ErrUnauthorized) as ->
    by (vm_compute in E; by injection E as <- _).
  exists w'. split; [exact E | apply Hr].
Defined.

(** X19. [DeleteCategory] is all or nothing and succeeds only for the
    owner of the category. Where named parents are stored with the owner
    of their child, a successful call leaves every category of every other
    user exactly as it was, and parents are still stored with the owner of
    their child afterwards: the children of the deleted category have
    become roots. A caller who does not own the category is answered
    "unauthorized". *)
Theorem DeleteCategory_is_for_the_owner env fault' userID categoryID w r w' :
  App_categoryService.DeleteCategory env fault' userID categoryID w = (r, w') →
  match r with
  | Ok _ =>
      let m := categories (db w) in
      let m' := categories (db w') in
      (∃ old, m !! categoryID = Some old ∧ Category.UserID old = userID)
      ∧ m' !! categoryID = None
      ∧ (same_owner_families m →
         (∀ k c, m !! k = Some c → Category.UserID c ≠ userID →
                 m' !! k = Some c)
         ∧ same_owner_families m')
      ∧ db w' = set_categories m' (db w)
  | Err e =>
      db w' = db w
      ∧ (∀ old, categories (db w) !! categoryID = Some old →
                Category.UserID old ≠ userID →
                fault env (OpCategoryGetByID categoryID) = false →
                e = ErrUnauthorized)
  end.
Proof.
  unfold App_categoryService.DeleteCategory, bind at 1. intros E.
  destruct (on_error (categoryRepository.GetByID env categoryID) _ _ w)
    as [[existing|e1] w1] eqn:E1.
  2:{ injection E as <- <-. split.
      - eapply keeps_db_on_error, E1. apply category_GetByID_keeps.
      - intros old _ _ Hf.
        unfold on_error, categoryRepository.GetByID, bind, on_error, guard_op
          in E1. by rewrite Hf in E1. }
  apply on_error_Ok, category_GetByID_Ok in E1 as [-> ->].
  destruct (categories (db w) !! categoryID) as [existing|] eqn:Hex;
    [|by injection E as <- <-].
  case_bool_decide as Hu; simpl in E.
  2:{ injection E as <- <-. by split. }
  unfold on_error in E.
  destruct (categoryRepositoryDelete.Delete env fault' categoryID w)
    as [[[]|e2] w2] eqn:E2;
    apply repository_Delete_inv in E2; injection E as <- <-; simpl.
  2:{ split; [done|]. intros old [= <-] Hne. done. }
  destruct E2 as [_ Hdb]. rewrite Hdb. simpl.
  split; [by exists existing|].
  split; [by rewrite lookup_delete_eq|].
  split; [|done].
  intros Hown. split.
  - intros k c Hk Hne.
    assert (k ≠ categoryID) as Hkne
      by (intros ->; rewrite Hex in Hk; injection Hk as <-; done).
    rewrite lookup_delete_ne, lookup_fmap, Hk by done. simpl. f_equal.
    unfold categoryRepositoryDelete.clear_parent.
    case_bool_decide as Hp; [|done].
    destruct (Hown k c _ Hk Hp) as (pc & Hpc & Hpu).
    rewrite Hex in Hpc. injection Hpc as <-. congruence.
  - intros k c' p Hk Hp.
    destruct (decide (k = categoryID)) as [->|Hkne];
      [by rewrite lookup_delete_eq in Hk|].
    rewrite lookup_delete_ne, lookup_fmap in Hk by done.
    destruct (categories (db w) !! k) as [c|] eqn:Hc; [|done].
    injection Hk as <-.
    unfold categoryRepositoryDelete.clear_parent in Hp |- *.
    case_bool_decide as Hcp; [done|].
    destruct (Hown k c p Hc Hp) as (pc & Hpc & Hpu).
    assert (p ≠ categoryID) as Hpne by congruence.
    exists (categoryRepositoryDelete.clear_parent categoryID pc).
    rewrite lookup_delete_ne, lookup_fmap, Hpc by done.
    split; [done|].
    unfold categoryRepositoryDelete.clear_parent. by case_bool_decide.
Qed.

Lemma DeleteCategory_is_for_the_owner_witness :
  ∃ w', App_categoryService.DeleteCategory Examples.env0 (fun _ => false)
          Examples.bob 30%N CategoryExample.wc = (Err ErrUnauthorized, w')
        ∧ db w' = db CategoryExample.wc.
Proof.
  destruct (App_categoryService.DeleteCategory Examples.env0 (fun _ => false)
              Examples.bob 30%N CategoryExample.wc) as [[[]|e] w'] eqn:E;
    [vm_compute in E; discriminate E|].
  assert (e = ErrUnauthorized) as ->
    by (vm_compute in E; by injection E as <- _).
  exists w'. split; [reflexivity|].
  apply (DeleteCategory_is_for_the_owner _ _ _ _ _ _ _ E).
Defined.

(** ** Creating a category keeps the names apart *)

Lemma nameTaken_false name (l : list Category.t) :
  categoryService.nameTaken name l = false →
  ∀ c, c ∈ l → Category.Name c ≠ name.
Proof.
  intros Hf c Hin Hname.
  by rewrite (nameTaken_true _ _ _ Hin Hname) in Hf.
Qed.

Lemma categoryService_Create_Ok env category w u w' :
  categoryService.Create env category w = (Ok u, w') →
  let row := if bool_decide (Category.ID category = uuid_Nil)
             then Category.with_ID
                    (categoryService.fresh_category_id (categories (db w)))
                    category
             else category in
  Category.UserID category ≠ uuid_Nil
  ∧ Category.Name category ≠ ""
  ∧ Category.Type_ category ≠ ""
  ∧ Category.UserID category ∈ users (db w)
  ∧ (∀ k c, categories (db w) !! k = Some c →
            Category.UserID c = Category.UserID category →
            Category.Name c ≠ Category.Name category)
  ∧ categories (db w) !! Category.ID row = None
  ∧ db w' = set_categories (<[Category.ID row := row]> (categories (db w)))
              (db w).
Proof.
  unfold categoryService.Create. intros E.
  apply bind_Ok in E as (? & w1 & E1 & E).
  apply on_error_Ok in E1.
  pose proof (validateCategory_quiet _ _ _ _ E1) as ->.
  assert (Category.UserID category ≠ uuid_Nil
          ∧ Category.Name category ≠ ""
          ∧ Category.Type_ category ≠ "") as (Hu & Hn & Ht).
  { unfold categoryService.validateCategory in E1.
    repeat case_bool_decide; simpl in E1; try done. }
  clear E1.
  apply bind_Ok in E as (user & w1 & E1 & E).
  apply on_error_Ok in E1.
  pose proof (user_GetByID_quiet _ _ _ _ _ E1) as ->.
  assert (is_Some user → Category.UserID category ∈ users (db w)) as Huser.
  { unfold userRepository.GetByID, bind, on_error, guard_op, get_db, ret, fail
      in E1.
    destruct (fault env _); [done|]. simpl in E1.
    case_bool_decide as Hin; simplify_eq; intros [? Hs]; done. }
  destruct user as [user|]; [|done].
  apply bind_Ok in E as (l & w1 & E2 & E).
  apply on_error_Ok, category_GetByUserID_Ok in E2 as [-> ->].
  destruct (categoryService.nameTaken _ _) eqn:Hnt; [done|].
  pose proof (nameTaken_false _ _ Hnt) as Hfree.
  apply bind_Ok in E as (d & w1 & E3 & E).
  unfold get_db in E3. injection E3 as <- <-.
  apply bind_Ok in E as ([] & w2 & E4 & E).
  apply on_error_Ok in E4.
  unfold categoryRepository.Create, on_error, bind, guard_op, get_db, put_db,
    ret, fail in E4.
  destruct (fault env OpCategoryCreate); [done|]. simpl in E4.
  match type of E4 with
  | context [categories (db w) !! ?k] =>
      destruct (categories (db w) !! k) eqn:Hk; [done|]
  end.
  injection E4 as <-. unfold logw in E. simplify_eq. simpl.
  split; [done|]. split; [done|]. split; [done|].
  split; [by apply Huser|].
  split; [|by split].
  intros k c Hc Hcu. apply Hfree. rewrite <- Hcu.
  by eapply owned_category_listed.
Qed.

(** X21. [Create] of the category service keeps the names of a user's
    categories apart: if no user had two categories of one name before a
    successful call, none has afterwards. The call stores one new row,
    under an identifier that was free (a fresh one when the payload brings
    none), with the owner, name, parent and type of the payload, for a user
    that exists; every other row is as before, and rows are still stored
    under their own identifier if they were. *)
Theorem Create_keeps_names_unique env category w u w' :
  categoryService.Create env category w = (Ok u, w') →
  Category.UserID category ∈ users (db w)
  ∧ (∃ k row,
       categories (db w) !! k = None
       ∧ categories (db w') = <[k := row]> (categories (db w))
       ∧ (Category.ID category ≠ uuid_Nil → k = Category.ID category)
       ∧ Category.ID row = k
       ∧ Category.UserID row = Category.UserID category
       ∧ Category.Name row = Category.Name category
       ∧ Category.ParentID row = Category.ParentID category
       ∧ Category.Type_ row = Category.Type_ category)
  ∧ (unique_names (categories (db w)) → unique_names (categories (db w')))
  ∧ (keyed (categories (db w)) → keyed (categories (db w')))
  ∧ db w' = set_categories (categories (db w')) (db w).
Proof.
  intros E. apply categoryService_Create_Ok in E.
  cbv zeta in E. destruct E as (_ & _ & _ & Huser & Hfree & Hkey & Hdb).
  set (row := if bool_decide (Category.ID category = uuid_Nil)
              then Category.with_ID
                     (categoryService.fresh_category_id (categories (db w)))
                     category
              else category) in *.
  assert (Category.UserID row = Category.UserID category
          ∧ Category.Name row = Category.Name category
          ∧ Category.ParentID row = Category.ParentID category
          ∧ Category.Type_ row = Category.Type_ category
          ∧ (Category.ID category ≠ uuid_Nil
             → Category.ID row = Category.ID category))
    as (Hru & Hrn & Hrp & Hrt & Hrid)
    by (unfold row; case_bool_decide; done).
  rewrite Hdb. simpl.
  split; [done|].
  split; [by exists (Category.ID row), row|].
  split; [|split; [|done]].
  - intros Huniq k1 k2 c1 c2 H1 H2 Hsame Hname.
    destruct (decide (k1 = Category.ID row)) as [->|Hne1];
      destruct (decide (k2 = Category.ID row)) as [->|Hne2]; [done|..].
    + rewrite lookup_insert_eq in H1. injection H1 as <-.
      rewrite lookup_insert_ne in H2 by done.
      destruct (Hfree k2 c2 H2); congruence.
    + rewrite lookup_insert_eq in H2. injection H2 as <-.
      rewrite lookup_insert_ne in H1 by done.
      destruct (Hfree k1 c1 H1); congruence.
    + rewrite lookup_insert_ne in H1, H2 by done. by eapply Huniq.
  - intros Hkeyed k c Hk.
    destruct (decide (k = Category.ID row)) as [->|Hne].
    + rewrite lookup_insert_eq in Hk. by injection Hk as <-.
    + rewrite lookup_insert_ne in Hk by done. by eapply Hkeyed.
Qed.

Lemma Create_keeps_names_unique_witness :
  ∃ w' k row, categoryService.Create Examples.env0 FamilyExample.travel
                CategoryExample.wc = (Ok tt, w')
              ∧ categories (db w') = <[k := row]> (categories (db CategoryExample.wc))
              ∧ Category.Name row = "Travel".
Proof.
  destruct (categoryService.Create Examples.env0 FamilyExample.travel
              CategoryExample.wc) as [[[]|e] w'] eqn:E;
    [|vm_compute in E; discriminate E].
  destruct (Create_keeps_names_unique _ _ _ _ _ E)
    as (_ & (k & row & _ & Hm & _ & _ & _ & Hn & _) & _).
  exists w', k, row. split; [reflexivity|]. split; [exact Hm | exact Hn].
Defined.

(** ** Manual cards *)

Section ManualCards.
Context (env : Env) (fault' : StorageOp' → bool).

Lemma spared_same userID w w' : db w' = db w → spared userID w w'.
Proof. intros Hdb. unfold spared. rewrite Hdb. by repeat split. Qed.

Lemma cardRepo_Create_inv card w r w' :
  App_cardService.cardRepo_Create fault' card w = (r, w') →
  match r with
  | Ok _ =>
      let row := if bool_decide (Card.ID card = uuid_Nil)
                 then App_cardService.with_ID
                        (App_cardService.fresh_card_id (cards (db w))) card
                 else card in
      cards (db w) !! Card.ID row = None
      ∧ db w' = set_cards (<[Card.ID row := row]> (cards (db w))) (db w)
  | Err _ => db w' = db w
  end.
Proof.
  unfold App_cardService.cardRepo_Create, on_error, bind, guard_op', get_db,
    put_db, ret, fail.
  intros E. destruct (fault' _); [by simplify_eq|]. simpl in E.
  match type of E with
  | context [cards (db w) !! ?k] => destruct (cards (db w) !! k) eqn:Hk
  end; by simplify_eq.
Qed.

Lemma cardRepo_Update_inv card w r w' :
  App_cardService.cardRepo_Update fault' card w = (r, w') →
  match r with
  | Ok _ =>
      ∃ old, cards (db w) !! Card.ID card = Some old
             ∧ db w' = set_cards
                         (<[Card.ID card :=
                              App_cardService.updated_row card old]>
                            (cards (db w))) (db w)
  | Err _ => db w' = db w
  end.
Proof.
  unfold App_cardService.cardRepo_Update, on_error, bind, guard_op', get_db,
    put_db, ret, fail.
  intros E. destruct (fault' _); [by simplify_eq|]. simpl in E.
  destruct (cards (db w) !! Card.ID card) as [old|] eqn:Hk; simplify_eq;
    [|done].
  by exists old.
Qed.

Lemma card_GetByID_inv id msg wr w r w' :
  on_error (cardRepository.GetByID env id) msg wr w = (r, w') →
  db w' = db w
  ∧ (∀ o, r = Ok o → w' = w ∧ o = cards (db w) !! id)
  ∧ (fault env (OpCardGetByID id) = false →
     r = Ok (cards (db w) !! id) ∧ w' = w).
Proof.
  intros E. split; [eapply keeps_db_on_error, E; apply card_GetByID_keeps|].
  split.
  - intros o ->. by apply on_error_Ok, card_GetByID_Ok in E.
  - intros Hf. unfold on_error in E.
    rewrite (card_GetByID_run _ _ _ Hf) in E. by simplify_eq.
Qed.

Lemma CreateManualCard_inv userID card w r w' :
  App_cardService.CreateManualCard env fault' userID card w = (r, w') →
  match r with
  | App_cardService.Done =>
      ∃ k row,
        userID ∈ users (db w)
        ∧ cards (db w) !! k = None
        ∧ db w' = set_cards (<[k := row]> (cards (db w))) (db w)
        ∧ (Card.ID card ≠ uuid_Nil → k = Card.ID card)
        ∧ Card.ID row = k
        ∧ Card.UserID row = userID
        ∧ Card.IsManual row = true
        ∧ Card.MonobankAccountID row = ""
        ∧ Card.Balance row = Card.Balance card
        ∧ Card.CreditLimit row = Card.CreditLimit card
  | App_cardService.Failed _ => db w' = db w
  end.
Proof.
  unfold App_cardService.CreateManualCard, App_cardService.run at 1. intros E.
  destruct (on_error (userRepository.GetByID env userID) _ _ w)
    as [[user|e1] w1] eqn:E1.
  2:{ injection E as <- <-.
      unfold on_error, userRepository.GetByID, bind, on_error, guard_op,
        get_db, ret, fail in E1.
      destruct (fault env _); by simplify_eq. }
  assert (w1 = w ∧ (is_Some user → userID ∈ users (db w))) as [-> Huser].
  { unfold on_error, userRepository.GetByID, bind, on_error, guard_op,
      get_db, ret, fail in E1.
    destruct (fault env _); [by simplify_eq|]. simpl in E1.
    case_bool_decide; simplify_eq; (split; [done|]); intros [? Hs]; done. }
  destruct user as [user|]; [|by injection E as <- <-].
  destruct (App_cardService.validateCardData card) as [e|];
    [by injection E as <- <-|].
  unfold App_cardService.run, on_error in E.
  destruct (App_cardService.cardRepo_Create fault' _ w) as [[[]|e2] w2] eqn:E2;
    apply cardRepo_Create_inv in E2; injection E as <- <-; [|done].
  cbv zeta in E2. destruct E2 as [Hfree Hdb].
  eexists _, _. split; [by apply Huser|]. split; [exact Hfree|].
  split; [exact Hdb|].
  simpl. clear Hfree Hdb.
  destruct (bool_decide (Card.ID card = uuid_Nil)) eqn:Hb; simpl;
    repeat split; try done.
  intros Hne. by apply bool_decide_eq_true in Hb.
Qed.

Lemma UpdateCard_inv userID card w r w' :
  App_cardService.UpdateCard env fault' userID card w = (r, w') →
  match r with
  | App_cardService.Done =>
      ∃ old row,
        cards (db w) !! Card.ID card = Some old
        ∧ Card.UserID old = userID
        ∧ Card.IsManual old = true
        ∧ db w' = set_cards (<[Card.ID card := row]> (cards (db w))) (db w)
        ∧ Card.ID row = Card.ID old
        ∧ Card.UserID row = userID
        ∧ Card.IsManual row = true
        ∧ Card.MonobankAccountID row = ""
  | App_cardService.Failed e =>
      db w' = db w
      ∧ (∀ old, cards (db w) !! Card.ID card = Some old →
                fault env (OpCardGetByID (Card.ID card)) = false →
                (Card.UserID old ≠ userID
                 → e = App_cardService.Below ErrUnauthorized)
                ∧ (Card.UserID old = userID → Card.IsManual old = false
                   → e = App_cardService.ErrMonobankCard ∧ w' = w))
  end.
Proof.
  unfold App_cardService.UpdateCard, App_cardService.run at 1. intros E.
  destruct (on_error (cardRepository.GetByID env (Card.ID card)) _ _ w)
    as [[existing|e1] w1] eqn:E1;
    apply card_GetByID_inv in E1 as (Hdb1 & Hok & Hrun).
  2:{ injection E as <- <-. split; [done|]. intros old _ Hf.
      by destruct (Hrun Hf). }
  destruct (Hok existing eq_refl) as [-> ->]. clear Hok Hrun Hdb1.
  destruct (cards (db w) !! Card.ID card) as [old|] eqn:Hold;
    [|injection E as <- <-; by split].
  case_bool_decide as Hu; simpl in E.
  2:{ injection E as <- <-. simpl. split; [done|].
      intros ? [= <-] _. split; [done|]. intros; done. }
  destruct (Card.IsManual old) eqn:Hm; simpl in E.
  2:{ injection E as <- <-. split; [done|].
      intros ? [= <-] _. split; [done|]. intros; done. }
  destruct (App_cardService.validateCardData card) as [e|].
  { injection E as <- <-. split; [done|].
    intros ? [= <-] _. split; [done|]. by rewrite Hm. }
  unfold App_cardService.run, on_error in E.
  destruct (App_cardService.cardRepo_Update fault' _ w) as [[[]|e2] w2] eqn:E2;
    apply cardRepo_Update_inv in E2; injection E as <- <-.
  - destruct E2 as (old' & Hold' & Hdb). simpl in Hold'.
    rewrite Hold in Hold'. injection Hold' as <-.
    exists old, (App_cardService.updated_row
                   (App_cardService.as_manual (Card.UserID old) card) old).
    split; [done|]. split; [done|]. split; [done|]. split; [exact Hdb|].
    simpl. done.
  - simpl. split; [done|].
    intros ? [= <-] _. split; [done|]. by rewrite Hm.
Qed.

Lemma DeleteCard_inv userID cardID w r w' :
  App_cardService.DeleteCard env fault' userID cardID w = (r, w') →
  match r with
  | App_cardService.Done =>
      ∃ old,
        cards (db w) !! cardID = Some old
        ∧ Card.UserID old = userID
        ∧ Card.IsManual old = true
        ∧ db w' = set_cards (delete cardID (cards (db w)))
                    (set_transactions
                       (filter (fun x => Transaction.CardID x ≠ cardID)
                               (transactions (db w))) (db w))
  | App_cardService.Failed e =>
      db w' = db w
      ∧ (∀ old, cards (db w) !! cardID = Some old →
                fault env (OpCardGetByID cardID) = false →
                (Card.UserID old ≠ userID
                 → e = App_cardService.Below ErrUnauthorized)
                ∧ (Card.UserID old = userID → Card.IsManual old = false
                   → e = App_cardService.ErrMonobankCard ∧ w' = w))
  end.
Proof.
  unfold App_cardService.DeleteCard, App_cardService.run at 1. intros E.
  destruct (on_error (cardRepository.GetByID env cardID) _ _ w)
    as [[existing|e1] w1] eqn:E1;
    apply card_GetByID_inv in E1 as (Hdb1 & Hok & Hrun).
  2:{ injection E as <- <-. split; [done|]. intros old _ Hf.
      by destruct (Hrun Hf). }
  destruct (Hok existing eq_refl) as [-> ->]. clear Hok Hrun Hdb1.
  destruct (cards (db w) !! cardID) as [old|] eqn:Hold;
    [|injection E as <- <-; by split].
  case_bool_decide as Hu; simpl in E.
  2:{ injection E as <- <-. simpl. split; [done|].
      intros ? [= <-] _. split; [done|]. intros; done. }
  destruct (Card.IsManual old) eqn:Hm; simpl in E.
  2:{ injection E as <- <-. split; [done|].
      intros ? [= <-] _. split; [done|]. intros; done. }
  unfold App_cardService.run, on_error in E.
  destruct (cardRepositoryDelete.Delete env fault' cardID w)
    as [[[]|e2] w2] eqn:E2;
    apply repository_card_Delete_inv in E2; injection E as <- <-.
  - destruct E2 as [_ Hdb]. by exists old.
  - simpl. split; [done|].
    intros ? [= <-] _. split; [done|]. by rewrite Hm.
Qed.
End ManualCards.

(** X22. The card service for manual cards never touches anything else.
    Whatever [CreateManualCard], [UpdateCard] and [DeleteCard] return,
    every provider card and every card of another user is stored as it
    was, with every transaction booked on it, and categories, users and
    integrations are not written; a failed call writes nothing at all.
    A created card is a manual card of the caller without account id,
    whatever the payload says; an updated or deleted card was a manual card
    of the caller, and an updated one still is. For a provider card of the
    caller, [UpdateCard] and [DeleteCard] answer "cannot modify monobank
    card manually" and nothing at all changes. *)
Theorem manual_card_service_spares_the_rest env fault' userID card cardID w :
  (∀ r w', App_cardService.CreateManualCard env fault' userID card w = (r, w') →
     spared userID w w'
     ∧ match r with
       | App_cardService.Done =>
           ∃ k row, cards (db w) !! k = None
                    ∧ cards (db w') = <[k := row]> (cards (db w))
                    ∧ Card.UserID row = userID
                    ∧ Card.IsManual row = true
                    ∧ Card.MonobankAccountID row = ""
       | App_cardService.Failed _ => db w' = db w
       end)
  ∧ (∀ r w', App_cardService.UpdateCard env fault' userID card w = (r, w') →
       spared userID w w'
       ∧ match r with
         | App_cardService.Done =>
             ∃ old row, cards (db w) !! Card.ID card = Some old
                        ∧ Card.UserID old = userID
                        ∧ Card.IsManual old = true
                        ∧ cards (db w') = <[Card.ID card := row]> (cards (db w))
                        ∧ Card.UserID row = userID
                        ∧ Card.IsManual row = true
                        ∧ Card.MonobankAccountID row = ""
         | App_cardService.Failed e =>
             db w' = db w
             ∧ (∀ old, cards (db w) !! Card.ID card = Some old →
                       fault env (OpCardGetByID (Card.ID card)) = false →
                       Card.UserID old = userID → Card.IsManual old = false →
                       e = App_cardService.ErrMonobankCard ∧ w' = w)
         end)
  ∧ (∀ r w', App_cardService.DeleteCard env fault' userID cardID w = (r, w') →
       spared userID w w'
       ∧ match r with
         | App_cardService.Done =>
             ∃ old, cards (db w) !! cardID = Some old
                    ∧ Card.UserID old = userID
                    ∧ Card.IsManual old = true
                    ∧ cards (db w') = delete cardID (cards (db w))
                    ∧ (∀ x, x ∈ transactions (db w')
                            ↔ x ∈ transactions (db w)
                              ∧ Transaction.CardID x ≠ cardID)
         | App_cardService.Failed e =>
             db w' = db w
             ∧ (∀ old, cards (db w) !! cardID = Some old →
                       fault env (OpCardGetByID cardID) = false →
                       Card.UserID old = userID → Card.IsManual old = false →
                       e = App_cardService.ErrMonobankCard ∧ w' = w)
         end).
Proof.
  split; [|split]; intros r w' E.
  - apply CreateManualCard_inv in E. destruct r as [|e].
    + destruct E as (k & row & _ & Hfree & Hdb & _ & _ & Hu & Hm & Ha & _).
      split; [|exists k, row; by rewrite Hdb].
      unfold spared. rewrite Hdb. simpl.
      split; [|by repeat split].
      intros k' c Hk _. rewrite lookup_insert_ne; [done|].
      intros <-. by rewrite Hfree in Hk.
    + split; [by apply spared_same|done].
  - apply UpdateCard_inv in E. destruct r as [|e].
    + destruct E as (old & row & Hold & Hou & Hom & Hdb & _ & Hu & Hm & Ha).
      split; [|exists old, row; by rewrite Hdb].
      unfold spared. rewrite Hdb. simpl.
      split; [|by repeat split].
      intros k' c Hk Hother. rewrite lookup_insert_ne; [done|].
      intros <-. rewrite Hold in Hk. injection Hk as <-.
      destruct Hother; congruence.
    + destruct E as [Hdb Hwhy]. split; [by apply spared_same|].
      split; [done|]. intros old Hold Hf Hu Hm.
      by destruct (Hwhy old Hold Hf) as [_ H]; apply H.
  - apply DeleteCard_inv in E. destruct r as [|e].
    + destruct E as (old & Hold & Hou & Hom & Hdb).
      split.
      * unfold spared. rewrite Hdb. simpl.
        assert (∀ c, Card.IsManual c = false ∨ Card.UserID c ≠ userID →
                     c ≠ old) as Hne
          by (intros c Hother ->; destruct Hother; congruence).
        split; [|split; [|done]].
        -- intros k' c Hk Hother. rewrite lookup_delete_ne; [done|].
           intros <-. rewrite Hold in Hk. injection Hk as <-.
           by eapply Hne.
        -- intros x c Hx Hc Hother. apply list_elem_of_filter.
           split; [|done]. intros Heq. rewrite Heq, Hold in Hc.
           injection Hc as <-. by eapply Hne.
      * exists old. rewrite Hdb. simpl. repeat (split; [done|]).
        intros x. rewrite list_elem_of_filter. tauto.
    + destruct E as [Hdb Hwhy]. split; [by apply spared_same|].
      split; [done|]. intros old Hold Hf Hu Hm.
      by destruct (Hwhy old Hold Hf) as [_ H]; apply H.
Qed.

Lemma manual_card_service_spares_the_rest_witness :
  ∃ w' k row,
    App_cardService.CreateManualCard Examples.env0 (fun _ => false)
      Examples.alice CardExample.savings Examples.w0
    = (App_cardService.Done, w')
    ∧ cards (db w') = <[k := row]> (cards (db Examples.w0))
    ∧ Card.UserID row = Examples.alice
    ∧ Card.IsManual row = true
    ∧ Card.MonobankAccountID row = ""
    ∧ App_cardService.DeleteCard Examples.env0 (fun _ => false)
        Examples.alice 11%N Examples.w0
      = (App_cardService.Failed App_cardService.ErrMonobankCard, Examples.w0).
Proof.
  destruct (manual_card_service_spares_the_rest Examples.env0 (fun _ => false)
              Examples.alice CardExample.savings 11%N Examples.w0)
    as (Hcreate & _ & Hdelete).
  destruct (App_cardService.CreateManualCard Examples.env0 (fun _ => false)
              Examples.alice CardExample.savings Examples.w0)
    as [[|e] w'] eqn:E; [|vm_compute in E; discriminate E].
  destruct (Hcreate _ _ eq_refl) as (_ & k & row & _ & Hm & Hu & Hman & Ha).
  exists w', k, row. split; [reflexivity|]. repeat (split; [assumption|]).
  destruct (App_cardService.DeleteCard Examples.env0 (fun _ => false)
              Examples.alice 11%N Examples.w0) as [[|e] w''] eqn:E';
    [vm_compute in E'; discriminate E'|].
  destruct (Hdelete _ _ eq_refl) as (_ & _ & Hwhy).
  destruct (Hwhy Examples.black) as [-> ->]; reflexivity.
Defined.
